(** * InsightFlow: the report synthesizer and the dataset profiler

    A shallow embedding of two functions of the repository,

    - [generateInsightsPDF] of [src/webServer.ts], which lays a text report
      out as a PDF 1.4 byte stream, and
    - [TableProcessor.generateInsights], which profiles a table of string
      cells,

    together with the properties of them that the specification states.

    JavaScript strings are sequences of UTF-16 code units, and [.length]
    counts code units; [TextEncoder.encode] turns a string into UTF-8 bytes.
    Both views are kept apart here, since the cross-reference table of the
    PDF is computed on the first and read on the second.  JavaScript numbers
    are IEEE 754 binary64 values and are modelled by the primitive floats of
    the kernel, which compute with the same rounding. *)

From Stdlib Require Import String Ascii DecimalString.
From Stdlib Require Import List NArith ZArith Arith Lia Bool Permutation.
From Stdlib Require Import Sorted.
From Stdlib Require Import Floats.
Import ListNotations.

Set Implicit Arguments.

(* ================================================================== *)
(** * JavaScript strings and the built-ins the two functions call *)
(* ================================================================== *)

Module JS.

Local Open Scope N_scope.

(** A string is its list of UTF-16 code units. *)
Definition jsstring := list N.

Definition jsstring_eq_dec : forall s t : jsstring, {s = t} + {s <> t} :=
  list_eq_dec N.eq_dec.

Fixpoint eqb (s t : jsstring) : bool :=
  match s, t with
  | [], [] => true
  | c :: s', d :: t' => (c =? d) && eqb s' t'
  | _, _ => false
  end.

(** An ASCII literal of the source text. *)
Definition lit (s : string) : jsstring :=
  map N_of_ascii (list_ascii_of_string s).

(** The line feed, written [\n] in the source. *)
Definition nl : jsstring := [10].

(** [String(n)] of a non-negative integer: its decimal digits. *)
Definition toString (n : nat) : jsstring :=
  lit (NilEmpty.string_of_uint (Nat.to_uint n)).

(** [s.split(sep)] for a separator of one code unit; the result is never
    the empty array. *)
Fixpoint split (sep : N) (s : jsstring) : list jsstring :=
  match s with
  | [] => [[]]
  | c :: t =>
      if c =? sep then [] :: split sep t
      else match split sep t with
           | [] => [[c]]
           | h :: r => (c :: h) :: r
           end
  end.

(** [parts.join(sep)]. *)
Fixpoint join (sep : jsstring) (parts : list jsstring) : jsstring :=
  match parts with
  | [] => []
  | [p] => p
  | p :: rest => p ++ sep ++ join sep rest
  end.

(** [s.substring(i, j)]: both ends are clamped to the length and swapped
    when out of order. *)
Definition substring (i j : nat) (s : jsstring) : jsstring :=
  firstn (Nat.max i j - Nat.min i j) (skipn (Nat.min i j) s).

(** [a.slice(i, j)] for non-negative [i] and [j]. *)
Definition slice (A : Type) (i j : nat) (a : list A) : list A :=
  firstn (j - i) (skipn i a).

(** [s.padStart(n, '0')]. *)
Definition padStart0 (n : nat) (s : jsstring) : jsstring :=
  repeat 48 (n - length s) ++ s.

(** White space and line terminators, the code units [trim] strips. *)
Definition isWhiteSpace (c : N) : bool :=
  ((9 <=? c) && (c <=? 13)) || (c =? 32) || (c =? 160) || (c =? 5760)
  || ((8192 <=? c) && (c <=? 8202)) || (c =? 8232) || (c =? 8233)
  || (c =? 8239) || (c =? 8287) || (c =? 12288) || (c =? 65279).

Fixpoint trimStart (s : jsstring) : jsstring :=
  match s with
  | [] => []
  | c :: t => if isWhiteSpace c then trimStart t else s
  end.

Definition trimEnd (s : jsstring) : jsstring := rev (trimStart (rev s)).

(** [s.trim()]. *)
Definition trim (s : jsstring) : jsstring := trimEnd (trimStart s).

(** ** [TextEncoder.encode]: UTF-8 of the code points of a string *)

Definition isHighSurrogate (c : N) : bool := (55296 <=? c) && (c <=? 56319).
Definition isLowSurrogate (c : N) : bool := (56320 <=? c) && (c <=? 57343).

Definition utf8 (cp : N) : list N :=
  if cp <? 128 then [cp]
  else if cp <? 2048 then
    [N.lor 192 (N.shiftr cp 6); N.lor 128 (N.land cp 63)]
  else if cp <? 65536 then
    [N.lor 224 (N.shiftr cp 12);
     N.lor 128 (N.land (N.shiftr cp 6) 63);
     N.lor 128 (N.land cp 63)]
  else
    [N.lor 240 (N.shiftr cp 18);
     N.lor 128 (N.land (N.shiftr cp 12) 63);
     N.lor 128 (N.land (N.shiftr cp 6) 63);
     N.lor 128 (N.land cp 63)].

(** A surrogate pair is one code point; a lone surrogate is replaced by
    U+FFFD. *)
Fixpoint encode (s : jsstring) : list N :=
  match s with
  | [] => []
  | c :: t =>
      if isHighSurrogate c then
        match t with
        | d :: t' =>
            if isLowSurrogate d
            then utf8 (65536 + (c - 55296) * 1024 + (d - 56320)) ++ encode t'
            else utf8 65533 ++ encode t
        | [] => utf8 65533
        end
      else if isLowSurrogate c then utf8 65533 ++ encode t
      else utf8 c ++ encode t
  end.

(** Whether [s] begins with [p]. *)
Fixpoint startsWith (p s : list N) : bool :=
  match p, s with
  | [], _ => true
  | c :: p', d :: s' => (c =? d) && startsWith p' s'
  | _ :: _, [] => false
  end.

End JS.

(* ================================================================== *)
(** * The document synthesizer: [generateInsightsPDF] of webServer.ts *)
(* ================================================================== *)

Module Pdf.

Import JS.

(** ** PDF configuration *)

Definition pageHeight : nat := 792.
Definition pageWidth : nat := 612.
Definition marginTop : nat := 50.
Definition marginBottom : nat := 50.
Definition marginLeft : nat := 50.
Definition marginRight : nat := 50.
Definition lineHeight : nat := 15.
Definition maxCharsPerLine : nat := 85.
Definition usableHeight : nat := pageHeight - marginTop - marginBottom.

(** [Math.floor(usableHeight / lineHeight)]. *)
Definition maxLinesPerPage : nat := usableHeight / lineHeight.

(** Space is reserved for title and timestamp. *)
Definition linesPerPageWithHeader : nat := maxLinesPerPage - 4.

(** ** Escaping: [text.replace(/[()\\]/g, '\\$&')] *)

Definition isSpecial (c : N) : bool :=
  ((c =? 40) || (c =? 41) || (c =? 92))%N.

Definition escapeSpecials (text : jsstring) : jsstring :=
  flat_map (fun c => if isSpecial c then [92%N; c] else [c]) text.

(** ** Splitting the report into lines and cutting long lines *)

(** The loop [for (i = 0; i < escapedLine.length; i += maxCharsPerLine)],
    entered at index [i]; every turn advances [i], so the length of the
    line is fuel enough. *)
Fixpoint splitLongLine (fuel i : nat) (escapedLine : jsstring)
  : list jsstring :=
  match fuel with
  | 0 => []
  | S fuel' =>
      if i <? length escapedLine
      then substring i (i + maxCharsPerLine) escapedLine
             :: splitLongLine fuel' (i + maxCharsPerLine) escapedLine
      else []
  end.

(** What one raw line adds to [wrappedLines]. *)
Definition wrapLine (line : jsstring) : list jsstring :=
  let escapedLine := escapeSpecials line in
  if maxCharsPerLine <? length escapedLine
  then splitLongLine (length escapedLine) 0 escapedLine
  else [escapedLine].

Definition wrappedLines (insights : jsstring) : list jsstring :=
  flat_map wrapLine (split 10 insights).

(** ** Page content streams *)

Definition title (filename : jsstring) : jsstring :=
  lit "Data Science Analysis Report - " ++ filename.

(** The text-showing instructions of one page, from line [j] on. *)
Fixpoint contentLines (isFirstPage : bool) (j : nat)
  (pageLines : list jsstring) : jsstring :=
  match pageLines with
  | [] => []
  | l :: rest =>
      (if (j =? 0) && negb isFirstPage
       then lit "(" ++ l ++ lit ") Tj" ++ nl
       else lit "0 -" ++ toString lineHeight ++ lit " Td" ++ nl
            ++ lit "(" ++ l ++ lit ") Tj" ++ nl)
      ++ contentLines isFirstPage (S j) rest
  end.

(** The header of a page: title and timestamp on the first page only. *)
Definition pageHeader (timestamp filename : jsstring) (isFirstPage : bool)
  : jsstring :=
  let yPos := pageHeight - marginTop in
  if isFirstPage then
    lit "/F1 16 Tf" ++ nl
    ++ toString marginLeft ++ lit " " ++ toString yPos ++ lit " Td" ++ nl
    ++ lit "(" ++ escapeSpecials (title filename) ++ lit ") Tj" ++ nl
    ++ lit "0 -30 Td" ++ nl ++ lit "/F1 10 Tf" ++ nl
    ++ lit "(Generated: " ++ escapeSpecials timestamp ++ lit ") Tj" ++ nl
    ++ lit "0 -40 Td" ++ nl ++ lit "/F1 11 Tf" ++ nl
  else
    lit "/F1 11 Tf" ++ nl
    ++ toString marginLeft ++ lit " " ++ toString yPos ++ lit " Td" ++ nl.

Definition pageContent (timestamp filename : jsstring) (isFirstPage : bool)
  (pageLines : list jsstring) : jsstring :=
  lit "BT" ++ nl
  ++ pageHeader timestamp filename isFirstPage
  ++ contentLines isFirstPage 0 pageLines
  ++ lit "ET" ++ nl.

(** The loop [for (i = 0; i < wrappedLines.length;
    i += linesPerPageWithHeader)], entered at index [i]. *)
Fixpoint pagesFrom (timestamp filename : jsstring) (fuel i : nat)
  (wrapped : list jsstring) : list jsstring :=
  match fuel with
  | 0 => []
  | S fuel' =>
      if i <? length wrapped
      then pageContent timestamp filename (i =? 0)
             (slice i (i + linesPerPageWithHeader) wrapped)
           :: pagesFrom timestamp filename fuel'
                (i + linesPerPageWithHeader) wrapped
      else []
  end.

Definition pages (timestamp insights filename : jsstring) : list jsstring :=
  let wrapped := wrappedLines insights in
  pagesFrom timestamp filename (length wrapped) 0 wrapped.

(** ** PDF objects *)

(** The four code units after the second [%] are U+00E2, U+00E3, U+00CF
    and U+00D3. *)
Definition pdfHeader : jsstring :=
  lit "%PDF-1.4" ++ nl ++ lit "%" ++ [226; 227; 207; 211]%N ++ nl.

Definition obj1 : jsstring :=
  lit "1 0 obj" ++ nl ++ lit "<< /Type /Catalog /Pages 2 0 R >>" ++ nl
  ++ lit "endobj" ++ nl.

Definition pageRefs (npages : nat) : jsstring :=
  join (lit " ")
    (map (fun idx => toString (3 + idx) ++ lit " 0 R") (seq 0 npages)).

Definition obj2 (npages : nat) : jsstring :=
  lit "2 0 obj" ++ nl
  ++ lit "<< /Type /Pages /Kids [" ++ pageRefs npages ++ lit "] /Count "
  ++ toString npages ++ lit " >>" ++ nl
  ++ lit "endobj" ++ nl.

Definition fontObjNum (npages : nat) : nat := 3 + npages.

Definition objFont (npages : nat) : jsstring :=
  toString (fontObjNum npages) ++ lit " 0 obj" ++ nl
  ++ lit "<< /Font << /F1 << /Type /Font /Subtype /Type1 /BaseFont /Helvetica >> >> >>"
  ++ nl ++ lit "endobj" ++ nl.

Definition pageObj (npages i : nat) : jsstring :=
  let pageObjNum := 3 + i in
  let contentObjNum := fontObjNum npages + 1 + i in
  toString pageObjNum ++ lit " 0 obj" ++ nl
  ++ lit "<< /Type /Page /Parent 2 0 R /Resources "
  ++ toString (fontObjNum npages) ++ lit " 0 R /MediaBox [0 0 "
  ++ toString pageWidth ++ lit " " ++ toString pageHeight
  ++ lit "] /Contents " ++ toString contentObjNum ++ lit " 0 R >>" ++ nl
  ++ lit "endobj" ++ nl.

Definition contentObj (npages i : nat) (contentStream : jsstring)
  : jsstring :=
  let contentObjNum := fontObjNum npages + 1 + i in
  toString contentObjNum ++ lit " 0 obj" ++ nl
  ++ lit "<< /Length " ++ toString (length contentStream) ++ lit " >>" ++ nl
  ++ lit "stream" ++ nl ++ contentStream ++ lit "endstream" ++ nl
  ++ lit "endobj" ++ nl.

Definition pageObjects (pgs : list jsstring) : list jsstring :=
  map (pageObj (length pgs)) (seq 0 (length pgs)).

Definition contentObjects (pgs : list jsstring) : list jsstring :=
  map (fun ip => contentObj (length pgs) (fst ip) (snd ip))
    (combine (seq 0 (length pgs)) pgs).

(** [pdfBody]: the objects in the order they are concatenated. *)
Definition pdfBody (pgs : list jsstring) : jsstring :=
  obj1 ++ obj2 (length pgs)
  ++ concat (pageObjects pgs)
  ++ objFont (length pgs)
  ++ concat (contentObjects pgs).

Definition allObjects (pgs : list jsstring) : list jsstring :=
  [obj1; obj2 (length pgs)] ++ pageObjects pgs
  ++ [objFont (length pgs)] ++ contentObjects pgs.

(** ** The cross-reference table *)

(** The loop that pushes [currentOffset] and adds [allObjects[i].length]. *)
Fixpoint offsetsFrom (currentOffset : nat) (objs : list jsstring)
  : list nat :=
  match objs with
  | [] => []
  | o :: rest => currentOffset :: offsetsFrom (currentOffset + length o) rest
  end.

(** Object 0 is always null. *)
Definition offsets (pgs : list jsstring) : list nat :=
  0 :: offsetsFrom (length pdfHeader) (allObjects pgs).

Definition totalObjects (pgs : list jsstring) : nat := length (offsets pgs).

Definition xrefEntry (i offset : nat) : jsstring :=
  if i =? 0 then lit "0000000000 65535 f " ++ nl
  else padStart0 10 (toString offset) ++ lit " 00000 n " ++ nl.

Fixpoint xrefEntries (i : nat) (offs : list nat) : jsstring :=
  match offs with
  | [] => []
  | offset :: rest => xrefEntry i offset ++ xrefEntries (S i) rest
  end.

Definition xref (pgs : list jsstring) : jsstring :=
  lit "xref" ++ nl ++ lit "0 " ++ toString (totalObjects pgs) ++ nl
  ++ xrefEntries 0 (offsets pgs).

Definition xrefStart (pgs : list jsstring) : nat :=
  length pdfHeader + length (pdfBody pgs).

Definition trailer (pgs : list jsstring) : jsstring :=
  lit "trailer" ++ nl
  ++ lit "<< /Size " ++ toString (totalObjects pgs) ++ lit " /Root 1 0 R >>"
  ++ nl ++ lit "startxref" ++ nl ++ toString (xrefStart pgs) ++ nl
  ++ lit "%%EOF" ++ nl.

Definition fullPDF (pgs : list jsstring) : jsstring :=
  pdfHeader ++ pdfBody pgs ++ xref pgs ++ trailer pgs.

(** [generateInsightsPDF(insights, filename)]; [timestamp] stands for
    [new Date().toLocaleString()], the one input the function reads from
    its environment. *)
Definition generateInsightsPDF (timestamp insights filename : jsstring)
  : list N :=
  encode (fullPDF (pages timestamp insights filename)).

End Pdf.

(* ================================================================== *)
(** * The profiler: [TableProcessor.generateInsights] *)
(* ================================================================== *)

Module Profiler.

Import JS.

(** [interface TableData]. *)
Record TableData := {
  headers : list jsstring;
  rows : list (list jsstring);
  rowCount : nat
}.

(** ** Completions: a call either returns or throws *)

Inductive JsError := TypeError.

Inductive Completion (A : Type) :=
| Normal (a : A)
| Throw (e : JsError).

Arguments Throw {A} e.

Definition bind (A B : Type) (c : Completion A) (k : A -> Completion B)
  : Completion B :=
  match c with
  | Normal a => k a
  | Throw e => Throw e
  end.

Notation "x <- c ;; k" := (bind c (fun x => k))
  (at level 61, c at next level, right associativity).
Notation "c ;;; k" := (bind c (fun _ => k))
  (at level 61, right associativity).

(** A [for ... of] loop whose body may throw. *)
Fixpoint forOf (A S : Type) (body : S -> A -> Completion S) (l : list A)
  (st : S) : Completion S :=
  match l with
  | [] => Normal st
  | a :: rest => st' <- body st a ;; forOf body rest st'
  end.

(** ** Numbers *)

(** An array length or a count as a number; exact below 2^53. *)
Definition ofNat (n : nat) : float :=
  PrimFloat.of_uint63 (Uint63.of_Z (Z.of_nat n)).

(** The value of an array read; [undefined] is [NaN] in arithmetic. *)
Definition toNumber (v : option float) : float :=
  match v with
  | Some x => x
  | None => nan
  end.

(** [v.toLocaleString(...)]: a method call, which throws on [undefined].
    The text it returns depends on the locale and is not modelled; the
    number it renders is kept. *)
Definition toLocaleString (v : option float) : Completion float :=
  match v with
  | Some x => Normal x
  | None => Throw TypeError
  end.

(** ** Arrays *)

(** [a.indexOf(x)]; [None] stands for -1. *)
Fixpoint indexOf (x : jsstring) (a : list jsstring) : option nat :=
  match a with
  | [] => None
  | y :: rest =>
      if eqb y x then Some 0
      else match indexOf x rest with
           | Some i => Some (S i)
           | None => None
           end
  end.

(** [row[colIndex]]: [undefined] out of range. *)
Definition cellAt (row : list jsstring) (colIndex : option nat)
  : option jsstring :=
  match colIndex with
  | Some j => nth_error row j
  | None => None
  end.

(** [a.sort(cmp)], which is stable; [after y x] says that [cmp(y, x)] is
    positive, so that [x] goes before [y]. *)
Fixpoint insertSorted (A : Type) (after : A -> A -> bool) (x : A)
  (l : list A) : list A :=
  match l with
  | [] => [x]
  | y :: t => if after y x then x :: l else y :: insertSorted after x t
  end.

Definition sortWith (A : Type) (after : A -> A -> bool) (l : list A)
  : list A :=
  fold_left (fun acc x => insertSorted after x acc) l [].

(** [new Set(a).size]. *)
Definition setSize (a : list jsstring) : nat :=
  length (nodup jsstring_eq_dec a).

(** ** Cells *)

(** [!cell || !cell.trim()]. *)
Definition isEmptyCell (cell : jsstring) : bool :=
  match cell with
  | [] => true
  | _ => match trim cell with
         | [] => true
         | _ => false
         end
  end.

(** [val && val.trim()] as a filter condition: [undefined] and the empty
    string are falsy and [trim] is not called on them. *)
Definition isPopulated (val : option jsstring) : bool :=
  match val with
  | None => false
  | Some [] => false
  | Some s => match trim s with
              | [] => false
              | _ => true
              end
  end.

(** [a.filter(val => val && val.trim())]; what is kept is a string. *)
Fixpoint filterPopulated (a : list (option jsstring)) : list jsstring :=
  match a with
  | [] => []
  | val :: rest =>
      if isPopulated val
      then match val with
           | Some s => s :: filterPopulated rest
           | None => filterPopulated rest
           end
      else filterPopulated rest
  end.

(** ** Dataset-level counts *)

Definition totalCells (data : TableData) : float :=
  (ofNat (rowCount data) * ofNat (length (headers data)))%float.

Definition emptyCount (data : TableData) : nat :=
  fold_left (fun count row => count + length (filter isEmptyCell row))
    (rows data) 0.

Definition completeness (data : TableData) : float :=
  (((totalCells data - ofNat (emptyCount data)) / totalCells data)
   * 100)%float.

(** [data.rowCount - new Set(rows.map(row => row.join("|"))).size]. *)
Definition rowStrings (data : TableData) : list jsstring :=
  map (join (lit "|")) (rows data).

Definition duplicates (data : TableData) : Z :=
  Z.of_nat (rowCount data) - Z.of_nat (setSize (rowStrings data)).

(** ** Per-column values *)

Definition columnValues (data : TableData) (header : jsstring)
  : list jsstring :=
  let colIndex := indexOf header (headers data) in
  filterPopulated (map (fun row => cellAt row colIndex) (rows data)).

Definition missingCount (data : TableData) (header : jsstring) : Z :=
  Z.of_nat (rowCount data) - Z.of_nat (length (columnValues data header)).

Inductive Skew := Symmetric | RightSkewed | LeftSkewed.

(** The locals of the numeric branch. *)
Record NumericSummary := {
  n : nat;
  sum : float;
  mean : float;
  sorted : list float;
  min : option float;
  max : option float;
  range : float;
  median : option float;
  variance : float;
  stdDev : float;
  q1Index : nat;
  q3Index : nat;
  q1 : option float;
  q3 : option float;
  iqr : float;
  lowerBound : float;
  upperBound : float;
  outliers : list float;
  skewness : float;
  skew : Skew
}.

(** The locals of the categorical branch. *)
Record CategoricalSummary := {
  cardinality : nat;
  observations : nat;
  topValues : list (jsstring * nat)
}.

(** What the loop over the headers writes for one variable. *)
Inductive VariableSection :=
| EmptyVariable (header : jsstring)
| NumericVariable (header : jsstring) (s : NumericSummary) (missing : Z)
| CategoricalVariable (header : jsstring) (c : CategoricalSummary)
    (missing : Z).

(** The arrays the loop over the headers appends to. *)
Record LoopState := {
  variables : list VariableSection;
  numericColumns : list jsstring;
  categoricalColumns : list jsstring;
  skewedColumns : list jsstring;
  outlierColumns : list jsstring
}.

Definition initialState : LoopState :=
  {| variables := []; numericColumns := []; categoricalColumns := [];
     skewedColumns := []; outlierColumns := [] |}.

(** The values [generateInsights] computes and writes into its report.
    The English sentences around them, the recommendation lists chosen
    from them and the rendering of numbers ([toFixed], [toLocaleString])
    are not modelled. *)
Record Insights := {
  reportCompleteness : float;
  reportVariables : list VariableSection;
  reportNumericColumns : list jsstring;
  reportCategoricalColumns : list jsstring;
  reportSkewedColumns : list jsstring;
  reportOutlierColumns : list jsstring;
  reportDuplicates : Z
}.

Section Builtins.

(** The two built-ins whose result is not fixed here: [parseFloat], and
    [Math.pow], which the language leaves implementation-approximated. *)
Variable parseFloat : jsstring -> float.
Variable Math_pow : float -> float -> float.

(** [(a, b) => a - b] is positive. *)
Definition numberAfter (a b : float) : bool := (0 <? a - b)%float.

Definition numericSummary (numericValues : list float) : NumericSummary :=
  let n := length numericValues in
  let sum := fold_left PrimFloat.add numericValues 0%float in
  let mean := (sum / ofNat n)%float in
  let sorted := sortWith numberAfter numericValues in
  let min := nth_error sorted 0 in
  (* at length 0 the source reads index -1 and this reads index 0; both
     are outside the empty array *)
  let max := nth_error sorted (length sorted - 1) in
  let range := (toNumber max - toNumber min)%float in
  let median :=
    if length sorted mod 2 =? 0
    then Some ((toNumber (nth_error sorted (length sorted / 2 - 1))
                + toNumber (nth_error sorted (length sorted / 2))) / 2)%float
    else nth_error sorted (length sorted / 2) in
  let squaredDiffs := map (fun v => Math_pow (v - mean)%float 2%float)
                        numericValues in
  let variance := (fold_left PrimFloat.add squaredDiffs 0 / ofNat n)%float in
  let stdDev := PrimFloat.sqrt variance in
  (* Math.floor(n * 0.25) and Math.floor(n * 0.75): both products are
     exact for an array length *)
  let q1Index := n / 4 in
  let q3Index := 3 * n / 4 in
  let q1 := nth_error sorted q1Index in
  let q3 := nth_error sorted q3Index in
  let iqr := (toNumber q3 - toNumber q1)%float in
  let lowerBound := (toNumber q1 - 1.5 * iqr)%float in
  let upperBound := (toNumber q3 + 1.5 * iqr)%float in
  let outliers :=
    filter (fun v => (v <? lowerBound)%float || (upperBound <? v)%float)
      numericValues in
  (* 0x1.a36e2eb1c432dp-14 is the number 0.0001 and 0x1.999999999999ap-4
     the number 0.1 *)
  let skewness :=
    ((mean - toNumber median) / (stdDev + 0x1.a36e2eb1c432dp-14))%float in
  let skew :=
    if (PrimFloat.abs (mean - toNumber median)
        <? stdDev * 0x1.999999999999ap-4)%float
    then Symmetric
    else if (toNumber median <? mean)%float then RightSkewed
    else LeftSkewed in
  {| n := n; sum := sum; mean := mean; sorted := sorted; min := min;
     max := max; range := range; median := median; variance := variance;
     stdDev := stdDev; q1Index := q1Index; q3Index := q3Index; q1 := q1;
     q3 := q3; iqr := iqr; lowerBound := lowerBound;
     upperBound := upperBound; outliers := outliers; skewness := skewness;
     skew := skew |}.

(** [frequency.set(val, (frequency.get(val) || 0) + 1)] on a [Map], which
    keeps its keys in insertion order. *)
Fixpoint countValue (val : jsstring) (frequency : list (jsstring * nat))
  : list (jsstring * nat) :=
  match frequency with
  | [] => [(val, 1)]
  | (k, c) :: rest =>
      if eqb k val then (k, S c) :: rest
      else (k, c) :: countValue val rest
  end.

Definition categoricalSummary (values : list jsstring)
  : CategoricalSummary :=
  let frequency := fold_left (fun f val => countValue val f) values [] in
  (* (a, b) => b[1] - a[1] *)
  let topValues :=
    slice 0 5 (sortWith (fun a b => snd a <? snd b) frequency) in
  {| cardinality := setSize values; observations := length values;
     topValues := topValues |}.

(** The sentences of a numeric variable render [min], [max], [median] and,
    when there are outliers, [q1] and [q3] with [toLocaleString]. *)
Definition renderNumeric (s : NumericSummary) : Completion unit :=
  toLocaleString (min s) ;;;
  toLocaleString (max s) ;;;
  toLocaleString (median s) ;;;
  (if 0 <? length (outliers s)
   then toLocaleString (q1 s) ;;; toLocaleString (q3 s) ;;; Normal tt
   else Normal tt).

(** The body of [for (const header of data.headers)]. *)
Definition analyseColumn (data : TableData) (st : LoopState)
  (header : jsstring) : Completion LoopState :=
  let values := columnValues data header in
  if length values =? 0 then
    Normal {| variables := variables st ++ [EmptyVariable header];
              numericColumns := numericColumns st;
              categoricalColumns := categoricalColumns st;
              skewedColumns := skewedColumns st;
              outlierColumns := outlierColumns st |}
  else
    let uniqueValues := setSize values in
    let numericValues :=
      filter (fun v => negb (is_nan v)) (map parseFloat values) in
    (* numericValues.length > values.length * 0.5 *)
    let isNumeric := length values <? 2 * length numericValues in
    let missing := missingCount data header in
    if isNumeric then
      let s := numericSummary numericValues in
      renderNumeric s ;;;
      Normal {| variables :=
                  variables st ++ [NumericVariable header s missing];
                numericColumns := numericColumns st ++ [header];
                categoricalColumns := categoricalColumns st;
                skewedColumns :=
                  match skew s with
                  | Symmetric => skewedColumns st
                  | RightSkewed =>
                      skewedColumns st ++ [header ++ lit " (right-skewed)"]
                  | LeftSkewed =>
                      skewedColumns st ++ [header ++ lit " (left-skewed)"]
                  end;
                outlierColumns :=
                  if 0 <? length (outliers s)
                  then outlierColumns st ++ [header]
                  else outlierColumns st |}
    else
      Normal {| variables :=
                  variables st
                  ++ [CategoricalVariable header (categoricalSummary values)
                        missing];
                numericColumns := numericColumns st;
                categoricalColumns :=
                  (* uniqueValues.size < values.length * 0.5
                     && uniqueValues.size > 1 *)
                  if (2 * uniqueValues <? length values)
                     && (1 <? uniqueValues)
                  then categoricalColumns st ++ [header]
                  else categoricalColumns st;
                skewedColumns := skewedColumns st;
                outlierColumns := outlierColumns st |}.

Definition generateInsights (data : TableData) : Completion Insights :=
  st <- forOf (analyseColumn data) (headers data) initialState ;;
  Normal {| reportCompleteness := completeness data;
            reportVariables := variables st;
            reportNumericColumns := numericColumns st;
            reportCategoricalColumns := categoricalColumns st;
            reportSkewedColumns := skewedColumns st;
            reportOutlierColumns := outlierColumns st;
            reportDuplicates := duplicates data |}.

End Builtins.

(** ** An instance of [parseFloat] for the examples

    It skips leading white space and reads an optional sign, decimal
    digits and an optional fraction, which is all of [parseFloat] that the
    examples below exercise; text that does not start so is [NaN]. *)

Definition digitValue (c : N) : option Z :=
  if ((48 <=? c) && (c <=? 57))%N then Some (Z.of_N c - 48)%Z else None.

Fixpoint readDigits (s : jsstring) (acc : Z) (count : nat)
  : Z * nat * jsstring :=
  match s with
  | [] => (acc, count, [])
  | c :: t =>
      match digitValue c with
      | Some d => readDigits t (10 * acc + d)%Z (S count)
      | None => (acc, count, s)
      end
  end.

Definition ofZ (z : Z) : float := PrimFloat.of_uint63 (Uint63.of_Z z).

Definition parseDecimal (s : jsstring) : float :=
  let s := trimStart s in
  let (negative, s) :=
    match s with
    | 45%N :: t => (true, t)
    | 43%N :: t => (false, t)
    | _ => (false, s)
    end in
  let '(int, intDigits, rest) := readDigits s 0%Z 0 in
  let '(num, fracDigits) :=
    match rest with
    | 46%N :: t => let '(num, k, _) := readDigits t int 0 in (num, k)
    | _ => (int, 0)
    end in
  if (intDigits + fracDigits =? 0) then nan
  else
    let magnitude := (ofZ num / ofZ (10 ^ Z.of_nat fracDigits))%float in
    if negative then (- magnitude)%float else magnitude.

End Profiler.

(* ================================================================== *)
(** * Notions the properties are stated with, and example inputs *)
(* ================================================================== *)

Module PdfSpec.

Import JS Pdf.

(** [ceil(a / b)] on naturals. *)
Definition ceilDiv (a b : nat) : nat := (a + (b - 1)) / b.

(** The text of a string literal of a content stream keeps the structure
    of the stream when each of [(], [)] and [\] in it follows an escaping
    backslash of its own. *)
Fixpoint wellEscaped (s : jsstring) : bool :=
  match s with
  | [] => true
  | c :: t =>
      if (c =? 92)%N then
        match t with
        | d :: t' => isSpecial d && wellEscaped t'
        | [] => false
        end
      else if isSpecial c then false
      else wellEscaped t
  end.

(** The words of a line: its maximal runs without a space. *)
Definition words (s : jsstring) : list jsstring :=
  filter (fun w => negb (length w =? 0)) (split 32 s).

(** The line can be wrapped at white space within the width: none of its
    words is longer than a wrapped line may be. *)
Definition fitsWidth (s : jsstring) : bool :=
  forallb (fun w => length w <=? maxCharsPerLine) (words s).

(** No word of [line] is cut: every word of every wrapped line is a word
    of [line]. *)
Definition keepsWords (line : jsstring) (wrapped : list jsstring) : bool :=
  forallb (fun l => forallb (fun w => existsb (eqb w) (words line)) (words l))
    wrapped.

(** What the specification asks of the wrapping of one line: when the line
    can be wrapped at white space within the width, no word of it is cut. *)
Definition wrapsAtWhiteSpace (line : jsstring) : Prop :=
  fitsWidth (escapeSpecials line) = true ->
  keepsWords (escapeSpecials line) (wrapLine line) = true.

(** What the specification asks of the text of the body: every wrapped
    line is well escaped. *)
Definition bodyWellEscaped (insights : jsstring) : Prop :=
  forallb wellEscaped (wrappedLines insights) = true.

(** How an object opens: its number, the generation 0 and [obj]. *)
Definition objDecl (k : nat) : jsstring :=
  toString k ++ lit " 0 obj" ++ nl.

(** In [stream], each of the offsets [offs], which belong to the objects
    [k], [k + 1], ..., is a position at which that object opens.  The
    stream may be the code units of the document or its bytes; the
    declaration is ASCII, so its bytes are its code units. *)
Fixpoint pointAtObjects (stream : list N) (k : nat) (offs : list nat)
  : bool :=
  match offs with
  | [] => true
  | off :: rest =>
      startsWith (objDecl k) (skipn off stream)
      && pointAtObjects stream (S k) rest
  end.

(** The invariant of the cross-reference table, read on [stream]: the
    entry of every object but the null object 0 points at the declaration
    of that object, and [startxref] points at the table. *)
Definition xrefConsistent (stream : list N) (pgs : list jsstring) : bool :=
  pointAtObjects stream 1 (tl (offsets pgs))
  && startsWith (lit "xref" ++ nl) (skipn (xrefStart pgs) stream).



(** The text is ASCII: every code unit is below 128. *)
Definition ascii (s : jsstring) : Prop :=
  forallb (fun c => (c <? 128)%N) s = true.

(** A timestamp, a two-line body and a file name, all ASCII. *)
Definition sampleTimestamp : jsstring := lit "11/3/2026, 4:08:00 AM".

Definition sampleBody : jsstring := lit "Hello" ++ nl ++ lit "World".
Definition sampleFile : jsstring := lit "data.csv".

(** A body of [k] lines, each the one letter [a]. *)
Definition bodyOfLines (k : nat) : jsstring :=
  join nl (repeat (lit "a") k).

(** Eighty letters, a space and a word of ten letters. *)
Definition lineWithShortWords : jsstring :=
  repeat 97%N 80 ++ lit " " ++ repeat 98%N 10.

(** Eighty-four letters and an opening parenthesis. *)
Definition lineEndingInParen : jsstring :=
  repeat 97%N 84 ++ lit "(".

End PdfSpec.

Module ProfilerSpec.

Import JS Profiler.

(** The content of the cell trims to the empty string. *)
Definition trimsToEmpty (cell : jsstring) : bool :=
  match trim cell with
  | [] => true
  | _ => false
  end.

(** The invariant of a dataset: the row count is the number of rows, every
    row has a cell for every column, and the column names are distinct. *)
Definition wellFormed (data : TableData) : Prop :=
  rowCount data = length (rows data)
  /\ Forall (fun row => length row = length (headers data)) (rows data)
  /\ NoDup (headers data).

(** The cells of column [j], in row order. *)
Definition column (j : nat) (data : TableData) : list jsstring :=
  map (fun row => nth j row []) (rows data).

(** All cells of the dataset. *)
Definition cells (data : TableData) : list jsstring := concat (rows data).

Definition sumZ (l : list Z) : Z := fold_right Z.add 0%Z l.

(** The profiling call fails. *)
Definition fails (parseFloat : jsstring -> float)
  (Math_pow : float -> float -> float) (data : TableData) : Prop :=
  exists e, generateInsights parseFloat Math_pow data = Throw e.

(** Neither of two neighbours in a sorted array is placed after the
    other by the comparator [(a, b) => a - b]. *)
Definition notAfter (a b : float) : Prop := numberAfter a b = false.

(** An array of numbers in ascending order: no entry is above a later
    one. *)
Definition ascending (l : list float) : Prop :=
  StronglySorted (fun a b => (a <=? b)%float = true) l.

(** The number is above zero, read on its specification. *)
Definition positiveSF (r : spec_float) : bool :=
  SFltb (S754_zero false) r.

(** [Math.pow(x, 2)] computed as a product, for the examples. *)
Definition square (x _ : float) : float := (x * x)%float.

(** Rows that are equal cell by cell. *)
Definition sameCells (row1 row2 : list jsstring) : Prop := row1 = row2.

(** A dataset without columns, of one row without cells. *)
Definition zeroColumns : TableData :=
  {| headers := []; rows := [[]]; rowCount := 1 |}.

(** A dataset of a header row only, as a sheet without data rows gives. *)
Definition headerOnly : TableData :=
  {| headers := [lit "age"; lit "city"]; rows := []; rowCount := 0 |}.

(** The dataset of the example of the specification. *)
Definition ageCity : TableData :=
  {| headers := [lit "age"; lit "city"];
     rows := [[lit "34"; lit "NYC"]; [lit "29"; lit "LA"];
              [lit "34"; lit "NYC"]];
     rowCount := 3 |}.

(** Two rows that differ in both cells and join to the same text
    [a||b]. *)
Definition barRows : TableData :=
  {| headers := [lit "x"; lit "y"];
     rows := [[lit "a|"; lit "b"]; [lit "a"; lit "|b"]];
     rowCount := 2 |}.

(** The dataset [processExcel] returns for a sheet whose two columns are
    both titled [score], with the one row 7 and blank. *)
Definition repeatedHeader : TableData :=
  {| headers := [lit "score"; lit "score"];
     rows := [[lit "7"; lit ""]];
     rowCount := 1 |}.

(** A dataset with blank, white-space and populated cells. *)
Definition sparse : TableData :=
  {| headers := [lit "id"; lit "score"];
     rows := [[lit "1"; lit " "]; [lit "2"; lit "7.5"]; [lit ""; lit "9"]];
     rowCount := 3 |}.

End ProfilerSpec.

(* ================================================================== *)
(** * Text helpers: [chunkText] and [PDFProcessor.extractTables] *)
(* ================================================================== *)

Module Text.

Import JS.

(** [hay.includes(needle)]. *)
Fixpoint includes (needle hay : jsstring) : bool :=
  startsWith needle hay
  || match hay with
     | [] => false
     | _ :: t => includes needle t
     end.

(** [text.split(/\n\n+/)]: the text is cut at every maximal run of two or
    more line feeds.  [inSeparator] says that the scan is inside such a
    run, whose first line feed has been read. *)
Fixpoint splitBlankLines (inSeparator : bool) (s : jsstring)
  : list jsstring :=
  match s with
  | [] => [[]]
  | c :: t =>
      if inSeparator && (c =? 10)%N then splitBlankLines true t
      else if (c =? 10)%N
              && match t with
                 | d :: _ => (d =? 10)%N
                 | [] => false
                 end
      then [] :: splitBlankLines true t
      else match splitBlankLines false t with
           | h :: r => (c :: h) :: r
           | [] => [[c]]
           end
  end.

Definition paragraphsOf (text : jsstring) : list jsstring :=
  splitBlankLines false text.

(** [currentChunk += (currentChunk ? "\n\n" : "") + paragraph]. *)
Definition appendParagraph (currentChunk paragraph : jsstring) : jsstring :=
  currentChunk ++ (if 0 <? length currentChunk then nl ++ nl else [])
  ++ paragraph.

(** The body of [for (const paragraph of paragraphs)]; the state is
    [chunks] and [currentChunk]. *)
Definition chunkStep (maxChunkSize : nat)
  (st : list jsstring * jsstring) (paragraph : jsstring)
  : list jsstring * jsstring :=
  let (chunks, currentChunk) := st in
  if (maxChunkSize <? length (currentChunk ++ paragraph))
     && (0 <? length currentChunk)
  then (chunks ++ [trim currentChunk], paragraph)
  else (chunks, appendParagraph currentChunk paragraph).

(** [chunkText(text, maxChunkSize)], of which webServer.ts, pdfTool.ts and
    the command-line program each hold a copy. *)
Definition chunkText (text : jsstring) (maxChunkSize : nat)
  : list jsstring :=
  let (chunks, currentChunk) :=
    fold_left (chunkStep maxChunkSize) (paragraphsOf text) ([], []) in
  match trim currentChunk with
  | [] => chunks
  | _ => chunks ++ [trim currentChunk]
  end.

(** [line.split(/\s{2,}|\t/)]: a line is cut at every maximal run of two
    or more white-space characters and at every other tab. *)
Fixpoint splitCells (inSeparator : bool) (s : jsstring) : list jsstring :=
  match s with
  | [] => [[]]
  | c :: t =>
      if inSeparator && isWhiteSpace c then splitCells true t
      else if isWhiteSpace c
              && match t with
                 | d :: _ => isWhiteSpace d
                 | [] => false
                 end
      then [] :: splitCells true t
      else if (c =? 9)%N then [] :: splitCells false t
      else match splitCells false t with
           | h :: r => (c :: h) :: r
           | [] => [[c]]
           end
  end.

(** [cell => cell.trim()] as a filter condition. *)
Definition isBlank (cell : jsstring) : bool :=
  match trim cell with
  | [] => true
  | _ => false
  end.

(** The body of [for (const line of lines)]; the state is [tables] and
    [currentTable]. *)
Definition tableStep (st : list (list jsstring) * list jsstring)
  (line : jsstring) : list (list jsstring) * list jsstring :=
  let (tables, currentTable) := st in
  if includes (lit "  ") line || includes [9%N] line then
    let row := filter (fun cell => negb (isBlank cell))
                 (splitCells false line) in
    if 1 <? length row
    then (tables, currentTable ++ [join (lit "|") row])
    else (tables, currentTable)
  else if 0 <? length currentTable
  then (tables ++ [currentTable], [])
  else (tables, currentTable).

(** [extractTables(text)]. *)
Definition extractTables (text : jsstring) : list (list jsstring) :=
  let (tables, currentTable) :=
    fold_left tableStep (split 10 text) ([], []) in
  if 0 <? length currentTable then tables ++ [currentTable] else tables.

End Text.

(* ================================================================== *)
(** * [TableProcessor]: the queries on a loaded table *)
(* ================================================================== *)

Module Table.

Import JS Text Profiler.

(** [a.findIndex(p)]; [None] stands for -1. *)
Fixpoint findIndex (A : Type) (p : A -> bool) (a : list A) : option nat :=
  match a with
  | [] => None
  | x :: rest =>
      if p x then Some 0
      else match findIndex p rest with
           | Some i => Some (S i)
           | None => None
           end
  end.

(** [row[colIndex] || ""]. *)
Definition cellOrEmpty (row : list jsstring) (colIndex : nat) : jsstring :=
  match nth_error row colIndex with
  | Some cell => cell
  | None => []
  end.

(** [x < y] on strings: the order of the code units, which is what
    [Array.prototype.sort] without a comparator uses. *)
Fixpoint ltString (x y : jsstring) : bool :=
  match x, y with
  | _, [] => false
  | [], _ :: _ => true
  | a :: x', b :: y' => (a <? b)%N || ((a =? b)%N && ltString x' y')
  end.

(** [uniqueSet.add(value)]; a [Set] keeps the order of insertion. *)
Definition setAdd (value : jsstring) (uniqueSet : list jsstring)
  : list jsstring :=
  if existsb (eqb value) uniqueSet then uniqueSet else uniqueSet ++ [value].

(** Values of a sheet as [sheet_to_json] gives them: [null], [undefined],
    or a value given by the text [String] makes of it. *)
Inductive JsValue :=
  | JsNull
  | JsUndefined
  | JsOther (text : jsstring).

(** [String(v)]. *)
Definition stringOf (v : JsValue) : jsstring :=
  match v with
  | JsNull => lit "null"
  | JsUndefined => lit "undefined"
  | JsOther text => text
  end.

(** [cell !== null && cell !== undefined && String(cell).trim() !== ""]. *)
Definition hasContent (cell : JsValue) : bool :=
  match cell with
  | JsNull | JsUndefined => false
  | JsOther text => negb (eqb (trim text) [])
  end.

(** [cell !== null && cell !== undefined ? String(cell).trim() : ""] for
    [cell = row[idx]], which is [undefined] out of range. *)
Definition cellText (row : list JsValue) (idx : nat) : jsstring :=
  match nth_error row idx with
  | Some (JsOther text) => trim text
  | _ => []
  end.

(** [processExcel] from the parsed sheet [jsonData] on; [None] stands for
    the thrown error. *)
Definition processSheet (jsonData : list (list JsValue))
  : option TableData :=
  match jsonData with
  | [] => None
  | first :: rest =>
      let headers := map (fun h => trim (stringOf h)) first in
      let rows :=
        map (fun row => map (cellText row) (seq 0 (length headers)))
          (filter (existsb hasContent) rest) in
      Some {| headers := headers; rows := rows; rowCount := length rows |}
  end.

Section Builtins.

(** [String.prototype.toLowerCase] and [parseFloat] are taken as they
    are. *)
Variable toLowerCase : jsstring -> jsstring.
Variable parseFloat : jsstring -> float.

Definition findColumnIndex (headers : list jsstring)
  (columnName : jsstring) : option nat :=
  let lowerColumnName := trim (toLowerCase columnName) in
  (* Exact match (case-insensitive) *)
  match findIndex (fun h => eqb (trim (toLowerCase h)) lowerColumnName)
          headers with
  | Some index => Some index
  | None =>
      (* Partial match *)
      match findIndex
              (fun h => includes lowerColumnName (trim (toLowerCase h)))
              headers with
      | Some index => Some index
      | None =>
          (* Reverse partial match *)
          findIndex
            (fun h => includes (trim (toLowerCase h)) lowerColumnName)
            headers
      end
  end.

Definition filterRows (data : TableData) (columnName value : jsstring)
  : list (list jsstring) :=
  match findColumnIndex (headers data) columnName with
  | None => []
  | Some colIndex =>
      let lowerValue := trim (toLowerCase value) in
      filter
        (fun row =>
           let cellValue := trim (toLowerCase (cellOrEmpty row colIndex)) in
           includes lowerValue cellValue || includes cellValue lowerValue)
        (rows data)
  end.

(** The body of the filter of [filterRowsAdvanced]. *)
Definition rowMatches (value operator : jsstring) (colIndex : nat)
  (row : list jsstring) : bool :=
  let cellValue := trim (cellOrEmpty row colIndex) in
  let numericCellValue := parseFloat cellValue in
  let numericValue := parseFloat value in
  let op := toLowerCase operator in
  let bothNumbers :=
    negb (is_nan numericCellValue) && negb (is_nan numericValue) in
  if eqb op (lit "equals") || eqb op (lit "=") || eqb op (lit "==")
  then eqb (toLowerCase cellValue) (trim (toLowerCase value))
  else if eqb op (lit "contains")
  then includes (trim (toLowerCase value)) (toLowerCase cellValue)
  else if eqb op (lit "greater") || eqb op (lit ">")
  then bothNumbers && (numericValue <? numericCellValue)%float
  else if eqb op (lit "less") || eqb op (lit "<")
  then bothNumbers && (numericCellValue <? numericValue)%float
  else if eqb op (lit ">=")
  then bothNumbers && (numericValue <=? numericCellValue)%float
  else if eqb op (lit "<=")
  then bothNumbers && (numericCellValue <=? numericValue)%float
  else if eqb op (lit "not") || eqb op (lit "!=")
  then negb (eqb (toLowerCase cellValue) (trim (toLowerCase value)))
  else includes (trim (toLowerCase value)) (toLowerCase cellValue).

Definition filterRowsAdvanced (data : TableData)
  (columnName value operator : jsstring) : list (list jsstring) :=
  match findColumnIndex (headers data) columnName with
  | None => []
  | Some colIndex => filter (rowMatches value operator colIndex) (rows data)
  end.

(** The body of [data.rows.forEach] in [getUniqueValues]. *)
Definition addRowValue (colIndex : nat) (uniqueSet : list jsstring)
  (row : list jsstring) : list jsstring :=
  match trim (cellOrEmpty row colIndex) with
  | [] => uniqueSet
  | value => setAdd value uniqueSet
  end.

Definition getUniqueValues (data : TableData) (columnName : jsstring)
  : list jsstring :=
  match findColumnIndex (headers data) columnName with
  | None => []
  | Some colIndex =>
      let uniqueSet := fold_left (addRowValue colIndex) (rows data) [] in
      sortWith (fun y x => ltString x y) uniqueSet
  end.

Definition searchInTable (data : TableData) (searchTerm : jsstring)
  : list (list jsstring) :=
  let lowerSearchTerm := trim (toLowerCase searchTerm) in
  filter
    (existsb (fun cell => includes lowerSearchTerm (toLowerCase cell)))
    (rows data).

End Builtins.

End Table.

(* ================================================================== *)
(** * What the text helpers and the queries are checked against *)
(* ================================================================== *)

Module TableSpec.

Import JS Text Profiler Table.

(** A row of an extracted table: two or more cells, none of them blank,
    joined with bars. *)
Definition tableRow (r : jsstring) : Prop :=
  exists cells,
    r = join (lit "|") cells
    /\ 2 <= length cells
    /\ Forall (fun cell => trim cell <> []) cells.

(** What is to be seen of a text: its code units that are not white
    space. *)
Definition visible (s : jsstring) : jsstring :=
  filter (fun c => negb (isWhiteSpace c)) s.

(** The header [h] is related to the column name the way
    [findColumnIndex] asks for: equal, containing it, or contained in it,
    after lowering and trimming. *)
Definition headerMatches (toLowerCase : jsstring -> jsstring)
  (columnName h : jsstring) : bool :=
  eqb (trim (toLowerCase h)) (trim (toLowerCase columnName))
  || includes (trim (toLowerCase columnName)) (trim (toLowerCase h))
  || includes (trim (toLowerCase h)) (trim (toLowerCase columnName)).

(** Lowering of the letters A to Z, with which [toLowerCase] agrees on
    ASCII text. *)
Definition asciiLower (s : jsstring) : jsstring :=
  map (fun c => if (65 <=? c)%N && (c <=? 90)%N then (c + 32)%N else c) s.

Definition people : TableData :=
  {| headers := [lit "Name"; lit "Age"; lit "City"];
     rows := [[lit "Bob"; lit "31"; lit "Oslo"];
              [lit "Ann"; lit "n/a"; lit " Rome "];
              [lit "Cy"; lit "28"];
              [lit "Dee"; lit "40"; lit "Oslo"]];
     rowCount := 4 |}.

End TableSpec.

(* ================================================================== *)
(** * [generatePDFFromText]: the report of the command-line program *)
(* ================================================================== *)

Module Report.

Import JS Text.

Definition linesPerPage : nat := 55.

(** [text.replace(/[()\\]/g, '')]. *)
Definition removeSpecials (text : jsstring) : jsstring :=
  filter (fun c => negb (Pdf.isSpecial c)) text.

(** [String(z)] of an integer. *)
Definition toStringZ (z : Z) : jsstring :=
  if (z <? 0)%Z then lit "-" ++ toString (Z.to_nat (- z))
  else toString (Z.to_nat z).

(** [hay.indexOf(needle)]; [None] stands for -1. *)
Fixpoint indexOfString (needle hay : jsstring) : option nat :=
  if startsWith needle hay then Some 0
  else match hay with
       | [] => None
       | _ :: t => match indexOfString needle t with
                   | Some position => Some (S position)
                   | None => None
                   end
       end.

(** [Math.ceil(lines.length / linesPerPage)]. *)
Definition totalPages (lines : list jsstring) : nat :=
  (length lines + (linesPerPage - 1)) / linesPerPage.

(** The first loop over the pages, entered with [currentObj]: it fills
    [pageObjects] and [contentObjects] and leaves [currentObj]. *)
Fixpoint numberObjects (pages currentObj : nat)
  : list nat * list nat * nat :=
  match pages with
  | 0 => ([], [], currentObj)
  | S pages' =>
      let '(pageObjects, contentObjects, last) :=
        numberObjects pages' (currentObj + 2) in
      (currentObj :: pageObjects, (currentObj + 1) :: contentObjects, last)
  end.

(** The two lines pushed for a wrapped line of text. *)
Definition showLine (currentLine : jsstring) : list jsstring :=
  [lit "(" ++ removeSpecials currentLine ++ lit ") Tj"; lit "0 -11 Td"].

(** The body of [for (const word of words)]; the state is [contentLines]
    and [currentLine]. *)
Definition wrapStep (st : list jsstring * jsstring) (word : jsstring)
  : list jsstring * jsstring :=
  let (contentLines, currentLine) := st in
  let testLine :=
    currentLine ++ (if 0 <? length currentLine then lit " " else [])
    ++ word in
  if length testLine <=? 80 then (contentLines, testLine)
  else (if 0 <? length currentLine
        then contentLines ++ showLine currentLine
        else contentLines,
        word).

(** The last branch of the loop over the lines: the line is wrapped at
    spaces. *)
Definition wrapWords (contentLines : list jsstring) (line : jsstring)
  : list jsstring :=
  let (contentLines, currentLine) :=
    fold_left wrapStep (split 32 line) (contentLines, []) in
  if 0 <? length currentLine
  then contentLines ++ showLine currentLine
  else contentLines.

(** [startLine] and [endLine] of a page. *)
Definition startLine (pageNum : nat) : nat :=
  if pageNum =? 0 then 0 else pageNum * linesPerPage.

Definition endLine (lines : list jsstring) (pageNum : nat) : nat :=
  Nat.min
    (startLine pageNum
     + (if pageNum =? 0 then linesPerPage - 5 else linesPerPage))
    (length lines).

(** The values of [i] in [for (let i = startLine; i < endLine; i++)]. *)
Definition pageLineIndices (lines : list jsstring) (pageNum : nat)
  : list nat :=
  seq (startLine pageNum) (endLine lines pageNum - startLine pageNum).

Section Builtins.

(** [String.prototype.toUpperCase] is taken as it is, and so is the text
    [new Date().toLocaleString()] gives. *)
Variable toUpperCase : jsstring -> jsstring.
Variable timestamp : jsstring.

(** The body of the loop over the lines of a page. *)
Definition renderLine (contentLines : list jsstring) (line : jsstring)
  : list jsstring :=
  if length (trim line) =? 0 then contentLines ++ [lit "0 -8 Td"]
  else if eqb line (toUpperCase line)
          && (0 <? length (trim line))
          && (length (trim line) <? 60)
          && negb (includes (lit ":") line)
  then
    let cleanLine := removeSpecials (substring 0 75 (trim line)) in
    contentLines
    ++ [lit "/F2 11 Tf"; lit "(" ++ cleanLine ++ lit ") Tj";
        lit "0 -14 Td"; lit "/F1 10 Tf"]
  else wrapWords contentLines line.

(** [streamContent] of page [pageNum]; [lines[i]] is in range because
    [endLine] is at most [lines.length]. *)
Definition streamContent (lines : list jsstring) (filename : jsstring)
  (pageNum : nat) : jsstring :=
  let contentLines := [lit "BT"; lit "/F1 10 Tf"; lit "50 750 Td"] in
  let contentLines :=
    if pageNum =? 0
    then contentLines
         ++ [lit "/F2 14 Tf"; lit "(DATA SCIENCE ANALYSIS REPORT) Tj";
             lit "0 -18 Td"; lit "/F1 9 Tf";
             lit "(Dataset: "
             ++ substring 0 60 (removeSpecials filename) ++ lit ") Tj";
             lit "0 -12 Td";
             lit "(Generated: " ++ timestamp ++ lit ") Tj";
             lit "0 -20 Td"]
    else contentLines in
  let contentLines :=
    fold_left (fun contentLines i => renderLine contentLines (nth i lines []))
      (pageLineIndices lines pageNum) contentLines in
  let contentLines :=
    contentLines
    ++ [lit "0 -15 Td"; lit "/F1 8 Tf";
        lit "(Page " ++ toString (pageNum + 1) ++ lit " of "
        ++ toString (totalPages lines) ++ lit ") Tj";
        lit "ET"] in
  join nl contentLines.

(** The lines pushed for one page in the second loop. *)
Definition pageLines (lines : list jsstring) (filename : jsstring)
  (pageObjects contentObjects : list nat) (resourcesObj pageNum : nat)
  : list jsstring :=
  let pageObj := nth pageNum pageObjects 0 in
  let contentObj := nth pageNum contentObjects 0 in
  let stream := streamContent lines filename pageNum in
  [toString pageObj ++ lit " 0 obj";
   lit "<< /Type /Page /Parent 2 0 R /Resources " ++ toString resourcesObj
   ++ lit " 0 R /MediaBox [0 0 612 792] /Contents " ++ toString contentObj
   ++ lit " 0 R >>";
   lit "endobj";
   toString contentObj ++ lit " 0 obj";
   lit "<< /Length " ++ toString (length stream) ++ lit " >>";
   lit "stream";
   stream;
   lit "endstream";
   lit "endobj"].

(** [currentObj] when the objects are numbered. *)
Definition objectCount (lines : list jsstring) : nat :=
  let '(_, _, currentObj) := numberObjects (totalPages lines) 3 in
  currentObj + 1.

(** [pdfLines] when [pdfContent] is taken. *)
Definition objectLines (lines : list jsstring) (filename : jsstring)
  : list jsstring :=
  let '(pageObjects, contentObjects, currentObj) :=
    numberObjects (totalPages lines) 3 in
  let resourcesObj := currentObj in
  [lit "%PDF-1.4";
   lit "1 0 obj";
   lit "<< /Type /Catalog /Pages 2 0 R >>";
   lit "endobj";
   lit "2 0 obj";
   lit "<< /Type /Pages /Kids ["
   ++ join (lit " ") (map (fun o => toString o ++ lit " 0 R") pageObjects)
   ++ lit "] /Count " ++ toString (totalPages lines) ++ lit " >>";
   lit "endobj";
   toString resourcesObj ++ lit " 0 obj";
   lit "<< /Font << /F1 << /Type /Font /Subtype /Type1 /BaseFont /Courier >> /F2 << /Type /Font /Subtype /Type1 /BaseFont /Courier-Bold >> >> >>";
   lit "endobj"]
  ++ flat_map
       (pageLines lines filename pageObjects contentObjects resourcesObj)
       (seq 0 (totalPages lines)).

Definition pdfContent (lines : list jsstring) (filename : jsstring)
  : jsstring :=
  join nl (objectLines lines filename).

(** [xrefEntries] after the loop over the object numbers. *)
Definition xrefEntries (pdfContent : jsstring) (currentObj : nat)
  : list jsstring :=
  lit "0000000000 65535 f "
  :: flat_map
       (fun i =>
          match indexOfString (toString i ++ lit " 0 obj") pdfContent with
          | Some position =>
              [padStart0 10 (toString position) ++ lit " 00000 n "]
          | None => []
          end)
       (seq 1 (currentObj - 1)).

(** [pdfLines] when ['startxref'] has been pushed. *)
Definition tableLines (lines : list jsstring) (filename : jsstring)
  : list jsstring :=
  let currentObj := objectCount lines in
  objectLines lines filename
  ++ [lit "xref"; lit "0 " ++ toString currentObj]
  ++ xrefEntries (pdfContent lines filename) currentObj
  ++ [lit "trailer";
      lit "<< /Size " ++ toString currentObj ++ lit " /Root 1 0 R >>";
      lit "startxref"].

(** [pdfLines.join('\n').length - 200], the number written after
    ['startxref']. *)
Definition startxref (lines : list jsstring) (filename : jsstring) : Z :=
  Z.of_nat (length (join nl (tableLines lines filename))) - 200.

Definition pdfString (content filename : jsstring) : jsstring :=
  let lines := split 10 content in
  join nl
    (tableLines lines filename
     ++ [toStringZ (startxref lines filename); lit "%%EOF"]).

Definition generatePDFFromText (content filename : jsstring) : list N :=
  encode (pdfString content filename).

End Builtins.

End Report.

Module ReportSpec.

Import JS Text Report.

(** Raising of the letters a to z, with which [toUpperCase] agrees on
    ASCII text. *)
Definition asciiUpper (s : jsstring) : jsstring :=
  map (fun c => if (97 <=? c)%N && (c <=? 122)%N then (c - 32)%N else c) s.

(** A report of three lines, of which the first is a heading. *)
Definition sampleReport : jsstring :=
  lit "SUMMARY" ++ nl ++ nl ++ lit "Mean: 3 (approx) of 5 rows".

(** The words of a wrapped line that are not empty. *)
Definition nonEmptyWords (words : list jsstring) : list jsstring :=
  filter (fun word => 0 <? length word) words.

(** A wrapped line: words of the text joined by single spaces, the first
    of them not empty, and more than 80 code units long only when it is a
    single word. *)
Definition wrappedGroup (group : list jsstring) : Prop :=
  (exists word rest, group = word :: rest /\ word <> [])
  /\ (length (join (lit " ") group) <= 80 \/ exists word, group = [word]).

(** The state of the loop over the words, after the words [done]: the
    lines pushed so far are the groups [groups], and [currentLine] is the
    group [current] joined. *)
Definition wrapping (contentLines : list jsstring) (done : list jsstring)
  (st : list jsstring * jsstring) : Prop :=
  exists groups current,
    fst st
    = contentLines
      ++ flat_map (fun group => showLine (join (lit " ") group)) groups
    /\ snd st = join (lit " ") current
    /\ Forall wrappedGroup groups
    /\ (current = [] \/ wrappedGroup current)
    /\ nonEmptyWords (concat groups ++ current) = nonEmptyWords done.

End ReportSpec.

Module InsightsSpec.

Import JS Profiler.



(** How often [val] occurs among the values of a column. *)
Definition occurrences (values : list jsstring) (val : jsstring) : nat :=
  count_occ jsstring_eq_dec values val.

(** The frequency table [frequency] counts the values [values]: no key
    twice, and an entry for exactly the values that occur, with the number
    of their occurrences. *)
Definition counts (values : list jsstring)
  (frequency : list (jsstring * nat)) : Prop :=
  NoDup (map fst frequency)
  /\ forall val count,
       In (val, count) frequency
       <-> In val values /\ count = occurrences values val.


End InsightsSpec.


(* ================================================================== *)
(** * Properties of the document synthesizer *)
(* ================================================================== *)

Module PdfFacts.

Import JS Pdf PdfSpec.

(** ** Pagination *)

Lemma split_nonempty (sep : N) (s : jsstring) : split sep s <> [].
Proof.
  destruct s as [|c t]; simpl; [discriminate|].
  destruct (c =? sep)%N; [discriminate|].
  destruct (split sep t); discriminate.
Qed.

Lemma splitLongLine_nonempty (e : jsstring) (fuel : nat) :
  0 < length e -> 0 < fuel -> splitLongLine fuel 0 e <> [].
Proof.
  intros He Hf. destruct fuel as [|fuel]; [lia|]. simpl.
  destruct (Nat.ltb_spec 0 (length e)); [discriminate|lia].
Qed.

Lemma wrapLine_nonempty (line : jsstring) : wrapLine line <> [].
Proof.
  unfold wrapLine.
  destruct (Nat.ltb_spec maxCharsPerLine (length (escapeSpecials line)))
    as [H|H]; [|discriminate].
  apply splitLongLine_nonempty; unfold maxCharsPerLine in H; lia.
Qed.

(** There is always at least one wrapped line, also for an empty body. *)
Lemma wrappedLines_nonempty (insights : jsstring) :
  0 < length (wrappedLines insights).
Proof.
  unfold wrappedLines.
  pose proof (split_nonempty 10 insights) as Hs.
  destruct (split 10 insights) as [|l ls]; [congruence|].
  simpl. rewrite length_app.
  pose proof (wrapLine_nonempty l) as Hw.
  destruct (wrapLine l); [congruence|simpl; lia].
Qed.

Lemma pagesFrom_length (ts fn : jsstring) (w : list jsstring) :
  forall fuel i, length w - i <= fuel ->
    length (pagesFrom ts fn fuel i w)
    = ceilDiv (length w - i) linesPerPageWithHeader.
Proof.
  unfold ceilDiv.
  induction fuel as [|fuel IH]; intros i Hi; cbn [pagesFrom].
  - replace (length w - i) with 0 by lia. reflexivity.
  - destruct (Nat.ltb_spec i (length w)) as [Hlt|Hge].
    + cbn [length]. change linesPerPageWithHeader with 42 in *.
      rewrite IH by lia.
      destruct (Nat.le_gt_cases 42 (length w - i)) as [Hbig|Hsmall].
      * replace (length w - i + (42 - 1))
          with (length w - (i + 42) + (42 - 1) + 1 * 42) by lia.
        rewrite Nat.div_add by discriminate. lia.
      * replace (length w - (i + 42)) with 0 by lia.
        change ((0 + (42 - 1)) / 42) with 0.
        apply Nat.div_unique with (r := length w - i - 1); lia.
    + replace (length w - i) with 0 by lia. reflexivity.
Qed.

Lemma pages_length (ts insights fn : jsstring) :
  length (pages ts insights fn)
  = ceilDiv (length (wrappedLines insights)) linesPerPageWithHeader.
Proof.
  unfold pages. rewrite pagesFrom_length by lia. now rewrite Nat.sub_0_r.
Qed.

Lemma pageObjects_length (pgs : list jsstring) :
  length (pageObjects pgs) = length pgs.
Proof. unfold pageObjects. now rewrite length_map, length_seq. Qed.

Lemma contentObjects_length (pgs : list jsstring) :
  length (contentObjects pgs) = length pgs.
Proof.
  unfold contentObjects.
  rewrite length_map, length_combine, length_seq. lia.
Qed.

(** C2. For every timestamp, body and file name, the synthesizer makes one
    page object per page, and the number of pages is the number of wrapped
    lines divided by [linesPerPageWithHeader], rounded up, which is at
    least 1.  An empty body gives 1 page; a body of one wrapped line fewer
    than [linesPerPageWithHeader] gives 1 page, and a body of one wrapped
    line more than [linesPerPageWithHeader] gives 2 pages. *)
Theorem page_count (timestamp insights filename : jsstring) :
  let pgs := pages timestamp insights filename in
  let lines := length (wrappedLines insights) in
  length (pageObjects pgs) = length pgs
  /\ length pgs = ceilDiv lines linesPerPageWithHeader
  /\ 1 <= length pgs
  /\ (insights = [] -> length pgs = 1)
  /\ (lines = linesPerPageWithHeader - 1 -> length pgs = 1)
  /\ (lines = linesPerPageWithHeader + 1 -> length pgs = 2).
Proof.
  intros pgs lines.
  assert (Hlen : length pgs = ceilDiv lines linesPerPageWithHeader)
    by apply pages_length.
  assert (Hpos : 0 < lines) by apply wrappedLines_nonempty.
  split; [apply pageObjects_length|].
  split; [exact Hlen|].
  unfold ceilDiv in Hlen. change linesPerPageWithHeader with 42 in *.
  split.
  { rewrite Hlen.
    apply Nat.div_le_lower_bound; [discriminate|lia]. }
  split.
  { intros ->. reflexivity. }
  split; intros Hl; rewrite Hlen, Hl; reflexivity.
Qed.

Lemma bodyOfLines_41 : length (wrappedLines (bodyOfLines 41)) = 41.
Proof. vm_compute. reflexivity. Qed.

Lemma bodyOfLines_43 : length (wrappedLines (bodyOfLines 43)) = 43.
Proof. vm_compute. reflexivity. Qed.

(** The three boundary cases of [page_count] at concrete bodies: the empty
    body, 41 lines and 43 lines. *)
Lemma page_count_witness :
  length (pages (lit "11/3/2026") [] (lit "data.csv")) = 1
  /\ length (pages (lit "11/3/2026") (bodyOfLines 41) (lit "data.csv")) = 1
  /\ length (pages (lit "11/3/2026") (bodyOfLines 43) (lit "data.csv")) = 2.
Proof.
  split; [|split].
  - destruct (page_count (lit "11/3/2026") [] (lit "data.csv"))
      as (_ & _ & _ & H & _ & _).
    apply H. reflexivity.
  - destruct (page_count (lit "11/3/2026") (bodyOfLines 41) (lit "data.csv"))
      as (_ & _ & _ & _ & H & _).
    apply H. vm_compute. reflexivity.
  - destruct (page_count (lit "11/3/2026") (bodyOfLines 43) (lit "data.csv"))
      as (_ & _ & _ & _ & _ & H).
    apply H. vm_compute. reflexivity.
Defined.

(** ** Cutting long lines *)

Lemma substring_ordered (i j : nat) (s : jsstring) :
  i <= j -> substring i j s = firstn (j - i) (skipn i s).
Proof.
  intros Hij. unfold substring.
  now rewrite Nat.max_r, Nat.min_l by lia.
Qed.

Lemma splitLongLine_concat (e : jsstring) :
  forall fuel i, length e - i <= fuel ->
    concat (splitLongLine fuel i e) = skipn i e.
Proof.
  induction fuel as [|fuel IH]; intros i Hi; cbn [splitLongLine].
  - symmetry. apply skipn_all2. lia.
  - destruct (Nat.ltb_spec i (length e)) as [Hlt|Hge].
    + cbn [concat]. rewrite IH by (unfold maxCharsPerLine; lia).
      rewrite substring_ordered by lia.
      replace (i + maxCharsPerLine - i) with maxCharsPerLine by lia.
      rewrite Nat.add_comm, <- skipn_skipn.
      apply firstn_skipn.
    + symmetry. apply skipn_all2. lia.
Qed.

Lemma splitLongLine_width (e : jsstring) :
  forall fuel i,
    Forall (fun l => length l <= maxCharsPerLine) (splitLongLine fuel i e).
Proof.
  induction fuel as [|fuel IH]; intros i; cbn [splitLongLine].
  - constructor.
  - destruct (i <? length e); constructor; [|apply IH].
    rewrite substring_ordered by lia.
    rewrite length_firstn. lia.
Qed.

Lemma splitLongLine_length (e : jsstring) :
  forall fuel i, length e - i <= fuel ->
    length (splitLongLine fuel i e)
    = ceilDiv (length e - i) maxCharsPerLine.
Proof.
  unfold ceilDiv.
  induction fuel as [|fuel IH]; intros i Hi; cbn [splitLongLine].
  - replace (length e - i) with 0 by lia. reflexivity.
  - destruct (Nat.ltb_spec i (length e)) as [Hlt|Hge].
    + cbn [length]. change maxCharsPerLine with 85 in *.
      rewrite IH by lia.
      destruct (Nat.le_gt_cases 85 (length e - i)) as [Hbig|Hsmall].
      * replace (length e - i + (85 - 1))
          with (length e - (i + 85) + (85 - 1) + 1 * 85) by lia.
        rewrite Nat.div_add by discriminate. lia.
      * replace (length e - (i + 85)) with 0 by lia.
        change ((0 + (85 - 1)) / 85) with 0.
        apply Nat.div_unique with (r := length e - i - 1); lia.
    + replace (length e - i) with 0 by lia. reflexivity.
Qed.

Lemma splitLongLine_nth (e : jsstring) :
  forall fuel i k, k < length (splitLongLine fuel i e) ->
    nth k (splitLongLine fuel i e) []
    = substring (i + k * maxCharsPerLine)
        (i + k * maxCharsPerLine + maxCharsPerLine) e.
Proof.
  induction fuel as [|fuel IH]; intros i k; cbn [splitLongLine].
  - cbn [length]. lia.
  - destruct (i <? length e); cbn [length]; [|lia].
    destruct k as [|k]; intros Hk.
    + cbn [nth]. now rewrite Nat.mul_0_l, Nat.add_0_r.
    + cbn [nth]. rewrite IH by lia. f_equal; lia.
Qed.

(** C4, as the code has it.  A raw line is escaped and then, when the
    escaped text is longer than [maxCharsPerLine] code units, cut after
    every [maxCharsPerLine]-th code unit, whatever stands there: the
    [k]-th wrapped line is the substring from [k * maxCharsPerLine] to
    [k * maxCharsPerLine + maxCharsPerLine].  No wrapped line is longer
    than [maxCharsPerLine], their number is the escaped length divided by
    [maxCharsPerLine], rounded up, and at least 1, and put together they
    give the escaped line back. *)
Theorem wrapLine_fixed_width (line : jsstring) :
  let e := escapeSpecials line in
  let w := wrapLine line in
  concat w = e
  /\ Forall (fun l => length l <= maxCharsPerLine) w
  /\ length w = Nat.max 1 (ceilDiv (length e) maxCharsPerLine)
  /\ (forall k, k < length w ->
        nth k w [] = substring (k * maxCharsPerLine)
                       (k * maxCharsPerLine + maxCharsPerLine) e).
Proof.
  intros e w. subst w. unfold wrapLine. fold e.
  destruct (Nat.ltb_spec maxCharsPerLine (length e)) as [Hlong|Hshort].
  - split; [|split; [|split]].
    + now rewrite splitLongLine_concat by lia.
    + apply splitLongLine_width.
    + rewrite splitLongLine_length by lia. rewrite Nat.sub_0_r.
      symmetry. apply Nat.max_r.
      unfold ceilDiv. change maxCharsPerLine with 85 in *.
      apply Nat.div_le_lower_bound; [discriminate|lia].
    + intros k Hk. now rewrite splitLongLine_nth by exact Hk.
  - split; [|split; [|split]].
    + cbn [concat]. apply app_nil_r.
    + constructor; [exact Hshort|constructor].
    + cbn [length]. symmetry. apply Nat.max_l.
      unfold ceilDiv. change maxCharsPerLine with 85 in *.
      destruct (length e) as [|m]; [apply Nat.le_0_l|].
      apply Nat.lt_succ_r, Nat.Div0.div_lt_upper_bound. lia.
    + intros k Hk. cbn [length] in Hk.
      replace k with 0 by lia. cbn [nth].
      rewrite substring_ordered by lia.
      rewrite Nat.mul_0_l. cbn [skipn].
      symmetry. apply firstn_all2. lia.
Qed.

(** [wrapLine_fixed_width] at a line of 91 code units: its second wrapped
    line starts at code unit 85, inside the word of ten letters. *)
Lemma wrapLine_fixed_width_witness :
  nth 1 (wrapLine lineWithShortWords) []
  = substring 85 170 (escapeSpecials lineWithShortWords).
Proof.
  destruct (wrapLine_fixed_width lineWithShortWords) as (_ & _ & _ & H).
  apply (H 1). vm_compute. reflexivity.
Defined.

(** C4, as the specification has it, fails: in a line of eighty letters, a
    space and a word of ten letters every word fits the width, and the word
    of ten letters is cut after its fourth letter. *)
Lemma wrapLine_cuts_word : ~ wrapsAtWhiteSpace lineWithShortWords.
Proof.
  unfold wrapsAtWhiteSpace. intros H.
  assert (Hfits : fitsWidth (escapeSpecials lineWithShortWords) = true)
    by (vm_compute; reflexivity).
  specialize (H Hfits). vm_compute in H. discriminate H.
Qed.

(** ** Escaping *)

Lemma isSpecial_backslash (c : N) : (c =? 92)%N = true -> isSpecial c = true.
Proof.
  intros H. unfold isSpecial. rewrite H. now rewrite !orb_true_r.
Qed.

(** Escaped text is well escaped; this is what the title and the timestamp
    go through, and every body line before it is cut. *)
Lemma escapeSpecials_wellEscaped (text : jsstring) :
  wellEscaped (escapeSpecials text) = true.
Proof.
  induction text as [|c t IH]; [reflexivity|].
  unfold escapeSpecials in *. cbn [flat_map].
  destruct (isSpecial c) eqn:Hc.
  - cbn [app wellEscaped]. change (92 =? 92)%N with true. cbn iota.
    now rewrite Hc, IH.
  - cbn [app wellEscaped].
    destruct (c =? 92)%N eqn:Hb.
    + apply isSpecial_backslash in Hb. congruence.
    + now rewrite Hc.
Qed.

(** A body line whose escaped text is not longer than [maxCharsPerLine]
    reaches the content stream well escaped. *)
Lemma wrapLine_short_wellEscaped (line : jsstring) :
  length (escapeSpecials line) <= maxCharsPerLine ->
  forallb wellEscaped (wrapLine line) = true.
Proof.
  intros Hshort. unfold wrapLine.
  destruct (Nat.ltb_spec maxCharsPerLine (length (escapeSpecials line)));
    [lia|].
  cbn [forallb]. now rewrite escapeSpecials_wellEscaped.
Qed.

(** C3 fails on a long line.  A body of eighty-four letters and an opening
    parenthesis is escaped to 86 code units and then cut after the 85th,
    between the backslash and the parenthesis it escapes: the first wrapped
    line ends in a lone backslash and the second is a bare parenthesis. *)
Theorem long_line_loses_escape :
  wrappedLines lineEndingInParen = [repeat 97%N 84 ++ [92%N]; [40%N]]
  /\ wellEscaped (repeat 97%N 84 ++ [92%N]) = false
  /\ wellEscaped [40%N] = false
  /\ ~ bodyWellEscaped lineEndingInParen.
Proof.
  repeat split; try (vm_compute; reflexivity).
  unfold bodyWellEscaped. vm_compute. discriminate.
Qed.

(** ** Later pages *)



(** ** The cross-reference table *)

Lemma startsWith_app (p s r : list N) :
  startsWith p s = true -> startsWith p (s ++ r) = true.
Proof.
  revert s. induction p as [|c p IH]; intros s H; [reflexivity|].
  destruct s as [|d s]; [discriminate|].
  cbn [startsWith app] in *.
  apply andb_true_iff in H as [Hc Hp].
  now rewrite Hc, IH.
Qed.

Lemma startsWith_prefix (p r : list N) : startsWith p (p ++ r) = true.
Proof.
  induction p as [|c p IH]; [reflexivity|].
  cbn [startsWith app]. now rewrite N.eqb_refl.
Qed.

Lemma skipn_length_app (A : Type) (pre rest : list A) :
  skipn (length pre) (pre ++ rest) = rest.
Proof.
  rewrite skipn_app, skipn_all, Nat.sub_diag. reflexivity.
Qed.

Lemma pdfBody_concat (pgs : list jsstring) :
  pdfBody pgs = concat (allObjects pgs).
Proof.
  unfold pdfBody, allObjects.
  rewrite !concat_app. cbn [concat].
  now rewrite !app_nil_r, <- !app_assoc.
Qed.

(** The fold over the lengths of the objects gives, for each object, the
    code unit at which it begins in the concatenation. *)
Lemma offsetsFrom_pointAtObjects (post : list N) :
  forall (objs : list jsstring) (pre : list N) (k : nat),
    (forall j obj, nth_error objs j = Some obj ->
       startsWith (objDecl (k + j)) obj = true) ->
    pointAtObjects (pre ++ concat objs ++ post) k
      (offsetsFrom (length pre) objs) = true.
Proof.
  induction objs as [|o objs IH]; intros pre k Hdecl; [reflexivity|].
  cbn [offsetsFrom pointAtObjects concat].
  apply andb_true_iff. split.
  - rewrite skipn_length_app, <- app_assoc.
    apply startsWith_app.
    specialize (Hdecl 0 o eq_refl). now rewrite Nat.add_0_r in Hdecl.
  - rewrite <- length_app.
    replace (pre ++ (o ++ concat objs) ++ post)
      with ((pre ++ o) ++ concat objs ++ post)
      by now rewrite <- !app_assoc.
    apply IH. intros j obj Hj.
    replace (S k + j) with (k + S j) by lia.
    now apply Hdecl.
Qed.

Lemma objDecl_app (k : nat) (r : jsstring) :
  toString k ++ lit " 0 obj" ++ nl ++ r = objDecl k ++ r.
Proof. unfold objDecl. now rewrite <- !app_assoc. Qed.

Lemma pageObjects_nth (pgs : list jsstring) (i : nat) (obj : jsstring) :
  nth_error (pageObjects pgs) i = Some obj ->
  startsWith (objDecl (3 + i)) obj = true.
Proof.
  unfold pageObjects. intros H.
  rewrite nth_error_map in H.
  destruct (nth_error (seq 0 (length pgs)) i) as [j|] eqn:Hj;
    [|discriminate].
  injection H as <-.
  assert (Hi : i < length (seq 0 (length pgs)))
    by (apply nth_error_Some; congruence).
  rewrite length_seq in Hi.
  rewrite nth_error_nth' with (d := 0) in Hj by now rewrite length_seq.
  rewrite seq_nth in Hj by exact Hi. injection Hj as <-.
  unfold pageObj. cbv zeta. rewrite objDecl_app.
  apply startsWith_prefix.
Qed.

Lemma combine_seq_nth (A : Type) (l : list A) :
  forall (base i j : nat) (x : A),
    nth_error (combine (seq base (length l)) l) i = Some (j, x) ->
    j = base + i.
Proof.
  induction l as [|a l IH]; intros base i j x H.
  - destruct i; discriminate.
  - destruct i as [|i]; cbn in H.
    + injection H as <- _. lia.
    + apply IH in H. lia.
Qed.

Lemma contentObjects_nth (pgs : list jsstring) (i : nat) (obj : jsstring) :
  nth_error (contentObjects pgs) i = Some obj ->
  startsWith (objDecl (fontObjNum (length pgs) + 1 + i)) obj = true.
Proof.
  unfold contentObjects. intros H.
  rewrite nth_error_map in H.
  destruct (nth_error (combine (seq 0 (length pgs)) pgs) i)
    as [[j page]|] eqn:Hj; [|discriminate].
  injection H as <-.
  apply combine_seq_nth in Hj. cbn [Nat.add] in Hj. subst j.
  cbn [fst snd]. unfold contentObj. cbv zeta. rewrite objDecl_app.
  apply startsWith_prefix.
Qed.

(** The objects are numbered 1, 2, ... in the order they are written. *)
Lemma allObjects_numbered (pgs : list jsstring) (j : nat) (obj : jsstring) :
  nth_error (allObjects pgs) j = Some obj ->
  startsWith (objDecl (1 + j)) obj = true.
Proof.
  unfold allObjects. intros H.
  destruct j as [|[|j]]; cbn [nth_error app] in H.
  - injection H as <-. reflexivity.
  - injection H as <-. reflexivity.
  - destruct (Nat.lt_ge_cases j (length (pageObjects pgs))) as [Hp|Hp].
    + rewrite nth_error_app1 in H by exact Hp.
      now apply pageObjects_nth in H.
    + rewrite nth_error_app2 in H by exact Hp.
      rewrite pageObjects_length in *.
      destruct (j - length pgs) as [|i] eqn:Hi; cbn [nth_error app] in H.
      * injection H as <-.
        replace (1 + S (S j)) with (fontObjNum (length pgs))
          by (unfold fontObjNum; lia).
        unfold objFont. rewrite objDecl_app. apply startsWith_prefix.
      * apply contentObjects_nth in H.
        replace (1 + S (S j)) with (fontObjNum (length pgs) + 1 + i)
          by (unfold fontObjNum; lia).
        exact H.
Qed.

(** On the code units of the document the table is right: every offset is
    the index at which its object opens in [fullPDF], and [xrefStart] is
    the index at which the table opens. *)
Lemma xref_consistent_in_code_units (pgs : list jsstring) :
  xrefConsistent (fullPDF pgs) pgs = true.
Proof.
  unfold xrefConsistent, fullPDF. apply andb_true_iff. split.
  - unfold offsets. cbn [tl]. rewrite pdfBody_concat.
    apply offsetsFrom_pointAtObjects. apply allObjects_numbered.
  - unfold xrefStart. rewrite <- length_app, app_assoc.
    rewrite skipn_length_app. unfold xref.
    rewrite <- !app_assoc. reflexivity.
Qed.

(** *** The same table read on the bytes *)

Lemma encode_app (a b : jsstring) :
  Forall (fun c => isHighSurrogate c = false) a ->
  encode (a ++ b) = encode a ++ encode b.
Proof.
  induction 1 as [|c a Hc _ IH]; [reflexivity|].
  cbn [app encode]. rewrite Hc, IH.
  destruct (isLowSurrogate c); now rewrite <- app_assoc.
Qed.

(** The four code units above U+007F in the header take two bytes each. *)
Lemma pdfHeader_bytes :
  length pdfHeader = 15 /\ length (encode pdfHeader) = 19.
Proof. split; reflexivity. Qed.

Lemma generateInsightsPDF_prefix (timestamp insights filename : jsstring) :
  exists rest,
    generateInsightsPDF timestamp insights filename
    = encode pdfHeader ++ obj1 ++ rest.
Proof.
  unfold generateInsightsPDF, fullPDF, pdfBody.
  set (pgs := pages timestamp insights filename).
  rewrite encode_app by (vm_compute; repeat constructor).
  rewrite <- app_assoc.
  rewrite encode_app with (a := obj1) by (vm_compute; repeat constructor).
  change (encode obj1) with obj1.
  eexists. reflexivity.
Qed.

(** C1 fails on every input.  The table lists code-unit indices, which the
    source takes with [.length], and a reader looks them up as byte
    offsets in the encoded stream.  The entry of object 1 is always 15,
    the length of the header in code units; in the bytes the header takes
    19, so that offset 15 lies inside the header and object 1 opens at
    byte 19. *)
Theorem xref_offsets_are_not_byte_offsets
  (timestamp insights filename : jsstring) :
  let pgs := pages timestamp insights filename in
  let out := generateInsightsPDF timestamp insights filename in
  nth_error (offsets pgs) 1 = Some 15
  /\ startsWith (objDecl 1) (skipn 15 out) = false
  /\ startsWith (objDecl 1) (skipn 19 out) = true
  /\ xrefConsistent out pgs = false.
Proof.
  intros pgs out.
  destruct (generateInsightsPDF_prefix timestamp insights filename)
    as (rest & Hout).
  fold out in Hout.
  assert (H15 : startsWith (objDecl 1) (skipn 15 out) = false)
    by (rewrite Hout; reflexivity).
  split; [reflexivity|].
  split; [exact H15|].
  split; [rewrite Hout; reflexivity|].
  unfold xrefConsistent, offsets. cbn [tl].
  unfold allObjects. cbn [app offsetsFrom pointAtObjects].
  change (length pdfHeader) with 15.
  now rewrite H15.
Qed.

(** At a sample report the table lists 15, 64, 121, 225 and 317 and
    [startxref] says 554; in the bytes every object, and the table itself,
    begins four bytes later. *)
Lemma sample_report_offsets :
  let pgs := pages sampleTimestamp sampleBody sampleFile in
  let out := generateInsightsPDF sampleTimestamp sampleBody sampleFile in
  offsets pgs = [0; 15; 64; 121; 225; 317]
  /\ xrefStart pgs = 554
  /\ xrefConsistent out pgs = false
  /\ pointAtObjects out 1 [19; 68; 125; 229; 321] = true
  /\ startsWith (lit "xref" ++ nl) (skipn 558 out) = true.
Proof. cbv zeta. repeat split; vm_compute; reflexivity. Qed.

(** *** ASCII input: every entry is four bytes short *)

Lemma ascii_app (a b : jsstring) : ascii a -> ascii b -> ascii (a ++ b).
Proof.
  unfold ascii. intros Ha Hb. now rewrite forallb_app, Ha, Hb.
Qed.

Lemma ascii_cons (c : N) (s : jsstring) :
  (c <? 128)%N = true -> ascii s -> ascii (c :: s).
Proof. unfold ascii. cbn [forallb]. now intros -> ->. Qed.

Lemma ascii_inv (c : N) (s : jsstring) :
  ascii (c :: s) -> (c <? 128)%N = true /\ ascii s.
Proof. unfold ascii. cbn [forallb]. apply andb_true_iff. Qed.

Lemma ascii_digits (d : Decimal.uint) :
  ascii (lit (NilEmpty.string_of_uint d)).
Proof.
  induction d; [reflexivity| ..];
    cbn [NilEmpty.string_of_uint lit list_ascii_of_string map];
    (apply ascii_cons; [reflexivity|exact IHd]).
Qed.

Lemma ascii_toString (k : nat) : ascii (toString k).
Proof. apply ascii_digits. Qed.

Lemma ascii_escapeSpecials (s : jsstring) :
  ascii s -> ascii (escapeSpecials s).
Proof.
  induction s as [|c s IH]; intros H; [reflexivity|].
  apply ascii_inv in H as [Hc Hs].
  unfold escapeSpecials. cbn [flat_map].
  apply ascii_app; [|now apply IH].
  destruct (isSpecial c); repeat apply ascii_cons; auto; reflexivity.
Qed.

Lemma ascii_skipn (k : nat) (s : jsstring) : ascii s -> ascii (skipn k s).
Proof.
  revert s. induction k as [|k IH]; intros [|c s] H; try exact H.
  apply ascii_inv in H as [_ Hs]. now apply IH.
Qed.

Lemma ascii_firstn (k : nat) (s : jsstring) : ascii s -> ascii (firstn k s).
Proof.
  revert s. induction k as [|k IH]; intros [|c s] H; try reflexivity.
  apply ascii_inv in H as [Hc Hs]. cbn [firstn].
  apply ascii_cons; [exact Hc|now apply IH].
Qed.

Lemma ascii_substring (i j : nat) (s : jsstring) :
  ascii s -> ascii (substring i j s).
Proof. intros H. now apply ascii_firstn, ascii_skipn. Qed.

Lemma ascii_repeat (c : N) (k : nat) :
  (c <? 128)%N = true -> ascii (repeat c k).
Proof.
  intros Hc. induction k; [reflexivity|now apply ascii_cons].
Qed.

Lemma ascii_concat (l : list jsstring) : Forall ascii l -> ascii (concat l).
Proof.
  induction 1; [reflexivity|]. cbn [concat]. now apply ascii_app.
Qed.

Lemma ascii_join (sep : jsstring) (l : list jsstring) :
  ascii sep -> Forall ascii l -> ascii (join sep l).
Proof.
  intros Hsep. induction 1 as [|p l Hp Hl IH]; [reflexivity|].
  destruct l as [|q l]; [exact Hp|].
  change (join sep (p :: q :: l)) with (p ++ sep ++ join sep (q :: l)).
  auto using ascii_app.
Qed.

Lemma ascii_split (sep : N) (s : jsstring) :
  ascii s -> Forall ascii (split sep s).
Proof.
  induction s as [|c s IH]; intros H; [repeat constructor|].
  apply ascii_inv in H as [Hc Hs]. specialize (IH Hs).
  cbn [split]. destruct (c =? sep)%N; [now constructor|].
  destruct (split sep s) as [|h r].
  - constructor; [|constructor]. now apply ascii_cons.
  - inversion IH; subst. constructor; [now apply ascii_cons|assumption].
Qed.

Lemma ascii_splitLongLine (e : jsstring) :
  ascii e -> forall fuel i, Forall ascii (splitLongLine fuel i e).
Proof.
  intros He. induction fuel as [|fuel IH]; intros i; cbn [splitLongLine];
    [constructor|].
  destruct (i <? length e); constructor; [|apply IH].
  now apply ascii_substring.
Qed.

Lemma ascii_wrappedLines (insights : jsstring) :
  ascii insights -> Forall ascii (wrappedLines insights).
Proof.
  intros H. unfold wrappedLines.
  apply ascii_split with (sep := 10%N) in H.
  induction H as [|l ls Hl _ IH]; [constructor|].
  cbn [flat_map]. apply Forall_app. split; [|exact IH].
  unfold wrapLine.
  destruct (maxCharsPerLine <? length (escapeSpecials l)).
  - now apply ascii_splitLongLine, ascii_escapeSpecials.
  - constructor; [now apply ascii_escapeSpecials|constructor].
Qed.

Lemma Forall_slice (A : Type) (P : A -> Prop) (i j : nat) (l : list A) :
  Forall P l -> Forall P (slice i j l).
Proof.
  intros H. unfold slice. rewrite Forall_forall in *. intros x Hx.
  apply H. rewrite <- (firstn_skipn i l). apply in_or_app. right.
  rewrite <- (firstn_skipn (j - i) (skipn i l)). apply in_or_app.
  now left.
Qed.

Ltac ascii_parts :=
  repeat first
    [ apply ascii_app
    | apply ascii_toString
    | apply ascii_escapeSpecials
    | assumption
    | reflexivity ].

Lemma ascii_contentLines (isFirstPage : bool) (pageLines : list jsstring) :
  Forall ascii pageLines ->
  forall j, ascii (contentLines isFirstPage j pageLines).
Proof.
  induction 1 as [|l ls Hl _ IH]; intros j; [reflexivity|].
  cbn [contentLines]. apply ascii_app; [|apply IH].
  destruct ((j =? 0) && negb isFirstPage); ascii_parts.
Qed.

Lemma ascii_pageContent (ts fn : jsstring) (isFirstPage : bool)
  (pageLines : list jsstring) :
  ascii ts -> ascii fn -> Forall ascii pageLines ->
  ascii (pageContent ts fn isFirstPage pageLines).
Proof.
  intros Hts Hfn Hl. unfold pageContent, pageHeader, title.
  destruct isFirstPage; ascii_parts; now apply ascii_contentLines.
Qed.

Lemma ascii_pages (ts insights fn : jsstring) :
  ascii ts -> ascii insights -> ascii fn ->
  Forall ascii (pages ts insights fn).
Proof.
  intros Hts Hin Hfn. unfold pages.
  pose proof (ascii_wrappedLines Hin) as Hw.
  generalize (length (wrappedLines insights)) as fuel, 0 as i.
  induction fuel as [|fuel IH]; intros i; cbn [pagesFrom]; [constructor|].
  destruct (i <? length (wrappedLines insights)); constructor; [|apply IH].
  apply ascii_pageContent; try assumption.
  apply Forall_slice, Hw.
Qed.

Lemma ascii_pdfBody (pgs : list jsstring) :
  Forall ascii pgs -> ascii (pdfBody pgs).
Proof.
  intros Hp. rewrite pdfBody_concat. apply ascii_concat.
  unfold allObjects. repeat (apply Forall_app; split).
  - repeat constructor. unfold obj2, pageRefs. ascii_parts.
    apply ascii_join; [reflexivity|].
    apply Forall_map, Forall_forall. intros idx _. ascii_parts.
  - unfold pageObjects. apply Forall_map, Forall_forall. intros i _.
    unfold pageObj. cbv zeta. ascii_parts.
  - repeat constructor. unfold objFont. ascii_parts.
  - unfold contentObjects. apply Forall_map, Forall_forall.
    intros [i page] Hin. apply in_combine_r in Hin.
    cbn [fst snd]. unfold contentObj. cbv zeta.
    assert (Hpage : ascii page)
      by (eapply Forall_forall in Hp; [exact Hp|exact Hin]).
    ascii_parts.
Qed.

Lemma ascii_xrefEntries (offs : list nat) :
  forall i, ascii (xrefEntries i offs).
Proof.
  induction offs as [|off offs IH]; intros i; [reflexivity|].
  cbn [xrefEntries]. apply ascii_app; [|apply IH].
  unfold xrefEntry, padStart0.
  destruct (i =? 0); ascii_parts. now apply ascii_repeat.
Qed.

Lemma ascii_tail (pgs : list jsstring) : ascii (xref pgs ++ trailer pgs).
Proof.
  unfold xref, trailer. ascii_parts. apply ascii_xrefEntries.
Qed.

Lemma encode_ascii (s : jsstring) : ascii s -> encode s = s.
Proof.
  induction s as [|c s IH]; intros H; [reflexivity|].
  apply ascii_inv in H as [Hc Hs]. apply N.ltb_lt in Hc.
  cbn [encode]. unfold isHighSurrogate, isLowSurrogate, utf8.
  destruct (N.leb_spec 55296 c); [lia|].
  destruct (N.leb_spec 56320 c); [lia|].
  destruct (N.ltb_spec c 128); [|lia].
  cbn [andb app]. now rewrite IH.
Qed.

Lemma offsetsFrom_lower_bound (objs : list jsstring) :
  forall base, Forall (fun off => base <= off) (offsetsFrom base objs).
Proof.
  induction objs as [|o objs IH]; intros base; cbn [offsetsFrom];
    constructor; [lia|].
  eapply Forall_impl; [|apply IH]. cbn beta. intros off. lia.
Qed.

(** Reading four bytes later in the bytes is reading in the code units. *)
Lemma skipn_past_header (rest : list N) (off : nat) :
  15 <= off ->
  skipn (4 + off) (encode pdfHeader ++ rest) = skipn off (pdfHeader ++ rest).
Proof.
  intros Hoff. destruct pdfHeader_bytes as [H15 H19].
  rewrite !skipn_app, H15, H19.
  rewrite (skipn_all2 (encode pdfHeader)), (skipn_all2 pdfHeader) by lia.
  reflexivity.
Qed.

Lemma pointAtObjects_past_header (rest : list N) (offs : list nat) :
  Forall (fun off => 15 <= off) offs ->
  forall k,
    pointAtObjects (encode pdfHeader ++ rest) k (map (Nat.add 4) offs)
    = pointAtObjects (pdfHeader ++ rest) k offs.
Proof.
  induction 1 as [|off offs Hoff _ IH]; intros k; [reflexivity|].
  cbn [map pointAtObjects]. now rewrite skipn_past_header, IH.
Qed.

(** For an ASCII timestamp, body and file name the header is the only
    text above U+007F, and the table is wrong by exactly its four extra
    bytes: every object, and the table itself, begins four bytes after
    the offset written for it. *)
Theorem ascii_offsets_four_short (timestamp insights filename : jsstring) :
  ascii timestamp -> ascii insights -> ascii filename ->
  let pgs := pages timestamp insights filename in
  let out := generateInsightsPDF timestamp insights filename in
  pointAtObjects out 1 (map (Nat.add 4) (tl (offsets pgs))) = true
  /\ startsWith (lit "xref" ++ nl) (skipn (4 + xrefStart pgs) out) = true.
Proof.
  intros Hts Hin Hfn pgs out.
  assert (Hpgs : Forall ascii pgs) by now apply ascii_pages.
  assert (Hout : out = encode pdfHeader
                       ++ pdfBody pgs ++ xref pgs ++ trailer pgs).
  { subst out. unfold generateInsightsPDF, fullPDF. fold pgs.
    rewrite encode_app by (vm_compute; repeat constructor).
    f_equal. apply encode_ascii.
    apply ascii_app; [now apply ascii_pdfBody|apply ascii_tail]. }
  pose proof (xref_consistent_in_code_units pgs) as Hunits.
  unfold xrefConsistent, fullPDF in Hunits.
  apply andb_true_iff in Hunits as [Hobjs Hxref].
  rewrite Hout. split.
  - rewrite pointAtObjects_past_header; [exact Hobjs|].
    unfold offsets. cbn [tl]. apply offsetsFrom_lower_bound.
  - rewrite skipn_past_header; [exact Hxref|].
    unfold xrefStart. destruct pdfHeader_bytes as [-> _]. lia.
Qed.

Lemma ascii_offsets_four_short_witness :
  let pgs := pages sampleTimestamp sampleBody sampleFile in
  let out := generateInsightsPDF sampleTimestamp sampleBody sampleFile in
  pointAtObjects out 1 (map (Nat.add 4) (tl (offsets pgs))) = true
  /\ startsWith (lit "xref" ++ nl) (skipn (4 + xrefStart pgs) out) = true.
Proof.
  apply ascii_offsets_four_short; reflexivity.
Defined.

(** ** Determinism, and where the timestamp goes *)



















End PdfFacts.

(* ================================================================== *)
(** * Properties of the profiler *)
(* ================================================================== *)

Module ProfilerFacts.

Import JS Profiler ProfilerSpec.

(** ** Sorting *)

Section Sorting.

Variable A : Type.
Variable after : A -> A -> bool.

Lemma insertSorted_length (x : A) (l : list A) :
  length (insertSorted after x l) = S (length l).
Proof.
  induction l as [|y t IH]; cbn [insertSorted]; [reflexivity|].
  destruct (after y x); cbn [length]; [reflexivity|now rewrite IH].
Qed.

Lemma insertSorted_perm (x : A) (l : list A) :
  Permutation (insertSorted after x l) (x :: l).
Proof.
  induction l as [|y t IH]; cbn [insertSorted]; [reflexivity|].
  destruct (after y x); [reflexivity|].
  rewrite IH. apply perm_swap.
Qed.

Lemma sortWith_fold_length (l acc : list A) :
  length (fold_left (fun acc x => insertSorted after x acc) l acc)
  = length l + length acc.
Proof.
  revert acc. induction l as [|x l IH]; intros acc; cbn [fold_left];
    [reflexivity|].
  rewrite IH, insertSorted_length. cbn [length]. lia.
Qed.

Lemma sortWith_length (l : list A) : length (sortWith after l) = length l.
Proof.
  unfold sortWith. rewrite sortWith_fold_length. cbn [length]. lia.
Qed.

Lemma sortWith_fold_perm (l acc : list A) :
  Permutation (fold_left (fun acc x => insertSorted after x acc) l acc)
    (l ++ acc).
Proof.
  revert acc. induction l as [|x l IH]; intros acc; cbn [fold_left];
    [reflexivity|].
  rewrite IH, insertSorted_perm. cbn [app].
  symmetry. apply Permutation_middle.
Qed.

Lemma sortWith_perm (l : list A) : Permutation (sortWith after l) l.
Proof.
  unfold sortWith. rewrite sortWith_fold_perm. now rewrite app_nil_r.
Qed.

(** When the comparator never places two values after each other both
    ways, the result is sorted: no element is after its successor. *)
Hypothesis after_asym : forall x y, after x y = true -> after y x = false.

Lemma insertSorted_sorted (x : A) (l : list A) :
  Sorted (fun a b => after a b = false) l ->
  Sorted (fun a b => after a b = false) (insertSorted after x l).
Proof.
  induction l as [|y t IH]; intros Hs; cbn [insertSorted].
  - repeat constructor.
  - destruct (after y x) eqn:Hyx.
    + constructor; [exact Hs|]. constructor. now apply after_asym.
    + inversion Hs as [|? ? Ht Hhd]; subst.
      constructor; [now apply IH|].
      destruct t as [|z t]; cbn [insertSorted].
      * constructor. exact Hyx.
      * destruct (after z x); constructor; [exact Hyx|].
        now inversion Hhd.
Qed.

Lemma sortWith_fold_sorted (l acc : list A) :
  Sorted (fun a b => after a b = false) acc ->
  Sorted (fun a b => after a b = false)
    (fold_left (fun acc x => insertSorted after x acc) l acc).
Proof.
  revert acc. induction l as [|x l IH]; intros acc Hacc; cbn [fold_left];
    [exact Hacc|].
  apply IH. now apply insertSorted_sorted.
Qed.

Lemma sortWith_sorted (l : list A) :
  Sorted (fun a b => after a b = false) (sortWith after l).
Proof. apply sortWith_fold_sorted. constructor. Qed.

End Sorting.

(** ** The comparator on numbers *)

Lemma binary_round_negative (m : positive) (e : Z) :
  positiveSF (binary_round prec emax true m e) = false.
Proof.
  unfold binary_round, binary_round_aux.
  destruct (shl_align _ _ _) as [mz ez].
  destruct (shr_fexp _ _ _ _ _) as [mrs' e'].
  destruct (shr_fexp _ _ _ _ _) as [mrs'' e''].
  destruct (shr_m mrs''); [reflexivity| |reflexivity].
  destruct (Z.leb _ _); reflexivity.
Qed.

Lemma binary_normalize_positive (m : Z) (e : Z) :
  positiveSF (binary_normalize prec emax m e false) = true -> (0 < m)%Z.
Proof.
  destruct m as [|m|m]; cbn [binary_normalize].
  - discriminate.
  - intros _. reflexivity.
  - now rewrite binary_round_negative.
Qed.

Lemma SFsub_asym (x y : spec_float) :
  positiveSF (SF64sub x y) = true -> positiveSF (SF64sub y x) = false.
Proof.
  unfold SF64sub.
  destruct x as [sx|sx| |sx mx ex], y as [sy|sy| |sy my ey].
  16: {
    cbv beta iota delta [SFsub]. rewrite (Z.min_comm ey ex).
    intros H. apply binary_normalize_positive in H. cbv zeta.
    match goal with
    | |- positiveSF (binary_normalize _ _ ?m _ _) = false =>
        destruct m as [|p|p] eqn:Hm; cbn [binary_normalize];
        [reflexivity|lia|apply binary_round_negative]
    end. }
  all: try destruct sx; try destruct sy; cbn; congruence.
Qed.

(** [a - b] and [b - a] are never both positive. *)
Lemma numberAfter_asym (a b : float) :
  numberAfter a b = true -> numberAfter b a = false.
Proof.
  unfold numberAfter. rewrite !ltb_spec, !sub_spec.
  apply SFsub_asym.
Qed.

Section Subtraction.

Local Open Scope Z_scope.

Lemma digits2_pos_bounds (p : positive) :
  2 ^ (Z.pos (digits2_pos p) - 1) <= Z.pos p < 2 ^ Z.pos (digits2_pos p).
Proof.
  induction p as [p IH|p IH|]; cbn [digits2_pos].
  - rewrite Pos2Z.inj_succ. change (Z.pos p~1) with (2 * Z.pos p + 1).
    replace (Z.succ (Z.pos (digits2_pos p)) - 1)
      with (Z.succ (Z.pos (digits2_pos p) - 1)) by lia.
    rewrite !Z.pow_succ_r by lia.
    remember (2 ^ (Z.pos (digits2_pos p) - 1)) as a eqn:Ea.
    remember (2 ^ Z.pos (digits2_pos p)) as b eqn:Eb.
    clear Ea Eb. lia.
  - rewrite Pos2Z.inj_succ. change (Z.pos p~0) with (2 * Z.pos p).
    replace (Z.succ (Z.pos (digits2_pos p)) - 1)
      with (Z.succ (Z.pos (digits2_pos p) - 1)) by lia.
    rewrite !Z.pow_succ_r by lia.
    remember (2 ^ (Z.pos (digits2_pos p) - 1)) as a eqn:Ea.
    remember (2 ^ Z.pos (digits2_pos p)) as b eqn:Eb.
    clear Ea Eb. lia.
  - change (1 <= 1 < 2). lia.
Qed.

Lemma shr_1_keeps (k : Z) (mrs : shr_record) :
  0 <= k -> 2 ^ (k + 1) <= shr_m mrs -> 2 ^ k <= shr_m (shr_1 mrs).
Proof.
  intros Hk. rewrite Z.pow_add_r, Z.pow_1_r by lia.
  pose proof (Z.pow_pos_nonneg 2 k ltac:(lia) Hk) as Hpos.
  destruct mrs as [m r s]. cbn [shr_m].
  destruct m as [|[p|p|]|p]; cbn [shr_1 shr_m]; lia.
Qed.

Lemma iter_shr_1_keeps (p : positive) :
  forall (k : Z) (mrs : shr_record),
    0 <= k -> 2 ^ (Z.pos p + k) <= shr_m mrs ->
    2 ^ k <= shr_m (iter_pos shr_1 p mrs).
Proof.
  induction p as [p IH|p IH|]; intros k mrs Hk H; cbn [iter_pos].
  - apply IH; [exact Hk|]. apply IH; [lia|]. apply shr_1_keeps; [lia|].
    replace (Z.pos p + (Z.pos p + k) + 1) with (Z.pos p~1 + k) by lia.
    exact H.
  - apply IH; [exact Hk|]. apply IH; [lia|].
    replace (Z.pos p + (Z.pos p + k)) with (Z.pos p~0 + k) by lia.
    exact H.
  - apply shr_1_keeps; [exact Hk|]. now rewrite Z.add_comm.
Qed.

Lemma shr_m_of_loc (m : Z) (l : location) :
  shr_m (shr_record_of_loc m l) = m.
Proof. destruct l as [|[]]; reflexivity. Qed.

(** Shifting a positive mantissa to its place leaves it positive. *)
Lemma shr_fexp_positive (m e : Z) (l : location) :
  0 < m -> emin <= e ->
  0 < shr_m (fst (shr_fexp prec emax m e l))
  /\ emin <= snd (shr_fexp prec emax m e l).
Proof.
  intros Hm He. unfold shr_fexp, shr, fexp.
  destruct m as [|p|p]; try lia. cbn [Zdigits2].
  pose proof (digits2_pos_bounds p) as [Hlow _].
  change IntDef.Z.max with Z.max.
  destruct (Z.max (Z.pos (digits2_pos p) + e - prec) emin - e)
    as [|n|n] eqn:En; cbn [fst snd]; rewrite ?shr_m_of_loc; try lia.
  split; [|lia].
  enough (2 ^ 0 <= shr_m (iter_pos shr_1 n (shr_record_of_loc (Z.pos p) l)))
    by (change (2 ^ 0) with 1 in *; lia).
  apply iter_shr_1_keeps; [lia|]. rewrite shr_m_of_loc, Z.add_0_r.
  transitivity (2 ^ (Z.pos (digits2_pos p) - 1)); [|exact Hlow].
  apply Z.pow_le_mono_r; [lia|].
  unfold SpecFloat.emin, prec, emax in *. lia.
Qed.

Lemma round_nearest_even_positive (m : Z) (l : location) :
  0 < m -> 0 < round_nearest_even m l.
Proof.
  intros Hm. unfold round_nearest_even.
  destruct l as [|[]]; try destruct (Z.even m); lia.
Qed.

(** A positive number above the least exponent is rounded to a positive
    number. *)
Lemma binary_round_positive (m : positive) (e : Z) :
  emin <= e -> positiveSF (binary_round prec emax false m e) = true.
Proof.
  intros He. unfold binary_round.
  destruct (shl_align m e (fexp prec emax (Z.pos (digits2_pos m) + e)))
    as [mz ez] eqn:Ealign.
  assert (Hez : emin <= ez).
  { unfold shl_align, fexp in Ealign.
    change IntDef.Z.max with Z.max in Ealign.
    destruct (Z.max (Z.pos (digits2_pos m) + e - prec) emin - e) eqn:Ed;
      injection Ealign as <- <-; lia. }
  unfold binary_round_aux.
  destruct (shr_fexp_positive (m := Z.pos mz) loc_Exact ltac:(lia) Hez)
    as [H1 He1].
  destruct (shr_fexp prec emax (Z.pos mz) ez loc_Exact) as [mrs' e'].
  cbn [fst snd] in H1, He1.
  pose proof (round_nearest_even_positive (loc_of_shr_record mrs') H1) as Hr.
  destruct (shr_fexp_positive loc_Exact Hr He1) as [H2 _].
  destruct (shr_fexp prec emax _ e' loc_Exact) as [mrs'' e''].
  cbn [fst] in H2.
  destruct (shr_m mrs'') as [|q|q]; try lia.
  destruct (e'' <=? emax - prec); reflexivity.
Qed.

Lemma shl_align_value (m : positive) (e ez : Z) :
  ez <= e -> Z.pos (fst (shl_align m e ez)) = Z.pos m * 2 ^ (e - ez).
Proof.
  intros H. unfold shl_align. destruct (ez - e) as [|d|d] eqn:E; cbn [fst].
  - replace (e - ez) with 0 by lia. rewrite Z.pow_0_r. lia.
  - lia.
  - change (PosDef.Pos.iter xO m d) with (shift_pos d m).
    rewrite shift_pos_correct, Z.pow_pos_fold.
    replace (e - ez) with (Z.pos d) by lia. lia.
Qed.

(** What a valid finite number is: its exponent is not below the least
    one, its mantissa has at most [prec] digits, and exactly [prec] above
    the least exponent. *)
Lemma bounded_canonical (m : positive) (e : Z) :
  bounded prec emax m e = true ->
  emin <= e
  /\ Z.pos (digits2_pos m) <= prec
  /\ (emin < e -> Z.pos (digits2_pos m) = prec).
Proof.
  unfold bounded, canonical_mantissa, fexp.
  intros [H _]%andb_true_iff. apply Z.eqb_eq in H.
  change IntDef.Z.max with Z.max in H. lia.
Qed.

(** Of two valid positive numbers the one with the lower exponent is the
    smaller. *)
Lemma lower_exponent_smaller (mx my : positive) (ex ey : Z) :
  bounded prec emax mx ex = true -> bounded prec emax my ey = true ->
  ex < ey -> Z.pos mx < Z.pos my * 2 ^ (ey - ex).
Proof.
  intros (Hex & Hdx & _)%bounded_canonical (Hey & _ & Hdy)%bounded_canonical
         Hlt.
  specialize (Hdy ltac:(lia)).
  pose proof (digits2_pos_bounds mx) as [_ Hmx].
  pose proof (digits2_pos_bounds my) as [Hmy _].
  rewrite Hdy in Hmy.
  assert (H53 : 2 ^ Z.pos (digits2_pos mx) <= 2 ^ prec)
    by (apply Z.pow_le_mono_r; lia).
  assert (H2 : 2 ^ 1 <= 2 ^ (ey - ex)) by (apply Z.pow_le_mono_r; lia).
  assert (Hmul : 2 ^ (prec - 1) * 2 ^ 1 <= Z.pos my * 2 ^ (ey - ex))
    by (apply Z.mul_le_mono_nonneg; lia).
  change (2 ^ (prec - 1) * 2 ^ 1) with (2 ^ prec) in Hmul. lia.
Qed.

(** Where [y] is below [x], the difference [x - y] is above zero: the
    difference of two numbers that are not equal is never rounded to
    zero. *)
Lemma SFsub_positive (x y : spec_float) :
  valid_binary x = true -> valid_binary y = true ->
  SFltb y x = true -> positiveSF (SF64sub x y) = true.
Proof.
  unfold SF64sub.
  destruct x as [sx|sx| |sx mx ex], y as [sy|sy| |sy my ey].
  16: {
    cbn [SpecFloat.valid_binary]. intros Hx Hy Hlt.
    cbv beta iota delta [SFsub]. cbv zeta.
    pose proof (bounded_canonical _ _ Hx) as (Hex & _).
    pose proof (bounded_canonical _ _ Hy) as (Hey & _).
    change IntDef.Z.min with Z.min.
    rewrite !shl_align_value by lia.
    match goal with
    | |- positiveSF (binary_normalize _ _ ?d _ _) = true =>
        assert (Hd : 0 < d)
    end.
    { unfold SFltb, SFcompare in Hlt.
      destruct sx, sy; cbn [cond_Zopp]; try discriminate.
      - (* both negative *)
        destruct (Z.compare_spec ey ex) as [Heq|Hl|Hg]; try discriminate.
        + subst ey. rewrite Z.min_id, Z.sub_diag, Z.pow_0_r.
          destruct (Pos.compare_cont Eq my mx) eqn:Ec; try discriminate.
          apply (proj1 (Pos.compare_gt_iff my mx)) in Ec. lia.
        + clear Hlt. rewrite Z.min_l by lia.
          rewrite Z.sub_diag, Z.pow_0_r.
          pose proof (lower_exponent_smaller _ _ Hx Hy Hg). lia.
      - (* x positive, y negative *)
        assert (0 < 2 ^ (ex - Z.min ex ey)) by (apply Z.pow_pos_nonneg; lia).
        assert (0 < 2 ^ (ey - Z.min ex ey)) by (apply Z.pow_pos_nonneg; lia).
        nia.
      - (* both positive *)
        destruct (Z.compare_spec ey ex) as [Heq|Hl|Hg]; try discriminate.
        + subst ey. rewrite Z.min_id, Z.sub_diag, Z.pow_0_r.
          destruct (Pos.compare_cont Eq my mx) eqn:Ec; try discriminate.
          apply (proj1 (Pos.compare_lt_iff my mx)) in Ec. lia.
        + clear Hlt. rewrite Z.min_r by lia.
          rewrite Z.sub_diag, Z.pow_0_r.
          pose proof (lower_exponent_smaller _ _ Hy Hx Hl). lia. }
    match goal with
    | |- positiveSF (binary_normalize _ _ ?d _ _) = true =>
        destruct d as [|p|p]; try lia
    end.
    cbn [binary_normalize]. apply binary_round_positive. lia. }
  all: try destruct sx; try destruct sy; cbn; congruence.
Qed.

End Subtraction.

Lemma SFcompare_antisym (x y : spec_float) :
  SFcompare y x = option_map CompOpp (SFcompare x y).
Proof.
  destruct x as [s1|s1| |s1 m1 e1], y as [s2|s2| |s2 m2 e2]; cbn;
    try reflexivity; try (destruct s1; reflexivity);
    try (destruct s2; reflexivity); try (destruct s1, s2; reflexivity).
  destruct s1, s2; try reflexivity; f_equal;
    rewrite (Z.compare_antisym e1 e2); destruct (e1 ?= e2)%Z; cbn;
    try reflexivity.
  - f_equal. now rewrite Pos.compare_cont_antisym.
  - now rewrite Pos.compare_cont_antisym.
Qed.

Lemma SFcompare_None (x y : spec_float) :
  SFcompare x y = None -> SFeqb x x = false \/ SFeqb y y = false.
Proof.
  destruct x, y; cbn; try discriminate; auto.
Qed.

(** On numbers, [a > b] is the negation of [a <= b]. *)
Lemma greater_not_le (a b : float) :
  is_nan a = false -> is_nan b = false ->
  (b <? a)%float = negb (a <=? b)%float.
Proof.
  unfold is_nan. rewrite !FloatAxioms.eqb_spec, ltb_spec, leb_spec.
  intros Ha%negb_false_iff Hb%negb_false_iff.
  unfold SFltb, SFleb. rewrite (SFcompare_antisym (Prim2SF a) (Prim2SF b)).
  destruct (SFcompare (Prim2SF a) (Prim2SF b)) as [[]|] eqn:E;
    try reflexivity.
  apply SFcompare_None in E as [E|E]; congruence.
Qed.

(** The order of numbers is transitive. *)
Lemma SFleb_trans (x y z : spec_float) :
  SFleb x y = true -> SFleb y z = true -> SFleb x z = true.
Proof.
  unfold SFleb, SFcompare.
  destruct x as [sx|sx| |sx mx ex], y as [sy|sy| |sy my ey],
           z as [sz|sz| |sz mz ez];
    try discriminate; try reflexivity;
    try (destruct sx; try destruct sy; try destruct sz;
         try discriminate; reflexivity);
    try (destruct sy; try destruct sz; try discriminate; reflexivity);
    try (destruct sx; try destruct sz; try discriminate; reflexivity);
    try (destruct sz; try discriminate; reflexivity).
  all: try (destruct sx, sy; try discriminate;
            (reflexivity || (intros; assumption))).
  all: try (destruct sy, sz; try discriminate;
            (reflexivity || (intros; assumption))).
  destruct sx, sy, sz; try discriminate; try reflexivity;
    destruct (Z.compare_spec ex ey), (Z.compare_spec ey ez),
             (Z.compare_spec ex ez); try discriminate; try reflexivity;
    try lia; subst;
    change (PosDef.Pos.compare_cont Eq mx my) with (mx ?= my)%positive;
    change (PosDef.Pos.compare_cont Eq my mz) with (my ?= mz)%positive;
    change (PosDef.Pos.compare_cont Eq mx mz) with (mx ?= mz)%positive;
    destruct (Pos.compare_spec mx my), (Pos.compare_spec my mz),
             (Pos.compare_spec mx mz);
    cbn; try discriminate; try reflexivity; try lia.
Qed.

Lemma leb_trans (a b c : float) :
  (a <=? b)%float = true -> (b <=? c)%float = true ->
  (a <=? c)%float = true.
Proof. rewrite !leb_spec. apply SFleb_trans. Qed.

(** On numbers the comparator [(a, b) => a - b] agrees with the order:
    where it does not place [a] after [b], [a] is at most [b]. *)
Lemma numberAfter_le (a b : float) :
  is_nan a = false -> is_nan b = false ->
  numberAfter a b = false -> (a <=? b)%float = true.
Proof.
  intros Ha Hb Hafter.
  destruct (a <=? b)%float eqn:Hle; [reflexivity|].
  pose proof (greater_not_le a b Ha Hb) as Hgt.
  rewrite Hle in Hgt. cbn [negb] in Hgt.
  unfold numberAfter in Hafter. rewrite ltb_spec, sub_spec in Hafter.
  rewrite ltb_spec in Hgt.
  change (positiveSF (SF64sub (Prim2SF a) (Prim2SF b)) = false) in Hafter.
  rewrite (@SFsub_positive (Prim2SF a) (Prim2SF b)
             (Prim2SF_valid a) (Prim2SF_valid b) Hgt) in Hafter.
  discriminate.
Qed.

(** An array in which the comparator places no number after its
    successor is in ascending order. *)
Lemma sorted_ascending (l : list float) :
  Forall (fun v => is_nan v = false) l ->
  Sorted notAfter l -> ascending l.
Proof.
  intros Hnum Hs. apply Sorted_StronglySorted.
  { intros a b c. apply leb_trans. }
  induction Hs as [|a l Hs IH Hhd]; [constructor|].
  apply Forall_cons_iff in Hnum as [Ha Hl].
  constructor; [now apply IH|].
  destruct Hhd as [|b l Hab]; constructor.
  apply Forall_cons_iff in Hl as [Hb _].
  now apply numberAfter_le.
Qed.

Lemma leb_refl (x : float) : is_nan x = false -> (x <=? x)%float = true.
Proof.
  unfold is_nan. rewrite FloatAxioms.eqb_spec, leb_spec.
  unfold SFeqb, SFleb.
  destruct (SFcompare (Prim2SF x) (Prim2SF x)) as [[]|];
    intros H; (reflexivity || discriminate).
Qed.

(** In an ascending array an earlier entry is at most a later one. *)
Lemma ascending_nth (l : list float) :
  Forall (fun v => is_nan v = false) l -> ascending l ->
  forall i j a b,
    i <= j -> nth_error l i = Some a -> nth_error l j = Some b ->
    (a <=? b)%float = true.
Proof.
  intros Hnum Hasc. induction Hasc as [|x l Hs IH Hall];
    intros i j a b Hij Ha Hb; [now destruct i|].
  apply Forall_cons_iff in Hnum as [Hx Hl].
  destruct i as [|i], j as [|j]; cbn [nth_error] in Ha, Hb; try lia.
  - injection Ha as <-. injection Hb as <-. now apply leb_refl.
  - injection Ha as <-. apply nth_error_In in Hb.
    now apply (proj1 (Forall_forall _ _) Hall).
  - apply (IH Hl i j); [lia|assumption..].
Qed.

(** ** Quartiles and outliers *)

Lemma nth_error_defined (A : Type) (l : list A) (i : nat) :
  i < length l -> exists x, nth_error l i = Some x.
Proof.
  intros Hi. destruct (nth_error l i) as [x|] eqn:Hx; [now exists x|].
  apply nth_error_None in Hx. lia.
Qed.

Lemma quartile_indices (count : nat) :
  0 < count -> count / 4 < count /\ 3 * count / 4 < count.
Proof.
  intros Hn. split; apply Nat.Div0.div_lt_upper_bound; lia.
Qed.

(** C6. For a numeric column, [numericValues] are the parsed values
    that are numbers.  When there is one at least, [sorted] holds the same
    values in ascending order (no value is above a later one), [q1] and
    [q3] are the entries of [sorted] at the indices [floor(n * 0.25)] and
    [floor(n * 0.75)], with no interpolation, [iqr] is their difference,
    the fences are [q1 - 1.5 * iqr] and [q3 + 1.5 * iqr], and the outliers
    are exactly the values below the lower or above the upper fence.  For
    the values 1, 2, 3, 4, 100 this gives Q1 = 2, Q3 = 4, IQR = 2, the
    upper fence 7 and the one outlier 100. *)
Theorem quartiles_and_outliers (Math_pow : float -> float -> float) :
  (forall parsed : list float,
     let numericValues := filter (fun v => negb (is_nan v)) parsed in
     numericValues <> [] ->
     let s := numericSummary Math_pow numericValues in
     let count := length numericValues in
     Permutation (sorted s) numericValues
     /\ ascending (sorted s)
     /\ exists a b,
          nth_error (sorted s) (count / 4) = Some a
          /\ nth_error (sorted s) (3 * count / 4) = Some b
          /\ (a <=? b)%float = true
          /\ q1 s = Some a /\ q3 s = Some b
          /\ iqr s = (b - a)%float
          /\ lowerBound s = (a - 1.5 * (b - a))%float
          /\ upperBound s = (b + 1.5 * (b - a))%float
          /\ forall v,
               In v (outliers s) <->
               In v numericValues
               /\ ((v <? lowerBound s)%float = true
                   \/ (upperBound s <? v)%float = true))
  /\ (let s := numericSummary Math_pow [1; 2; 3; 4; 100]%float in
      sorted s = [1; 2; 3; 4; 100]%float
      /\ q1Index s = 1 /\ q3Index s = 3
      /\ q1 s = Some 2%float /\ q3 s = Some 4%float
      /\ iqr s = 2%float /\ upperBound s = 7%float
      /\ outliers s = [100%float]).
Proof.
  split.
  - intros parsed numericValues Hne s count.
    assert (Hcount : 0 < count)
      by (subst count; destruct numericValues; [congruence|cbn; lia]).
    assert (Hlen : length (sorted s) = count)
      by apply sortWith_length.
    assert (Hperm : Permutation (sorted s) numericValues)
      by apply sortWith_perm.
    assert (Hnum : Forall (fun v => is_nan v = false) (sorted s)).
    { apply (Permutation_Forall (Permutation_sym Hperm)).
      apply Forall_forall. intros v [_ Hv]%filter_In.
      now apply negb_true_iff. }
    assert (Hasc : ascending (sorted s)).
    { apply sorted_ascending; [exact Hnum|].
      apply sortWith_sorted, numberAfter_asym. }
    destruct (quartile_indices Hcount) as [H1 H3].
    destruct (@nth_error_defined _ (sorted s) (count / 4)) as [a Ha];
      [lia|].
    destruct (@nth_error_defined _ (sorted s) (3 * count / 4)) as [b Hb];
      [lia|].
    split; [exact Hperm|]. split; [exact Hasc|].
    exists a, b.
    assert (Hq1 : q1 s = Some a) by exact Ha.
    assert (Hq3 : q3 s = Some b) by exact Hb.
    assert (Hiqr : iqr s = (b - a)%float).
    { change (iqr s) with (toNumber (q3 s) - toNumber (q1 s))%float.
      now rewrite Hq1, Hq3. }
    assert (Hab : (a <=? b)%float = true).
    { assert (Hle : count / 4 <= 3 * count / 4)
        by (apply Nat.Div0.div_le_mono; lia).
      now apply (@ascending_nth (sorted s) Hnum Hasc _ _ a b Hle). }
    repeat (split; [assumption|]).
    split.
    { change (lowerBound s)
        with (toNumber (q1 s) - 1.5 * iqr s)%float.
      now rewrite Hq1, Hiqr. }
    split.
    { change (upperBound s)
        with (toNumber (q3 s) + 1.5 * iqr s)%float.
      now rewrite Hq3, Hiqr. }
    intros v.
    change (outliers s)
      with (filter (fun v => (v <? lowerBound s)%float
                             || (upperBound s <? v)%float) numericValues).
    rewrite filter_In, orb_true_iff. reflexivity.
  - cbv zeta. repeat split; reflexivity.
Qed.

(** [quartiles_and_outliers] at the column 100, 3, 1, 4, 2, of which one
    more cell does not parse: the five values in ascending order, the
    quartiles at the indices 1 and 3, their difference, the fences and
    the outliers. *)
Lemma quartiles_and_outliers_witness :
  let numericValues := [100; 3; 1; 4; 2]%float in
  let s := numericSummary square numericValues in
  Permutation (sorted s) numericValues
  /\ ascending (sorted s)
  /\ exists a b,
       nth_error (sorted s) 1 = Some a
       /\ nth_error (sorted s) 3 = Some b
       /\ (a <=? b)%float = true
       /\ q1 s = Some a /\ q3 s = Some b
       /\ iqr s = (b - a)%float
       /\ lowerBound s = (a - 1.5 * (b - a))%float
       /\ upperBound s = (b + 1.5 * (b - a))%float
       /\ forall v,
            In v (outliers s) <->
            In v numericValues
            /\ ((v <? lowerBound s)%float = true
                \/ (upperBound s <? v)%float = true).
Proof.
  intros numericValues s.
  destruct (quartiles_and_outliers square) as [H _].
  apply (H [100; 3; nan; 1; 4; 2]%float).
  discriminate.
Defined.

(** ** The profiling call returns *)

Lemma toLocaleString_defined (l : list float) (i : nat) :
  i < length l -> exists x, toLocaleString (nth_error l i) = Normal x.
Proof.
  intros Hi. destruct (nth_error_defined l Hi) as [x Hx].
  exists x. now rewrite Hx.
Qed.

(** Nothing that the sentences of a numeric variable render is
    [undefined]. *)
Lemma renderNumeric_normal (Math_pow : float -> float -> float)
  (numericValues : list float) :
  0 < length numericValues ->
  renderNumeric (numericSummary Math_pow numericValues) = Normal tt.
Proof.
  intros Hn.
  set (s := numericSummary Math_pow numericValues).
  assert (Hlen : length (sorted s) = length numericValues)
    by apply sortWith_length.
  destruct (quartile_indices Hn) as [H1 H3].
  unfold renderNumeric.
  destruct (@toLocaleString_defined (sorted s) 0) as [x0 E0]; [lia|].
  change (min s) with (nth_error (sorted s) 0). rewrite E0. cbn [bind].
  destruct (@toLocaleString_defined (sorted s) (length (sorted s) - 1))
    as [x1 E1]; [lia|].
  change (max s) with (nth_error (sorted s) (length (sorted s) - 1)).
  rewrite E1. cbn [bind].
  assert (Hmed : exists x, toLocaleString (median s) = Normal x).
  { change (median s)
      with (if length (sorted s) mod 2 =? 0
            then Some ((toNumber (nth_error (sorted s)
                                    (length (sorted s) / 2 - 1))
                        + toNumber (nth_error (sorted s)
                                      (length (sorted s) / 2))) / 2)%float
            else nth_error (sorted s) (length (sorted s) / 2)).
    destruct (length (sorted s) mod 2 =? 0); [eexists; reflexivity|].
    apply toLocaleString_defined.
    apply Nat.Div0.div_lt_upper_bound. lia. }
  destruct Hmed as [x2 E2]. rewrite E2. cbn [bind].
  destruct (0 <? length (outliers s)); [|reflexivity].
  destruct (@toLocaleString_defined (sorted s) (length numericValues / 4))
    as [x3 E3]; [lia|].
  change (q1 s) with (nth_error (sorted s) (length numericValues / 4)).
  rewrite E3. cbn [bind].
  destruct (@toLocaleString_defined (sorted s)
              (3 * length numericValues / 4)) as [x4 E4]; [lia|].
  change (q3 s) with (nth_error (sorted s) (3 * length numericValues / 4)).
  rewrite E4. reflexivity.
Qed.

Section Total.

Variable parseFloat : jsstring -> float.
Variable Math_pow : float -> float -> float.

Lemma analyseColumn_normal (data : TableData) (st : LoopState)
  (header : jsstring) :
  exists st', analyseColumn parseFloat Math_pow data st header = Normal st'.
Proof.
  unfold analyseColumn. cbv zeta.
  destruct (length (columnValues data header) =? 0);
    [eexists; reflexivity|].
  destruct (Nat.ltb_spec (length (columnValues data header))
              (2 * length (filter (fun v => negb (is_nan v))
                             (map parseFloat (columnValues data header)))))
    as [Hnum|Hcat]; [|eexists; reflexivity].
  rewrite renderNumeric_normal by lia. cbn [bind].
  eexists. reflexivity.
Qed.

Lemma forOf_normal (data : TableData) (hs : list jsstring) :
  forall st, exists st',
    forOf (analyseColumn parseFloat Math_pow data) hs st = Normal st'.
Proof.
  induction hs as [|h hs IH]; intros st; cbn [forOf].
  - now exists st.
  - destruct (analyseColumn_normal data st h) as [st1 E1].
    rewrite E1. cbn [bind]. apply IH.
Qed.

(** Without rows every variable is written up as empty. *)
Lemma forOf_no_rows (data : TableData) :
  rows data = [] ->
  forall hs st,
    forOf (analyseColumn parseFloat Math_pow data) hs st
    = Normal {| variables := variables st ++ map EmptyVariable hs;
                numericColumns := numericColumns st;
                categoricalColumns := categoricalColumns st;
                skewedColumns := skewedColumns st;
                outlierColumns := outlierColumns st |}.
Proof.
  intros Hrows. induction hs as [|h hs IH]; intros st; cbn [forOf map].
  - rewrite app_nil_r. now destruct st.
  - unfold analyseColumn at 1. unfold columnValues. rewrite Hrows.
    cbn [map filterPopulated length Nat.eqb bind].
    rewrite IH. cbn [variables numericColumns categoricalColumns
                       skewedColumns outlierColumns].
    now rewrite <- app_assoc.
Qed.

End Total.

(** What is written for a variable depends on the table through the
    populated values of its column and the row count only. *)
Lemma analyseColumn_by_values (parseFloat : jsstring -> float)
  (Math_pow : float -> float -> float) (data data' : TableData)
  (st : LoopState) (header : jsstring) :
  columnValues data header = columnValues data' header ->
  rowCount data = rowCount data' ->
  analyseColumn parseFloat Math_pow data st header
  = analyseColumn parseFloat Math_pow data' st header.
Proof.
  intros Hv Hc. unfold analyseColumn, missingCount. now rewrite Hv, Hc.
Qed.

(** C5, as the code has it.  The profiling call never fails: for every
    dataset, with or without columns and rows, it returns a report.  For a
    dataset without rows the report describes every column as empty. *)
Theorem generateInsights_total (parseFloat : jsstring -> float)
  (Math_pow : float -> float -> float) (data : TableData) :
  (exists report, generateInsights parseFloat Math_pow data = Normal report)
  /\ (rows data = [] ->
      exists report,
        generateInsights parseFloat Math_pow data = Normal report
        /\ reportVariables report = map EmptyVariable (headers data)).
Proof.
  unfold generateInsights. split.
  - destruct (forOf_normal parseFloat Math_pow data (headers data)
                initialState) as [st E].
    rewrite E. cbn [bind]. eexists. reflexivity.
  - intros Hrows. rewrite forOf_no_rows by exact Hrows.
    cbn [bind]. eexists. split; reflexivity.
Qed.

(** [generateInsights_total] at a dataset of a header row only. *)
Lemma generateInsights_total_witness :
  exists report,
    generateInsights parseDecimal square headerOnly = Normal report
    /\ reportVariables report
       = [EmptyVariable (lit "age"); EmptyVariable (lit "city")].
Proof.
  apply (generateInsights_total parseDecimal square headerOnly).
  reflexivity.
Defined.

(** C5, as the specification has it, fails: a dataset without columns is
    profiled like any other, and the call returns. *)
Lemma zero_columns_do_not_fail :
  headers zeroColumns = [] /\ ~ fails parseDecimal square zeroColumns.
Proof.
  split; [reflexivity|].
  intros [e He]. vm_compute in He. discriminate He.
Qed.

(** ** Empty cells *)

Lemma eqb_eq (s t : jsstring) : eqb s t = true <-> s = t.
Proof.
  revert t. induction s as [|c s IH]; intros [|d t]; cbn [eqb];
    try (split; [discriminate|congruence]); [tauto|].
  rewrite andb_true_iff, N.eqb_eq, IH.
  split; [intros [-> ->]; reflexivity|intros H; now injection H].
Qed.

Lemma eqb_neq (s t : jsstring) : s <> t -> eqb s t = false.
Proof.
  intros Hne. destruct (eqb s t) eqn:E; [|reflexivity].
  now apply eqb_eq in E.
Qed.

(** The guard [!cell ||] changes nothing: the empty string trims to
    itself. *)
Lemma isEmptyCell_trimsToEmpty (cell : jsstring) :
  isEmptyCell cell = trimsToEmpty cell.
Proof. destruct cell; reflexivity. Qed.

Lemma isPopulated_present (cell : jsstring) :
  isPopulated (Some cell) = negb (trimsToEmpty cell).
Proof.
  destruct cell as [|c t]; [reflexivity|].
  unfold isPopulated, trimsToEmpty. now destruct (trim (c :: t)).
Qed.

Lemma emptyCount_fold (rws : list (list jsstring)) (acc : nat) :
  fold_left (fun count row => count + length (filter isEmptyCell row))
    rws acc
  = acc + length (filter isEmptyCell (concat rws)).
Proof.
  revert acc. induction rws as [|r rws IH]; intros acc;
    cbn [fold_left concat]; [cbn; lia|].
  rewrite IH, filter_app, length_app. lia.
Qed.

Lemma emptyCount_cells (data : TableData) :
  emptyCount data = length (filter trimsToEmpty (cells data)).
Proof.
  unfold emptyCount, cells. rewrite emptyCount_fold. cbn [Nat.add].
  f_equal. apply filter_ext, isEmptyCell_trimsToEmpty.
Qed.

Lemma indexOf_position (hs : list jsstring) :
  NoDup hs ->
  forall j h, nth_error hs j = Some h -> indexOf h hs = Some j.
Proof.
  induction 1 as [|y hs Hnotin _ IH]; intros j h Hj.
  - destruct j; discriminate.
  - cbn [indexOf]. destruct j as [|j]; cbn [nth_error] in Hj.
    + injection Hj as ->.
      now rewrite (proj2 (eqb_eq h h) eq_refl).
    + rewrite eqb_neq.
      * now rewrite (IH j h Hj).
      * intros ->. apply Hnotin. eapply nth_error_In. exact Hj.
Qed.

Lemma filterPopulated_column (j : nat) (rws : list (list jsstring)) :
  Forall (fun row => j < length row) rws ->
  filterPopulated (map (fun row => nth_error row j) rws)
  = filter (fun c => negb (trimsToEmpty c))
      (map (fun row => nth j row []) rws).
Proof.
  induction 1 as [|row rws Hrow _ IH]; [reflexivity|].
  cbn [map filterPopulated filter].
  rewrite (nth_error_nth' row [] Hrow), isPopulated_present, IH.
  reflexivity.
Qed.

Lemma filter_partition_length (A : Type) (f : A -> bool) (l : list A) :
  length (filter f l) + length (filter (fun x => negb (f x)) l) = length l.
Proof.
  induction l as [|x l IH]; [reflexivity|].
  cbn [filter]. destruct (f x); cbn [negb length]; lia.
Qed.

Lemma list_sum_zero (A : Type) (l : list A) :
  list_sum (map (fun _ => 0) l) = 0.
Proof. induction l; [reflexivity|exact IHl]. Qed.

Lemma list_sum_map_add (A : Type) (f g : A -> nat) (l : list A) :
  list_sum (map (fun x => f x + g x) l)
  = list_sum (map f l) + list_sum (map g l).
Proof.
  induction l as [|x l IH]; [reflexivity|].
  cbn [map list_sum fold_right] in *. unfold list_sum in *. lia.
Qed.

(** Counting the cells of a row that satisfy [f], index by index. *)
Lemma count_by_index (f : jsstring -> bool) (row : list jsstring) :
  list_sum (map (fun j => if f (nth j row []) then 1 else 0)
              (seq 0 (length row)))
  = length (filter f row).
Proof.
  induction row as [|c row IH]; [reflexivity|].
  cbn [length seq map]. rewrite <- seq_shift, map_map.
  cbn [nth filter]. unfold list_sum in *. cbn [fold_right].
  rewrite IH. destruct (f c); reflexivity.
Qed.

(** Counting by rows and counting by columns agree on a rectangular
    table. *)
Lemma count_rows_columns (f : jsstring -> bool) (width : nat)
  (rws : list (list jsstring)) :
  Forall (fun row => length row = width) rws ->
  length (filter f (concat rws))
  = list_sum (map (fun j => length (filter f
                                      (map (fun row => nth j row []) rws)))
                (seq 0 width)).
Proof.
  induction 1 as [|row rws Hrow _ IH].
  - cbn [concat filter length map]. now rewrite list_sum_zero.
  - cbn [concat]. rewrite filter_app, length_app, IH.
    rewrite <- (count_by_index f row), Hrow, <- list_sum_map_add.
    f_equal. apply map_ext. intros j. cbn [map filter].
    unfold jsstring.
    match goal with
    | |- context [if ?b then 1 else 0] => destruct b; reflexivity
    end.
Qed.

Lemma map_by_index (A B : Type) (f : A -> B) (l : list A) :
  forall (g : nat -> B),
    (forall j x, nth_error l j = Some x -> f x = g j) ->
    map f l = map g (seq 0 (length l)).
Proof.
  induction l as [|x l IH]; intros g Hfg; [reflexivity|].
  cbn [length seq map]. rewrite (Hfg 0 x eq_refl). f_equal.
  rewrite <- seq_shift, map_map.
  apply IH. intros j y Hy. now apply (Hfg (S j)).
Qed.

Lemma sumZ_of_nat (l : list nat) :
  sumZ (map Z.of_nat l) = Z.of_nat (list_sum l).
Proof.
  induction l as [|x l IH]; [reflexivity|].
  cbn [map sumZ fold_right list_sum] in *. unfold sumZ, list_sum in *.
  lia.
Qed.

Lemma isPopulated_iff (val : option jsstring) :
  isPopulated val = true <-> exists cell, val = Some cell /\ trim cell <> [].
Proof.
  destruct val as [cell|]; cbn [isPopulated].
  - fold (isPopulated (Some cell)). rewrite isPopulated_present.
    unfold trimsToEmpty. split.
    + intros H. exists cell. split; [reflexivity|].
      destruct (trim cell); [discriminate|congruence].
    + intros (c & Hc & Ht). injection Hc as <-.
      destruct (trim cell); [congruence|reflexivity].
  - split; [discriminate|]. intros (c & Hc & _). discriminate.
Qed.

(** One notion of an empty cell, that its content trims to the empty
    string, rules all counts of the profiler.  The guard of the
    completeness count, [!cell || !cell.trim()], holds exactly of such
    cells, and the filter of the column values, [val && val.trim()],
    exactly of the other cells; so [emptyCount] is the number of empty
    cells.  In a well-formed dataset the values of a column, from which
    its kind, its cardinality and its statistics are computed, are its
    cells without the empty ones, in row order, the missing-value count of
    the column is the number of its empty cells, and the missing-value
    counts of all columns add up to [emptyCount]. *)
Theorem empty_cells_consistent (data : TableData) :
  (forall cell, isEmptyCell cell = true <-> trim cell = [])
  /\ (forall val,
        isPopulated val = true
        <-> exists cell, val = Some cell /\ trim cell <> [])
  /\ emptyCount data = length (filter trimsToEmpty (cells data))
  /\ (wellFormed data ->
      (forall j header,
         nth_error (headers data) j = Some header ->
         columnValues data header
         = filter (fun c => negb (trimsToEmpty c)) (column j data)
         /\ missingCount data header
            = Z.of_nat (length (filter trimsToEmpty (column j data))))
      /\ Z.of_nat (emptyCount data)
         = sumZ (map (missingCount data) (headers data))).
Proof.
  split.
  { intros cell. rewrite isEmptyCell_trimsToEmpty. unfold trimsToEmpty.
    destruct (trim cell); split; congruence. }
  split; [apply isPopulated_iff|].
  split; [apply emptyCount_cells|].
  intros (Hcount & Hrect & Hnodup).
  assert (Hcol : forall j header,
            nth_error (headers data) j = Some header ->
            columnValues data header
            = filter (fun c => negb (trimsToEmpty c)) (column j data)).
  { intros j header Hj. unfold columnValues, column.
    rewrite (indexOf_position Hnodup j Hj). cbn [cellAt].
    apply filterPopulated_column.
    assert (Hlt : j < length (headers data))
      by (apply nth_error_Some; congruence).
    eapply Forall_impl; [|exact Hrect]. cbn beta. intros row ->. exact Hlt. }
  assert (Hmiss : forall j header,
            nth_error (headers data) j = Some header ->
            missingCount data header
            = Z.of_nat (length (filter trimsToEmpty (column j data)))).
  { intros j header Hj. unfold missingCount.
    rewrite (Hcol j header Hj), Hcount.
    pose proof (filter_partition_length trimsToEmpty (column j data)) as Hp.
    assert (Hl : length (column j data) = length (rows data))
      by (unfold column; apply length_map).
    lia. }
  split; [intros j header Hj; split; [now apply Hcol|now apply Hmiss]|].
  rewrite (map_by_index (missingCount data) (headers data)
             (fun j => Z.of_nat (length (filter trimsToEmpty
                                           (column j data)))) Hmiss).
  rewrite <- map_map with (g := Z.of_nat), sumZ_of_nat.
  f_equal. rewrite emptyCount_cells. unfold cells, column.
  now apply count_rows_columns.
Qed.

Lemma sparse_wellFormed : wellFormed sparse.
Proof.
  split; [reflexivity|]. split.
  - repeat constructor.
  - repeat constructor; cbn; intuition discriminate.
Defined.

(** [empty_cells_consistent] at a dataset with one blank and one
    white-space cell: two empty cells, one missing value in each column. *)
Lemma empty_cells_consistent_witness :
  emptyCount sparse = 2
  /\ columnValues sparse (lit "score") = [lit "7.5"; lit "9"]
  /\ missingCount sparse (lit "score") = 1%Z
  /\ sumZ (map (missingCount sparse) (headers sparse)) = 2%Z.
Proof.
  destruct (empty_cells_consistent sparse) as (_ & _ & Hempty & Hwf).
  destruct (Hwf sparse_wellFormed) as [Hcol Hsum].
  destruct (Hcol 1 (lit "score") eq_refl) as [Hvalues Hmissing].
  split; [rewrite Hempty; reflexivity|].
  split; [rewrite Hvalues; reflexivity|].
  split; [rewrite Hmissing; reflexivity|].
  rewrite <- Hsum, Hempty. reflexivity.
Defined.

(** C10 fails where two columns have the same header.  The loop over the
    headers finds the column of a header with [indexOf], which answers
    with the first column of that name, so the second column [score] is
    written up with the cells of the first.  Its one cell is empty and is
    counted as empty in the completeness, which is 50 percent, but it is
    not counted as missing for its column, whose values are given as the
    7 of the first column: the missing-value counts are 0 and 0. *)
Theorem repeated_header_hides_empty_cell :
  Table.processSheet
    [[Table.JsOther (lit "score"); Table.JsOther (lit "score")];
     [Table.JsOther (lit "7"); Table.JsOther (lit " ")]]
  = Some repeatedHeader
  /\ column 1 repeatedHeader = [lit ""]
  /\ isEmptyCell (lit "") = true
  /\ emptyCount repeatedHeader = 1
  /\ completeness repeatedHeader = 50%float
  /\ map (columnValues repeatedHeader) (headers repeatedHeader)
     = [[lit "7"]; [lit "7"]]
  /\ map (missingCount repeatedHeader) (headers repeatedHeader)
     = [0; 0]%Z
  /\ exists report,
       generateInsights parseDecimal square repeatedHeader = Normal report
       /\ reportCompleteness report = 50%float
       /\ reportVariables report
          = [NumericVariable (lit "score")
               (numericSummary square [7%float]) 0;
             NumericVariable (lit "score")
               (numericSummary square [7%float]) 0].
Proof.
  repeat (split; [vm_compute; reflexivity|]).
  eexists. split; [vm_compute; reflexivity|].
  split; vm_compute; reflexivity.
Qed.

(** ** Completeness *)


(** C8 fails on a dataset without rows.  For a header row only,
    [totalCells] is 0 and the quotient is 0 / 0: the completeness is [NaN],
    which is neither within 0 and 100 nor equal to 100, although no cell
    is empty.  The report carries that value. *)
Theorem completeness_without_rows_is_nan :
  wellFormed headerOnly
  /\ emptyCount headerOnly = 0
  /\ is_nan (completeness headerOnly) = true
  /\ (0 <=? completeness headerOnly)%float = false
  /\ (completeness headerOnly <=? 100)%float = false
  /\ (completeness headerOnly =? 100)%float = false
  /\ exists report,
       generateInsights parseDecimal square headerOnly = Normal report
       /\ is_nan (reportCompleteness report) = true.
Proof.
  split.
  { split; [reflexivity|]. split; [constructor|].
    repeat constructor; cbn; intuition discriminate. }
  repeat (split; [reflexivity|]).
  eexists. split; reflexivity.
Qed.

(** Where there are cells the quotient is as expected: all cells of the
    example of the specification are populated, and two of the six cells
    of [sparse] are empty. *)
Lemma completeness_examples :
  completeness ageCity = 100%float
  /\ completeness sparse = ((4 / 6) * 100)%float.
Proof. split; reflexivity. Qed.

(** ** Duplicate rows *)

Lemma join_cons (sep c : jsstring) (suf : list jsstring) :
  join sep (c :: suf) = c ++ concat (map (fun q => sep ++ q) suf).
Proof.
  revert c. induction suf as [|d suf IH]; intros c.
  - cbn. now rewrite app_nil_r.
  - change (join sep (c :: d :: suf)) with (c ++ sep ++ join sep (d :: suf)).
    rewrite IH. cbn [map concat]. now rewrite <- app_assoc.
Qed.

(** The joined text of a row, around one of its cells. *)
Lemma join_cell (sep c : jsstring) (pre suf : list jsstring) :
  join sep (pre ++ c :: suf)
  = concat (map (fun p => p ++ sep) pre) ++ c
    ++ concat (map (fun q => sep ++ q) suf).
Proof.
  induction pre as [|p pre IH]; [apply join_cons|].
  cbn [app map concat]. rewrite <- !app_assoc, <- IH.
  destruct pre; reflexivity.
Qed.

(** Two rows that differ in exactly one cell are joined to different
    texts, and so are not counted as duplicates of each other. *)
Lemma one_cell_difference (c1 c2 : jsstring) (pre suf : list jsstring) :
  c1 <> c2 ->
  join (lit "|") (pre ++ c1 :: suf) <> join (lit "|") (pre ++ c2 :: suf).
Proof.
  intros Hne H. rewrite !join_cell in H.
  apply app_inv_head, app_inv_tail in H. contradiction.
Qed.

Lemma setSize_perm (l l' : list jsstring) :
  Permutation l l' -> setSize l = setSize l'.
Proof.
  intros Hp. unfold setSize. apply Permutation_length.
  apply NoDup_Permutation; try apply NoDup_nodup.
  intros x. rewrite !nodup_In.
  split; apply Permutation_in; [exact Hp|now symmetry].
Qed.

(** The count does not depend on the order of the rows. *)
Lemma duplicates_reorder (data data' : TableData) :
  Permutation (rows data) (rows data') ->
  rowCount data = rowCount data' ->
  duplicates data = duplicates data'.
Proof.
  intros Hp Hc. unfold duplicates, rowStrings.
  rewrite Hc. do 2 f_equal.
  apply setSize_perm. now apply Permutation_map.
Qed.

Lemma nodup_length_le (l : list jsstring) :
  length (nodup jsstring_eq_dec l) <= length l.
Proof.
  induction l as [|x l IH]; [reflexivity|].
  cbn [nodup]. destruct (in_dec jsstring_eq_dec x l); cbn [length]; lia.
Qed.

Lemma nodup_length_lt (l : list jsstring) :
  ~ NoDup l -> length (nodup jsstring_eq_dec l) < length l.
Proof.
  induction l as [|x l IH]; intros Hd.
  - exfalso. apply Hd. constructor.
  - cbn [nodup]. destruct (in_dec jsstring_eq_dec x l) as [Hin|Hnot].
    + pose proof (nodup_length_le l). cbn [length]. lia.
    + cbn [length]. apply -> Nat.succ_lt_mono. apply IH.
      intros Hl. apply Hd. now constructor.
Qed.

(** A row that occurs twice is counted. *)
Lemma repeated_row_counted (data : TableData) :
  rowCount data = length (rows data) ->
  ~ NoDup (rows data) ->
  (0 < duplicates data)%Z.
Proof.
  intros Hc Hd. unfold duplicates, setSize, rowStrings.
  assert (Hs : ~ NoDup (map (join (lit "|")) (rows data)))
    by (intros Hn; apply Hd; eapply NoDup_map_inv; exact Hn).
  apply nodup_length_lt in Hs. rewrite length_map in Hs. lia.
Qed.

(** C7 fails where cells contain the bar the rows are joined with.  The
    rows [a|, b] and [a, |b] differ in both cells and are both joined to
    [a||b], so one of them is counted as a duplicate of the other. *)
Theorem joined_rows_collide :
  rows barRows = [[lit "a|"; lit "b"]; [lit "a"; lit "|b"]]
  /\ lit "a|" <> lit "a" /\ lit "b" <> lit "|b"
  /\ ~ sameCells [lit "a|"; lit "b"] [lit "a"; lit "|b"]
  /\ rowStrings barRows = [lit "a||b"; lit "a||b"]
  /\ duplicates barRows = 1%Z.
Proof.
  repeat split; try reflexivity; discriminate.
Qed.

(** The example of the specification: three rows of which the first and
    the third are equal, a numeric column of median 34 and a categorical
    column of two categories. *)
Lemma ageCity_example :
  duplicates ageCity = 1%Z
  /\ missingCount ageCity (lit "age") = 0%Z
  /\ exists report age city,
       generateInsights parseDecimal square ageCity = Normal report
       /\ reportVariables report
          = [NumericVariable (lit "age") age 0;
             CategoricalVariable (lit "city") city 0]
       /\ n age = 3 /\ median age = Some 34%float
       /\ cardinality city = 2.
Proof.
  split; [reflexivity|]. split; [reflexivity|].
  do 3 eexists. repeat split; reflexivity.
Qed.

End ProfilerFacts.

(* ================================================================== *)
(** * Properties of the text helpers *)
(* ================================================================== *)

Module TextFacts.

Import JS Text TableSpec.

(** ** [trim] *)

Lemma trimStart_length (s : jsstring) : length (trimStart s) <= length s.
Proof.
  induction s as [|c s IH]; [reflexivity|].
  cbn [trimStart]. destruct (isWhiteSpace c); cbn [length]; lia.
Qed.

Lemma trim_length (s : jsstring) : length (trim s) <= length s.
Proof.
  unfold trim, trimEnd. rewrite length_rev.
  etransitivity; [apply trimStart_length|].
  rewrite length_rev. apply trimStart_length.
Qed.

(** What [trimStart] drops is white space. *)
Lemma trimStart_split (s : jsstring) :
  exists pre, s = pre ++ trimStart s /\ forallb isWhiteSpace pre = true.
Proof.
  induction s as [|c s (pre & Hs & Hpre)].
  - exists []. split; reflexivity.
  - cbn [trimStart]. destruct (isWhiteSpace c) eqn:Hc.
    + exists (c :: pre). cbn [app forallb]. rewrite Hc, Hpre.
      split; [now f_equal|reflexivity].
    + exists []. split; reflexivity.
Qed.

Lemma trimStart_head (s : jsstring) :
  match trimStart s with
  | [] => True
  | c :: _ => isWhiteSpace c = false
  end.
Proof.
  induction s as [|c s IH]; [exact I|].
  cbn [trimStart]. destruct (isWhiteSpace c) eqn:Hc; [exact IH|exact Hc].
Qed.

Lemma trimStart_fixed (s : jsstring) :
  match s with
  | [] => True
  | c :: _ => isWhiteSpace c = false
  end ->
  trimStart s = s.
Proof.
  destruct s as [|c s]; [reflexivity|]. cbn [trimStart]. now intros ->.
Qed.

Lemma trimStart_idempotent (s : jsstring) :
  trimStart (trimStart s) = trimStart s.
Proof. apply trimStart_fixed, trimStart_head. Qed.

Lemma trimEnd_idempotent (s : jsstring) : trimEnd (trimEnd s) = trimEnd s.
Proof.
  unfold trimEnd. now rewrite rev_involutive, trimStart_idempotent.
Qed.

(** Trimming the end leaves a trimmed start alone. *)
Lemma trimStart_trimEnd (s : jsstring) :
  trimStart s = s -> trimStart (trimEnd s) = trimEnd s.
Proof.
  intros Hs. unfold trimEnd.
  destruct (trimStart_split (rev s)) as (pre & Hrev & _).
  destruct (trimStart (rev s)) as [|c u] eqn:Hu; [reflexivity|].
  apply trimStart_fixed.
  assert (Hsplit : s = rev (c :: u) ++ rev pre).
  { rewrite <- rev_app_distr, <- Hrev. now rewrite rev_involutive. }
  pose proof (trimStart_head s) as Hhead. rewrite Hs in Hhead.
  destruct (rev (c :: u)) as [|d w] eqn:Hw.
  - apply (f_equal (@length N)) in Hw. rewrite length_rev in Hw.
    discriminate Hw.
  - rewrite Hsplit in Hhead. exact Hhead.
Qed.

(** What [trim] returns is trimmed. *)
Lemma trim_idempotent (s : jsstring) : trim (trim s) = trim s.
Proof.
  unfold trim.
  rewrite (trimStart_trimEnd (trimStart_idempotent s)).
  apply trimEnd_idempotent.
Qed.

Lemma trimStart_line_feeds (k : nat) (s : jsstring) :
  trimStart (repeat 10%N k ++ s) = trimStart s.
Proof. induction k as [|k IH]; [reflexivity|exact IH]. Qed.

Lemma trim_line_feeds (k : nat) (s : jsstring) :
  trim (repeat 10%N k ++ s) = trim s.
Proof. unfold trim. now rewrite trimStart_line_feeds. Qed.

(** ** [chunkText] *)

Lemma chunkStep_invariant (maxChunkSize : nat) (ps : list jsstring)
  (st : list jsstring * jsstring) (paragraph : jsstring) :
  In paragraph ps ->
  (forall c, In c (fst st) ->
     trim c = c
     /\ (length c <= maxChunkSize + 2 \/ exists p, In p ps /\ c = trim p)) ->
  (snd st = [] \/ In (snd st) ps \/ length (snd st) <= maxChunkSize + 2) ->
  let st' := chunkStep maxChunkSize st paragraph in
  (forall c, In c (fst st') ->
     trim c = c
     /\ (length c <= maxChunkSize + 2 \/ exists p, In p ps /\ c = trim p))
  /\ (snd st' = [] \/ In (snd st') ps
      \/ length (snd st') <= maxChunkSize + 2).
Proof.
  destruct st as [chunks cur]. cbn [fst snd]. intros Hp Hchunks Hcur.
  unfold chunkStep.
  destruct (Nat.ltb_spec maxChunkSize (length (cur ++ paragraph)))
    as [Hbig|Hfits];
    destruct (Nat.ltb_spec 0 (length cur)) as [Hpos|Hzero];
    cbn [andb fst snd].
  - split; [|now right; left].
    intros c [Hc|Hc]%in_app_or; [now apply Hchunks|].
    destruct Hc as [<-|[]]. split; [apply trim_idempotent|].
    destruct Hcur as [->|[Hin|Hlen]].
    + left. cbn. lia.
    + right. now exists cur.
    + left. pose proof (trim_length cur). lia.
  - split; [exact Hchunks|]. right; left.
    destruct cur; [exact Hp|cbn [length] in Hzero; lia].
  - split; [exact Hchunks|]. right; right.
    rewrite length_app in Hfits. unfold appendParagraph.
    rewrite !length_app.
    destruct (0 <? length cur); rewrite ?length_app;
      change (length nl) with 1; cbn [length]; lia.
  - split; [exact Hchunks|]. right; left.
    destruct cur; [exact Hp|cbn [length] in Hzero; lia].
Qed.

Lemma chunk_fold_invariant (maxChunkSize : nat) (ps : list jsstring) :
  forall (l : list jsstring) (st : list jsstring * jsstring),
    incl l ps ->
    (forall c, In c (fst st) ->
       trim c = c
       /\ (length c <= maxChunkSize + 2
           \/ exists p, In p ps /\ c = trim p)) ->
    (snd st = [] \/ In (snd st) ps
     \/ length (snd st) <= maxChunkSize + 2) ->
    let st' := fold_left (chunkStep maxChunkSize) l st in
    (forall c, In c (fst st') ->
       trim c = c
       /\ (length c <= maxChunkSize + 2
           \/ exists p, In p ps /\ c = trim p))
    /\ (snd st' = [] \/ In (snd st') ps
        \/ length (snd st') <= maxChunkSize + 2).
Proof.
  induction l as [|p l IH]; intros st Hincl Hchunks Hcur; cbn [fold_left].
  - now split.
  - destruct (@chunkStep_invariant maxChunkSize ps st p) as [H1 H2];
      [apply Hincl; now left|assumption|assumption|].
    apply IH; [|assumption|assumption].
    intros x Hx. apply Hincl. now right.
Qed.

(** Every chunk is trimmed, and is either a single paragraph, whatever its
    length, or at most two code units longer than [maxChunkSize]: the size
    check leaves the blank line between two paragraphs out. *)
Theorem chunkText_bound (text : jsstring) (maxChunkSize : nat) :
  forall c, In c (chunkText text maxChunkSize) ->
    trim c = c
    /\ (length c <= maxChunkSize + 2
        \/ exists p, In p (paragraphsOf text) /\ c = trim p).
Proof.
  unfold chunkText.
  destruct (@chunk_fold_invariant maxChunkSize (paragraphsOf text)
              (paragraphsOf text) ([], []))
    as [Hchunks Hcur]; cbn [fst snd];
    [apply incl_refl|intros c []|now left|].
  destruct (fold_left _ _ _) as [chunks cur]. cbn [fst snd] in *.
  destruct (trim cur) as [|x r] eqn:Htrim; [exact Hchunks|].
  intros c [Hc|Hc]%in_app_or; [now apply Hchunks|].
  destruct Hc as [<-|[]]. rewrite <- Htrim.
  split; [apply trim_idempotent|].
  destruct Hcur as [->|[Hin|Hlen]].
  - discriminate Htrim.
  - right. now exists cur.
  - left. pose proof (trim_length cur). lia.
Qed.

(** The bound is reached: two paragraphs of 4 and 6 code units pass the
    check for a chunk of 10 and make a chunk of 12. *)
Lemma chunkText_bound_reached :
  chunkText (lit "aaaa" ++ nl ++ nl ++ lit "bbbbbb") 10
  = [lit "aaaa" ++ nl ++ nl ++ lit "bbbbbb"].
Proof. reflexivity. Qed.

Lemma splitBlankLines_nonempty (b : bool) (s : jsstring) :
  splitBlankLines b s <> [].
Proof.
  revert b. induction s as [|c s IH]; intros b; cbn [splitBlankLines];
    [discriminate|].
  destruct (b && (c =? 10)%N); [apply IH|].
  destruct ((c =? 10)%N && _); [discriminate|].
  destruct (splitBlankLines false s); discriminate.
Qed.

Lemma join_cons_nonempty (sep p : jsstring) (l : list jsstring) :
  l <> [] -> join sep (p :: l) = p ++ sep ++ join sep l.
Proof. destruct l; [congruence|reflexivity]. Qed.

Lemma join_head_length (sep h : jsstring) (c : N) (r : list jsstring) :
  length (join sep ((c :: h) :: r)) = S (length (join sep (h :: r))).
Proof. destruct r; reflexivity. Qed.

(** Splitting at blank lines and joining with one blank line does not
    make a text longer. *)
Lemma paragraphs_length (n : nat) :
  forall (s : jsstring) (b : bool),
    length s <= n ->
    length (join (nl ++ nl) (splitBlankLines b s)) <= length s.
Proof.
  induction n as [|n IH]; intros s b Hn.
  - destruct s; [reflexivity|cbn in Hn; lia].
  - destruct s as [|c t]; [reflexivity|].
    cbn [length] in Hn. cbn [splitBlankLines].
    destruct (b && (c =? 10)%N).
    { etransitivity; [apply IH; lia|cbn [length]; lia]. }
    destruct t as [|d t'].
    { rewrite andb_false_r. reflexivity. }
    cbn [length] in Hn.
    destruct (c =? 10)%N; cbn [andb].
    + destruct (d =? 10)%N eqn:Hd.
      * cbn [splitBlankLines andb]. rewrite Hd.
        rewrite join_cons_nonempty by apply splitBlankLines_nonempty.
        specialize (IH t' true ltac:(lia)).
        rewrite !length_app. change (length nl) with 1.
        cbn [length] in *. lia.
      * destruct (splitBlankLines false (d :: t')) as [|h r] eqn:Hs;
          [now apply splitBlankLines_nonempty in Hs|].
        rewrite join_head_length, <- Hs.
        specialize (IH (d :: t') false ltac:(cbn [length]; lia)).
        cbn [length] in *. lia.
    + destruct (splitBlankLines false (d :: t')) as [|h r] eqn:Hs;
        [now apply splitBlankLines_nonempty in Hs|].
      rewrite join_head_length, <- Hs.
      specialize (IH (d :: t') false ltac:(cbn [length]; lia)).
      cbn [length] in *. lia.
Qed.

(** Where no chunk is closed, the loop only appends. *)
Lemma chunk_fold_fits (maxChunkSize : nat) :
  forall (l chunks : list jsstring) (cur : jsstring),
    (l = [] \/ length cur + length (join (nl ++ nl) l) <= maxChunkSize) ->
    fold_left (chunkStep maxChunkSize) l (chunks, cur)
    = (chunks, fold_left appendParagraph l cur).
Proof.
  induction l as [|p l IH]; intros chunks cur Hfit; [reflexivity|].
  destruct Hfit as [Hnil|Hfit]; [discriminate|].
  cbn [fold_left]. unfold chunkStep at 2.
  assert (Hp : length (cur ++ p) <= maxChunkSize).
  { rewrite length_app. destruct l as [|q l]; [exact Hfit|].
    rewrite join_cons_nonempty in Hfit by discriminate.
    rewrite length_app in Hfit. lia. }
  destruct (Nat.ltb_spec maxChunkSize (length (cur ++ p))); [lia|].
  cbn [andb]. apply IH.
  destruct l as [|q l]; [now left|right].
  rewrite join_cons_nonempty in Hfit by discriminate.
  unfold appendParagraph.
  rewrite !length_app in *. change (length nl) with 1 in *.
  destruct (0 <? length cur); rewrite ?length_app;
    change (length nl) with 1; cbn [length] in *; lia.
Qed.

Lemma join_snoc (sep p : jsstring) (l : list jsstring) :
  l <> [] -> join sep (l ++ [p]) = join sep l ++ sep ++ p.
Proof.
  induction l as [|q l IH]; [congruence|]. intros _.
  destruct l as [|r l]; [reflexivity|].
  change ((q :: r :: l) ++ [p]) with (q :: (r :: l) ++ [p]).
  rewrite !join_cons_nonempty by (try discriminate; now destruct l).
  rewrite IH by discriminate. now rewrite <- !app_assoc.
Qed.

(** What the loop appends is the joined paragraphs without the line feeds
    in front. *)
Lemma appended_paragraphs (l : list jsstring) :
  exists k,
    join (nl ++ nl) l = repeat 10%N k ++ fold_left appendParagraph l [].
Proof.
  induction l as [|p l (k & IH)] using rev_ind; [now exists 0|].
  rewrite fold_left_app. cbn [fold_left].
  destruct l as [|q l]; [now exists 0|].
  rewrite join_snoc, IH by discriminate.
  generalize (fold_left appendParagraph (q :: l) []).
  intros [|c cur]; unfold appendParagraph.
  - exists (k + 2). rewrite repeat_app, <- !app_assoc. reflexivity.
  - exists k. now rewrite <- !app_assoc.
Qed.

(** A text that is not longer than [maxChunkSize] comes back as one chunk,
    the trimmed text with every run of blank lines made one blank line, or
    as no chunk when that is empty. *)
Theorem chunkText_fits (text : jsstring) (maxChunkSize : nat) :
  length text <= maxChunkSize ->
  chunkText text maxChunkSize
  = match trim (join (nl ++ nl) (paragraphsOf text)) with
    | [] => []
    | c :: r => [c :: r]
    end.
Proof.
  intros Hfit. unfold chunkText.
  rewrite chunk_fold_fits.
  - destruct (appended_paragraphs (paragraphsOf text)) as (k & ->).
    rewrite trim_line_feeds.
    now destruct (trim _).
  - right. cbn [length Nat.add].
    etransitivity; [|exact Hfit].
    now apply paragraphs_length with (n := length text).
Qed.

Lemma chunkText_fits_witness :
  chunkText (lit "one" ++ nl ++ nl ++ nl ++ lit "two" ++ nl) 100
  = [lit "one" ++ nl ++ nl ++ lit "two"].
Proof.
  rewrite chunkText_fits; [reflexivity|].
  cbn [length app lit list_ascii_of_string map nl]. lia.
Defined.

Lemma chunkText_bound_witness :
  trim (lit "b") = lit "b"
  /\ (length (lit "b") <= 1 + 2
      \/ exists p,
           In p (paragraphsOf (lit " a " ++ nl ++ nl ++ lit "b"))
           /\ lit "b" = trim p).
Proof.
  apply (@chunkText_bound (lit " a " ++ nl ++ nl ++ lit "b") 1).
  vm_compute. right. left. reflexivity.
Defined.

(** ** Nothing is lost in the chunks *)

Lemma visible_app (a b : jsstring) : visible (a ++ b) = visible a ++ visible b.
Proof. apply filter_app. Qed.

Lemma visible_rev (s : jsstring) : visible (rev s) = rev (visible s).
Proof.
  induction s as [|c s IH]; [reflexivity|].
  cbn [rev]. rewrite visible_app, IH. unfold visible. cbn [filter].
  destruct (isWhiteSpace c); cbn [negb rev]; [now rewrite app_nil_r|].
  reflexivity.
Qed.

Lemma visible_trimStart (s : jsstring) : visible (trimStart s) = visible s.
Proof.
  induction s as [|c s IH]; [reflexivity|].
  cbn [trimStart]. destruct (isWhiteSpace c) eqn:E; [|reflexivity].
  rewrite IH. unfold visible. cbn [filter]. now rewrite E.
Qed.

Lemma visible_trim (s : jsstring) : visible (trim s) = visible s.
Proof.
  unfold trim, trimEnd.
  now rewrite visible_rev, visible_trimStart, visible_rev, rev_involutive,
    visible_trimStart.
Qed.

Lemma visible_paragraphs (s : jsstring) :
  forall b, visible (concat (splitBlankLines b s)) = visible s.
Proof.
  induction s as [|c s IH]; intros b; [reflexivity|].
  cbn [splitBlankLines].
  destruct (b && (c =? 10)%N) eqn:E1.
  { apply andb_true_iff in E1 as [_ ->%N.eqb_eq]. now rewrite IH. }
  destruct ((c =? 10)%N && match s with
                           | d :: _ => (d =? 10)%N
                           | [] => false
                           end) eqn:E2.
  { apply andb_true_iff in E2 as [->%N.eqb_eq _]. cbn [concat app].
    now rewrite IH. }
  specialize (IH false).
  destruct (splitBlankLines false s) as [|h r] eqn:E.
  { now apply splitBlankLines_nonempty in E. }
  cbn [concat app] in *. unfold visible in *. cbn [filter].
  now rewrite IH.
Qed.

Lemma chunk_fold_visible (maxChunkSize : nat) (ps : list jsstring) :
  forall st,
    let st' := fold_left (chunkStep maxChunkSize) ps st in
    visible (concat (fst st') ++ snd st')
    = visible (concat (fst st) ++ snd st) ++ visible (concat ps).
Proof.
  induction ps as [|p ps IH]; intros [chunks cur]; cbn [fold_left concat].
  - cbn [fst snd]. now rewrite app_nil_r.
  - cbv zeta in IH. rewrite IH. rewrite (visible_app p), app_assoc.
    f_equal. unfold chunkStep.
    destruct (_ && _); cbn [fst snd].
    + rewrite concat_app. cbn [concat]. rewrite app_nil_r.
      now rewrite !visible_app, visible_trim.
    + unfold appendParagraph. rewrite !visible_app.
      destruct (0 <? length cur); rewrite ?visible_app;
        change (visible nl) with (@nil N);
        change (visible []) with (@nil N);
        cbn [app]; now rewrite <- ?app_assoc.
Qed.

(** Chunking loses nothing but white space: what is to be seen of the
    chunks, one after the other, is what is to be seen of the text. *)
Theorem chunkText_keeps_text (text : jsstring) (maxChunkSize : nat) :
  visible (concat (chunkText text maxChunkSize)) = visible text.
Proof.
  unfold chunkText, paragraphsOf.
  pose proof (chunk_fold_visible maxChunkSize
                (splitBlankLines false text) ([], [])) as H.
  cbv zeta in H. rewrite visible_paragraphs in H.
  destruct (fold_left _ _ _) as [chunks cur]. cbn [fst snd concat app] in H.
  change (visible []) with (@nil N) in H. cbn [app] in H.
  rewrite visible_app in H.
  destruct (trim cur) as [|c r] eqn:E.
  - rewrite <- H. rewrite <- (visible_trim cur), E. cbn [visible filter].
    now rewrite app_nil_r.
  - rewrite concat_app. cbn [concat]. rewrite app_nil_r, visible_app.
    rewrite <- E, visible_trim. exact H.
Qed.

(** ** [extractTables] *)

Lemma filter_not_blank (cells : list jsstring) :
  Forall (fun cell => trim cell <> [])
    (filter (fun cell => negb (isBlank cell)) cells).
Proof.
  apply Forall_forall. intros cell [_ H]%filter_In.
  unfold isBlank in H. now destruct (trim cell).
Qed.

Lemma tableStep_invariant (st : list (list jsstring) * list jsstring)
  (line : jsstring) :
  (forall table, In table (fst st) -> table <> [] /\ Forall tableRow table) ->
  Forall tableRow (snd st) ->
  let st' := tableStep st line in
  (forall table, In table (fst st') ->
     table <> [] /\ Forall tableRow table)
  /\ Forall tableRow (snd st').
Proof.
  destruct st as [tables cur]. cbn [fst snd]. intros Htables Hcur.
  unfold tableStep.
  destruct (includes (lit "  ") line || includes [9%N] line).
  - destruct (Nat.ltb_spec 1
                (length (filter (fun cell => negb (isBlank cell))
                           (splitCells false line)))) as [Hrow|Hrow];
      cbn [fst snd]; split; try assumption.
    apply Forall_app. split; [exact Hcur|].
    constructor; [|constructor].
    eexists. split; [reflexivity|]. split; [exact Hrow|].
    apply filter_not_blank.
  - destruct (Nat.ltb_spec 0 (length cur)) as [Hpos|Hzero];
      cbn [fst snd]; split; try assumption; [|constructor].
    intros table [Hin|Hin]%in_app_or; [now apply Htables|].
    destruct Hin as [<-|[]]. split; [|exact Hcur].
    destruct cur; [cbn [length] in Hpos; lia|discriminate].
Qed.

Lemma table_fold_invariant (lines : list jsstring) :
  forall st : list (list jsstring) * list jsstring,
    (forall table, In table (fst st) ->
       table <> [] /\ Forall tableRow table) ->
    Forall tableRow (snd st) ->
    let st' := fold_left tableStep lines st in
    (forall table, In table (fst st') ->
       table <> [] /\ Forall tableRow table)
    /\ Forall tableRow (snd st').
Proof.
  induction lines as [|line lines IH]; intros st Htables Hcur;
    cbn [fold_left]; [now split|].
  destruct (tableStep_invariant st line Htables Hcur) as [H1 H2].
  now apply IH.
Qed.

(** No table that [extractTables] returns is empty, and every row of every
    table has at least two cells, none of them blank. *)
Theorem extractTables_rows (text : jsstring) :
  forall table, In table (extractTables text) ->
    table <> [] /\ Forall tableRow table.
Proof.
  unfold extractTables.
  destruct (@table_fold_invariant (split 10 text) ([], []))
    as [Htables Hcur]; cbn [fst snd]; [intros t []|constructor|].
  destruct (fold_left tableStep (split 10 text) ([], []))
    as [tables cur]. cbn [fst snd] in *.
  destruct (Nat.ltb_spec 0 (length cur)) as [Hpos|Hzero];
    [|exact Htables].
  intros table [Hin|Hin]%in_app_or; [now apply Htables|].
  destruct Hin as [<-|[]]. split; [|exact Hcur].
  destruct cur; [cbn [length] in Hpos; lia|discriminate].
Qed.

Lemma extractTables_rows_witness :
  [lit "Name|Age"; lit "Bob|3"] <> []
  /\ Forall tableRow [lit "Name|Age"; lit "Bob|3"].
Proof.
  apply (@extractTables_rows
           (lit "Name   Age" ++ nl ++ lit "Bob" ++ [9%N] ++ lit "3" ++ nl
            ++ lit "text" ++ nl ++ lit "x  ")).
  vm_compute. left. reflexivity.
Defined.

Lemma includes_app_r (needle l b : jsstring) :
  includes needle l = true -> includes needle (l ++ b) = true.
Proof.
  induction l as [|c l IH]; cbn [includes app].
  - rewrite orb_false_r. intros H.
    destruct needle; [|discriminate]. now destruct b.
  - intros [H|H]%orb_true_iff.
    + change (c :: l ++ b) with ((c :: l) ++ b).
      now rewrite (PdfFacts.startsWith_app _ _ b H).
    + rewrite (IH H). apply orb_true_r.
Qed.

Lemma includes_app_l (needle a l : jsstring) :
  includes needle l = true -> includes needle (a ++ l) = true.
Proof.
  intros H. induction a as [|c a IH]; [exact H|].
  cbn [app includes]. rewrite IH. apply orb_true_r.
Qed.

(** The parts [split] returns are stretches of the text. *)
Lemma split_parts (sep : N) (s : jsstring) :
  forall l, In l (split sep s) -> exists a b, s = a ++ l ++ b.
Proof.
  enough (H : forall hd r, split sep s = hd :: r ->
                (exists b, s = hd ++ b)
                /\ forall l, In l r -> exists a b, s = a ++ l ++ b).
  { intros l Hl. destruct (split sep s) as [|hd r] eqn:Hs; [destruct Hl|].
    destruct (H hd r eq_refl) as [[b Hb] Hr].
    destruct Hl as [<-|Hl]; [now exists [], b|now apply Hr]. }
  induction s as [|c s IH]; intros hd r Hs; cbn [split] in Hs.
  - injection Hs as <- <-. split; [now exists []|intros l []].
  - destruct (c =? sep)%N.
    + injection Hs as <- <-. split; [now exists (c :: s)|].
      intros l Hl. destruct (split sep s) as [|hd' r'] eqn:Hs';
        [destruct Hl|].
      destruct (IH hd' r' eq_refl) as [[b Hb] Hr].
      destruct Hl as [<-|Hl].
      * exists [c], b. cbn [app]. now f_equal.
      * destruct (Hr l Hl) as (a & b' & ->). now exists (c :: a), b'.
    + destruct (split sep s) as [|hd' r'] eqn:Hs'.
      * now apply PdfFacts.split_nonempty in Hs'.
      * injection Hs as <- <-.
        destruct (IH hd' r' eq_refl) as [[b Hb] Hr]. split.
        -- exists b. cbn [app]. now f_equal.
        -- intros l Hl. destruct (Hr l Hl) as (a & b' & ->).
           now exists (c :: a), b'.
Qed.

Lemma includes_part (needle : jsstring) (sep : N) (s l : jsstring) :
  In l (split sep s) -> includes needle s = false ->
  includes needle l = false.
Proof.
  intros Hl Hs. destruct (split_parts sep s l Hl) as (a & b & ->).
  destruct (includes needle l) eqn:H; [|reflexivity].
  rewrite includes_app_l in Hs; [discriminate|].
  now apply includes_app_r.
Qed.

Lemma table_fold_plain (lines : list jsstring) :
  Forall (fun line => includes (lit "  ") line = false
                      /\ includes [9%N] line = false) lines ->
  fold_left tableStep lines ([], []) = ([], []).
Proof.
  induction 1 as [|line lines [H1 H2] _ IH]; [reflexivity|].
  cbn [fold_left]. unfold tableStep at 2. now rewrite H1, H2.
Qed.

(** A text without two spaces in a row and without a tab has no tables,
    whatever else it contains. *)
Theorem extractTables_plain (text : jsstring) :
  includes (lit "  ") text = false -> includes [9%N] text = false ->
  extractTables text = [].
Proof.
  intros Hsp Htab. unfold extractTables.
  rewrite table_fold_plain; [reflexivity|].
  apply Forall_forall. intros line Hline.
  split; eapply includes_part; eassumption.
Qed.

Lemma extractTables_plain_witness :
  extractTables (lit "Total: 3 | 4" ++ nl ++ lit "a b c") = [].
Proof.
  apply extractTables_plain; reflexivity.
Defined.

End TextFacts.

(* ================================================================== *)
(** * Properties of the queries of [TableProcessor] *)
(* ================================================================== *)

Module TableFacts.

Import JS Text Profiler Table TableSpec.

(** ** Substrings *)

Lemma startsWith_iff (p s : jsstring) :
  startsWith p s = true <-> exists r, s = p ++ r.
Proof.
  split.
  - revert s. induction p as [|c p IH]; intros s H; [now exists s|].
    destruct s as [|d s]; [discriminate|]. cbn [startsWith] in H.
    apply andb_true_iff in H as [->%N.eqb_eq H].
    destruct (IH s H) as [r ->]. now exists r.
  - intros [r ->]. apply PdfFacts.startsWith_prefix.
Qed.

Lemma includes_iff (needle hay : jsstring) :
  includes needle hay = true <-> exists a b, hay = a ++ needle ++ b.
Proof.
  split.
  - induction hay as [|c hay IH]; cbn [includes].
    + rewrite orb_false_r. intros [r ->]%startsWith_iff. now exists [], r.
    + intros [[r ->]%startsWith_iff|H]%orb_true_iff; [now exists [], r|].
      destruct (IH H) as (a & b & ->). now exists (c :: a), b.
  - intros (a & b & ->). apply TextFacts.includes_app_l.
    apply TextFacts.includes_app_r.
    destruct needle as [|d needle]; [reflexivity|]. cbn [includes].
    apply orb_true_iff. left.
    rewrite <- (app_nil_r (d :: needle)) at 2.
    apply PdfFacts.startsWith_prefix.
Qed.

Lemma includes_empty (hay : jsstring) : includes [] hay = true.
Proof. now destruct hay. Qed.

Lemma includes_refl (s : jsstring) : includes s s = true.
Proof. apply includes_iff. exists [], []. now rewrite app_nil_r. Qed.

Lemma includes_trans (a b c : jsstring) :
  includes a b = true -> includes b c = true -> includes a c = true.
Proof.
  intros (p & s & ->)%includes_iff (p' & s' & ->)%includes_iff.
  apply includes_iff. exists (p' ++ p), (s ++ s').
  now rewrite <- !app_assoc.
Qed.

(** ** [findIndex] *)

Lemma findIndex_Some (A : Type) (p : A -> bool) (a : list A) (i : nat) :
  findIndex p a = Some i <->
  exists x,
    nth_error a i = Some x /\ p x = true
    /\ forall k y, k < i -> nth_error a k = Some y -> p y = false.
Proof.
  revert i. induction a as [|x a IH]; intros i; cbn [findIndex].
  - split; [discriminate|]. intros (y & H & _). now destruct i.
  - destruct (p x) eqn:Hx.
    + split.
      * intros [= <-]. exists x. repeat split; [exact Hx|]. intros; lia.
      * intros (y & Hy & Hp & Hfirst). destruct i as [|i]; [reflexivity|].
        rewrite (Hfirst 0 x) in Hx; [discriminate|lia|reflexivity].
    + destruct (findIndex p a) as [j|] eqn:Hj.
      * split.
        -- intros [= <-]. destruct (proj1 (IH j) eq_refl)
             as (y & Hy & Hp & Hfirst).
           exists y. repeat split; [exact Hy|exact Hp|].
           intros [|k] z Hk Hz; [now injection Hz as <-|].
           apply (Hfirst k); [lia|exact Hz].
        -- intros (y & Hy & Hp & Hfirst). destruct i as [|i].
           ++ injection Hy as ->. congruence.
           ++ enough (E : Some j = Some i) by congruence.
              apply IH. exists y. repeat split; [exact Hy|exact Hp|].
              intros k z Hk Hz. apply (Hfirst (S k)); [lia|exact Hz].
      * split; [discriminate|]. intros (y & Hy & Hp & Hfirst).
        destruct i as [|i]; [injection Hy as ->; congruence|].
        enough (E : None = Some i) by discriminate.
        apply IH. exists y. repeat split; [exact Hy|exact Hp|].
        intros k z Hk Hz. apply (Hfirst (S k)); [lia|exact Hz].
Qed.

Lemma findIndex_None (A : Type) (p : A -> bool) (a : list A) :
  findIndex p a = None <-> forall x, In x a -> p x = false.
Proof.
  induction a as [|x a IH]; cbn [findIndex].
  - split; [intros _ y []|reflexivity].
  - destruct (p x) eqn:Hx.
    + split; [discriminate|]. intros H. rewrite H in Hx; [discriminate|].
      now left.
    + destruct (findIndex p a) as [n0|].
      * split; [discriminate|]. intros H.
        enough (E : Some n0 = None) by discriminate.
        apply IH. intros y Hy. apply H. now right.
      * split; [|reflexivity]. intros _ y [<-|Hy]; [exact Hx|].
        now apply IH.
Qed.

(** ** The order of strings *)

Lemma ltString_irrefl (x : jsstring) : ltString x x = false.
Proof.
  induction x as [|a x IH]; [reflexivity|]. cbn [ltString].
  now rewrite N.ltb_irrefl, IH, andb_false_r.
Qed.

Lemma ltString_trans (x y z : jsstring) :
  ltString x y = true -> ltString y z = true -> ltString x z = true.
Proof.
  revert y z. induction x as [|a x IH]; intros [|b y] [|c z];
    cbn [ltString]; try discriminate; try reflexivity.
  intros [Hab%N.ltb_lt|[Hab%N.eqb_eq Hxy]%andb_true_iff]%orb_true_iff
         [Hbc%N.ltb_lt|[Hbc%N.eqb_eq Hyz]%andb_true_iff]%orb_true_iff;
    apply orb_true_iff.
  - left. apply N.ltb_lt. lia.
  - left. apply N.ltb_lt. lia.
  - left. apply N.ltb_lt. lia.
  - right. apply andb_true_iff. split; [apply N.eqb_eq; lia|].
    now apply (IH y).
Qed.

Lemma ltString_total (x y : jsstring) :
  ltString x y = false -> ltString y x = false -> x = y.
Proof.
  revert y. induction x as [|a x IH]; intros [|b y]; cbn [ltString];
    try discriminate; [reflexivity|].
  intros [Hab H1]%orb_false_iff [Hba H2]%orb_false_iff.
  apply N.ltb_ge in Hab, Hba. assert (a = b) as -> by lia.
  rewrite N.eqb_refl in H1, H2. cbn [andb] in H1, H2.
  f_equal. now apply IH.
Qed.

Lemma ltString_asym (x y : jsstring) :
  ltString x y = true -> ltString y x = false.
Proof.
  intros H. destruct (ltString y x) eqn:E; [|reflexivity].
  now rewrite <- (ltString_irrefl x), <- (ltString_trans x y x H E).
Qed.

(** A list without repetition in which no element is below its
    predecessor is strictly ascending. *)
Lemma ascending (l : list jsstring) :
  NoDup l -> Sorted (fun a b => ltString b a = false) l ->
  StronglySorted (fun a b => ltString a b = true) l.
Proof.
  intros Hnd Hs. apply Sorted_StronglySorted.
  { intros x y z. apply ltString_trans. }
  induction Hs as [|a l Hs IH Hhd]; [constructor|].
  apply NoDup_cons_iff in Hnd as [Ha Hnd].
  constructor; [now apply IH|].
  destruct Hhd as [|b l Hba]; constructor.
  destruct (ltString a b) eqn:E; [reflexivity|].
  exfalso. apply Ha. left. symmetry. now apply ltString_total.
Qed.

(** ** The set of [getUniqueValues] *)

Lemma existsb_eqb (value : jsstring) (s : list jsstring) :
  existsb (eqb value) s = true <-> In value s.
Proof.
  rewrite existsb_exists. split.
  - now intros (x & Hx & ->%ProfilerFacts.eqb_eq).
  - intros H. exists value. split; [exact H|].
    now apply ProfilerFacts.eqb_eq.
Qed.

Lemma setAdd_NoDup (value : jsstring) (s : list jsstring) :
  NoDup s -> NoDup (setAdd value s).
Proof.
  intros H. unfold setAdd.
  destruct (existsb (eqb value) s) eqn:E; [exact H|].
  apply NoDup_app; [exact H|repeat constructor; intros []|].
  intros x Hx [<-|[]]. apply existsb_eqb in Hx. congruence.
Qed.

Lemma setAdd_In (value v : jsstring) (s : list jsstring) :
  In v (setAdd value s) <-> In v s \/ v = value.
Proof.
  unfold setAdd. destruct (existsb (eqb value) s) eqn:E.
  - apply existsb_eqb in E. split; [now left|].
    now intros [H| ->].
  - rewrite in_app_iff. cbn [In]. split.
    + intros [H|[<-|[]]]; [now left|now right].
    + intros [H| ->]; [now left|right; now left].
Qed.

Lemma uniqueSet_spec (colIndex : nat) (rows : list (list jsstring)) :
  forall s, NoDup s ->
    NoDup (fold_left (addRowValue colIndex) rows s)
    /\ forall v,
         In v (fold_left (addRowValue colIndex) rows s) <->
         In v s
         \/ (v <> []
             /\ exists row, In row rows
                            /\ v = trim (cellOrEmpty row colIndex)).
Proof.
  induction rows as [|row rows IH]; intros s Hs; cbn [fold_left].
  - split; [exact Hs|]. intros v. split; [now left|].
    now intros [H|(_ & r & [] & _)].
  - assert (Hadd : NoDup (addRowValue colIndex s row)).
    { unfold addRowValue. destruct (trim (cellOrEmpty row colIndex));
        [exact Hs|now apply setAdd_NoDup]. }
    destruct (IH _ Hadd) as [Hnd Hin]. split; [exact Hnd|].
    intros v. rewrite Hin. unfold addRowValue.
    destruct (trim (cellOrEmpty row colIndex)) as [|c value] eqn:E.
    + split.
      * intros [H|(Hv & r & Hr & ->)]; [now left|].
        right. split; [exact Hv|]. exists r. split; [now right|reflexivity].
      * intros [H|(Hv & r & [<-|Hr] & ->)]; [now left|congruence|].
        right. split; [exact Hv|]. now exists r.
    + rewrite setAdd_In. split.
      * intros [[H| ->]|(Hv & r & Hr & ->)]; [now left| |].
        -- right. split; [discriminate|]. exists row.
           split; [now left|now symmetry].
        -- right. split; [exact Hv|]. exists r.
           split; [now right|reflexivity].
      * intros [H|(Hv & r & [<-|Hr] & ->)]; [now left; left| |].
        -- left. right. exact E.
        -- right. split; [exact Hv|]. now exists r.
Qed.

Section Builtins.

Variable toLowerCase : jsstring -> jsstring.
Variable parseFloat : jsstring -> float.

(** ** [findColumnIndex] *)

(** [findColumnIndex] answers with the position of a header that is equal
    to the column name, contains it or is contained in it (after lowering
    and trimming), and with -1 exactly when no header is. *)
Theorem findColumnIndex_matches (headers : list jsstring)
  (columnName : jsstring) :
  match findColumnIndex toLowerCase headers columnName with
  | Some index =>
      exists h, nth_error headers index = Some h
                /\ headerMatches toLowerCase columnName h = true
  | None =>
      forall h, In h headers -> headerMatches toLowerCase columnName h = false
  end.
Proof.
  unfold findColumnIndex, headerMatches.
  destruct (findIndex (fun h => eqb _ _) headers) as [i|] eqn:H1.
  { apply findIndex_Some in H1 as (h & Hh & Hp & _). cbv beta iota.
    exists h. now rewrite Hp. }
  cbv beta iota.
  destruct (findIndex (fun h => includes _ (trim (toLowerCase h))) headers)
    as [i|] eqn:H2.
  { apply findIndex_Some in H2 as (h & Hh & Hp & _). cbv beta iota.
    exists h.
    rewrite Hp. split; [exact Hh|]. now rewrite orb_true_r. }
  cbv beta iota.
  destruct (findIndex (fun h => includes (trim (toLowerCase h)) _) headers)
    as [i|] eqn:H3.
  { apply findIndex_Some in H3 as (h & Hh & Hp & _). cbv beta iota.
    exists h.
    rewrite Hp. split; [exact Hh|]. now rewrite orb_true_r. }
  intros h Hh.
  rewrite (proj1 (findIndex_None _ _) H1 h Hh).
  rewrite (proj1 (findIndex_None _ _) H2 h Hh).
  now rewrite (proj1 (findIndex_None _ _) H3 h Hh).
Qed.

(** An exact match wins over the partial ones: when some header equals the
    column name after lowering and trimming, the answer is the first such
    header, also when an earlier header contains the name. *)
Theorem findColumnIndex_exact_first (headers : list jsstring)
  (columnName h : jsstring) (index : nat) :
  nth_error headers index = Some h ->
  trim (toLowerCase h) = trim (toLowerCase columnName) ->
  (forall k y, k < index -> nth_error headers k = Some y ->
     trim (toLowerCase y) <> trim (toLowerCase columnName)) ->
  findColumnIndex toLowerCase headers columnName = Some index.
Proof.
  intros Hh Heq Hfirst. unfold findColumnIndex.
  assert (H : findIndex
                (fun h => eqb (trim (toLowerCase h))
                            (trim (toLowerCase columnName))) headers
              = Some index).
  { apply findIndex_Some. exists h. split; [exact Hh|]. split.
    - now apply ProfilerFacts.eqb_eq.
    - intros k y Hk Hy. apply ProfilerFacts.eqb_neq. now apply (Hfirst k). }
  now rewrite H.
Qed.

(** A blank column name is never unknown in a table that has a column,
    and no name is unknown in a table that has a blank header: the empty
    string is contained in every string. *)
Theorem findColumnIndex_blank (headers : list jsstring)
  (columnName : jsstring) :
  (trim (toLowerCase columnName) = [] /\ headers <> [])
  \/ (exists h, In h headers /\ trim (toLowerCase h) = []) ->
  findColumnIndex toLowerCase headers columnName <> None.
Proof.
  intros H. unfold findColumnIndex.
  destruct (findIndex (fun h => eqb _ _) headers) as [i|]; [discriminate|].
  destruct (findIndex (fun h => includes _ (trim (toLowerCase h))) headers)
    as [i|] eqn:Hpartial; [discriminate|].
  intros Hreverse.
  destruct H as [[Hname Hheaders]|(h & Hh & Hblank)].
  - destruct headers as [|h headers]; [congruence|].
    apply findIndex_None with (x := h) in Hpartial; [|now left].
    cbv beta in Hpartial. rewrite Hname, includes_empty in Hpartial.
    discriminate.
  - apply findIndex_None with (x := h) in Hreverse; [|exact Hh].
    cbv beta in Hreverse. rewrite Hblank, includes_empty in Hreverse.
    discriminate.
Qed.

(** ** [getUniqueValues] *)

(** For a column that is found, [getUniqueValues] lists its trimmed cells
    that are not empty, each once and in strictly ascending order of the
    code units; a missing cell counts as empty. *)
Theorem getUniqueValues_ascending (data : TableData)
  (columnName : jsstring) (colIndex : nat) :
  findColumnIndex toLowerCase (headers data) columnName = Some colIndex ->
  StronglySorted (fun a b => ltString a b = true)
    (getUniqueValues toLowerCase data columnName)
  /\ forall v,
       In v (getUniqueValues toLowerCase data columnName) <->
       v <> []
       /\ exists row, In row (rows data)
                      /\ v = trim (cellOrEmpty row colIndex).
Proof.
  intros Hcol. unfold getUniqueValues. rewrite Hcol.
  destruct (@uniqueSet_spec colIndex (rows data) [] (NoDup_nil _))
    as [Hnd Hin].
  pose proof (ProfilerFacts.sortWith_perm
                (fun y x => ltString x y)
                (fold_left (addRowValue colIndex) (rows data) []))
    as Hperm.
  split.
  - apply ascending.
    + eapply Permutation_NoDup; [symmetry; exact Hperm|exact Hnd].
    + apply (ProfilerFacts.sortWith_sorted (fun y x => ltString x y)).
      intros x y H. now apply ltString_asym.
  - intros v. split.
    + intros H. apply (Permutation_in _ Hperm) in H.
      apply Hin in H as [[]|H]. exact H.
    + intros H. apply (Permutation_in _ (Permutation_sym Hperm)).
      apply Hin. now right.
Qed.

(** ** [filterRows] *)

(** [filterRows] keeps a row when the cell contains the value or the value
    contains the cell.  So with a blank value it returns every row, and a
    row whose cell is blank or missing is returned for every value. *)
Theorem filterRows_blank (data : TableData) (columnName value : jsstring)
  (colIndex : nat) :
  findColumnIndex toLowerCase (headers data) columnName = Some colIndex ->
  (trim (toLowerCase value) = [] ->
   filterRows toLowerCase data columnName value = rows data)
  /\ forall row,
       In row (rows data) ->
       trim (toLowerCase (cellOrEmpty row colIndex)) = [] ->
       In row (filterRows toLowerCase data columnName value).
Proof.
  intros Hcol. unfold filterRows. rewrite Hcol. split.
  - intros ->. induction (rows data) as [|row l IH]; [reflexivity|].
    cbn [filter]. rewrite includes_empty. cbn [orb]. now f_equal.
  - intros row Hrow Hcell. apply filter_In. split; [exact Hrow|].
    cbv zeta. rewrite Hcell, includes_empty. apply orb_true_r.
Qed.

(** ** [searchInTable] *)

(** A search term that is part of another finds every row the other
    finds. *)
Theorem searchInTable_part (data : TableData) (part whole : jsstring) :
  includes (trim (toLowerCase part)) (trim (toLowerCase whole)) = true ->
  forall row,
    In row (searchInTable toLowerCase data whole) ->
    In row (searchInTable toLowerCase data part).
Proof.
  intros Hpart row [Hrow Hfound]%filter_In. apply filter_In.
  split; [exact Hrow|].
  apply existsb_exists in Hfound as (cell & Hcell & Hin).
  apply existsb_exists. exists cell. split; [exact Hcell|].
  now apply (includes_trans _ _ _ Hpart).
Qed.

(** ** [filterRowsAdvanced] *)

Lemma rowMatches_equals (value operator : jsstring) (colIndex : nat)
  (row : list jsstring) :
  In (toLowerCase operator) [lit "equals"; lit "="; lit "=="] ->
  rowMatches toLowerCase parseFloat value operator colIndex row
  = eqb (toLowerCase (trim (cellOrEmpty row colIndex)))
      (trim (toLowerCase value)).
Proof.
  unfold rowMatches. intros [<-|[<-|[<-|[]]]]; reflexivity.
Qed.

Lemma rowMatches_not (value operator : jsstring) (colIndex : nat)
  (row : list jsstring) :
  In (toLowerCase operator) [lit "not"; lit "!="] ->
  rowMatches toLowerCase parseFloat value operator colIndex row
  = negb (eqb (toLowerCase (trim (cellOrEmpty row colIndex)))
            (trim (toLowerCase value))).
Proof.
  unfold rowMatches. intros [<-|[<-|[]]]; reflexivity.
Qed.

Lemma rowMatches_greater (value operator : jsstring) (colIndex : nat)
  (row : list jsstring) :
  In (toLowerCase operator) [lit "greater"; lit ">"] ->
  rowMatches toLowerCase parseFloat value operator colIndex row
  = negb (is_nan (parseFloat (trim (cellOrEmpty row colIndex))))
    && negb (is_nan (parseFloat value))
    && (parseFloat value <? parseFloat (trim (cellOrEmpty row colIndex)))%float.
Proof.
  unfold rowMatches. intros [<-|[<-|[]]]; reflexivity.
Qed.

Lemma rowMatches_le (value operator : jsstring) (colIndex : nat)
  (row : list jsstring) :
  toLowerCase operator = lit "<=" ->
  rowMatches toLowerCase parseFloat value operator colIndex row
  = negb (is_nan (parseFloat (trim (cellOrEmpty row colIndex))))
    && negb (is_nan (parseFloat value))
    && (parseFloat (trim (cellOrEmpty row colIndex)) <=? parseFloat value)%float.
Proof.
  unfold rowMatches. now intros ->.
Qed.

(** The operators for equality and the operators for inequality split the
    rows of a column that is found: each row is returned by exactly one of
    the two. *)
Theorem equals_and_not_split (data : TableData)
  (columnName value equals not : jsstring) (colIndex : nat) :
  findColumnIndex toLowerCase (headers data) columnName = Some colIndex ->
  In (toLowerCase equals) [lit "equals"; lit "="; lit "=="] ->
  In (toLowerCase not) [lit "not"; lit "!="] ->
  forall row,
    In row (rows data) ->
    (In row (filterRowsAdvanced toLowerCase parseFloat data columnName
               value equals)
     <-> ~ In row (filterRowsAdvanced toLowerCase parseFloat data columnName
                     value not)).
Proof.
  intros Hcol Heq Hnot row Hrow. unfold filterRowsAdvanced. rewrite Hcol.
  rewrite !filter_In, (rowMatches_equals value colIndex row Heq),
    (rowMatches_not value colIndex row Hnot).
  destruct (eqb _ _); cbn [negb]; split.
  - intros _ [_ H]. discriminate.
  - now intros _.
  - now intros [_ H].
  - intros H. exfalso. apply H. now split.
Qed.

(** The operators "greater" and "<=" split the rows whose cell is a number
    when the value is a number; a row whose cell is not a number is
    returned by neither, and no row is when the value is not a number. *)
Theorem greater_and_le_split (data : TableData)
  (columnName value greater le : jsstring) (colIndex : nat) :
  findColumnIndex toLowerCase (headers data) columnName = Some colIndex ->
  In (toLowerCase greater) [lit "greater"; lit ">"] ->
  toLowerCase le = lit "<=" ->
  forall row,
    In row (rows data) ->
    if is_nan (parseFloat (trim (cellOrEmpty row colIndex)))
       || is_nan (parseFloat value)
    then
      ~ In row (filterRowsAdvanced toLowerCase parseFloat data columnName
                  value greater)
      /\ ~ In row (filterRowsAdvanced toLowerCase parseFloat data columnName
                     value le)
    else
      In row (filterRowsAdvanced toLowerCase parseFloat data columnName
                value greater)
      <-> ~ In row (filterRowsAdvanced toLowerCase parseFloat data
                      columnName value le).
Proof.
  intros Hcol Hgt Hle row Hrow.
  unfold filterRowsAdvanced. rewrite Hcol.
  assert (Hin : forall operator,
             In row (filter (rowMatches toLowerCase parseFloat value
                               operator colIndex) (rows data))
             <-> rowMatches toLowerCase parseFloat value operator colIndex
                   row = true).
  { intros operator. rewrite filter_In. tauto. }
  pose proof (Hin greater) as HG. pose proof (Hin le) as HL.
  rewrite (rowMatches_greater value colIndex row Hgt) in HG.
  rewrite (rowMatches_le value colIndex row Hle) in HL.
  destruct (is_nan (parseFloat (trim (cellOrEmpty row colIndex)))) eqn:Ha.
  { cbn [orb negb andb] in *. split; intros H; [apply HG in H|apply HL in H];
      discriminate. }
  destruct (is_nan (parseFloat value)) eqn:Hb.
  { cbn [orb negb andb] in *. split; intros H; [apply HG in H|apply HL in H];
      discriminate. }
  cbn [orb negb andb] in *. rewrite (ProfilerFacts.greater_not_le _ _ Ha Hb) in HG.
  destruct (_ <=? _)%float; cbn [negb] in HG; split.
  - intros H%HG. discriminate.
  - intros H. exfalso. apply H. now apply HL.
  - intros _ H%HL. discriminate.
  - intros _. now apply HG.
Qed.

End Builtins.

(** ** [processExcel] *)

(** [processExcel] fails exactly on a sheet without any row.  Otherwise
    the table it returns is rectangular: the row count is the number of
    rows, no more than the sheet has below its first row, every row has a
    cell for every header, and the headers and cells are trimmed. *)
Theorem processSheet_rectangular (jsonData : list (list JsValue)) :
  match processSheet jsonData with
  | None => jsonData = []
  | Some data =>
      jsonData <> []
      /\ rowCount data = length (rows data)
      /\ length (rows data) <= length jsonData - 1
      /\ Forall (fun h => trim h = h) (headers data)
      /\ Forall (fun row => length row = length (headers data)
                            /\ Forall (fun cell => trim cell = cell) row)
           (rows data)
  end.
Proof.
  destruct jsonData as [|first rest]; [reflexivity|].
  cbn [processSheet rowCount rows headers].
  split; [discriminate|]. split; [reflexivity|]. split.
  { rewrite length_map. cbn [length]. rewrite Nat.sub_succ, Nat.sub_0_r.
    apply filter_length_le. }
  split.
  { apply Forall_forall. intros h (v & <- & _)%in_map_iff.
    apply TextFacts.trim_idempotent. }
  apply Forall_forall. intros row (raw & <- & _)%in_map_iff. split.
  { now rewrite !length_map, length_seq. }
  apply Forall_forall. intros cell (idx & <- & _)%in_map_iff.
  unfold cellText. destruct (nth_error raw idx) as [[| |text]|];
    try reflexivity.
  apply TextFacts.trim_idempotent.
Qed.

Lemma filterRows_blank_witness :
  (trim (asciiLower (lit " ")) = [] ->
   filterRows asciiLower people (lit "city") (lit " ") = rows people)
  /\ forall row,
       In row (rows people) ->
       trim (asciiLower (cellOrEmpty row 2)) = [] ->
       In row (filterRows asciiLower people (lit "city") (lit " ")).
Proof.
  apply (@filterRows_blank asciiLower people (lit "city") (lit " ") 2).
  reflexivity.
Defined.

Lemma searchInTable_part_witness :
  In [lit "Ann"; lit "n/a"; lit " Rome "]
    (searchInTable asciiLower people (lit "OM")).
Proof.
  apply (@searchInTable_part asciiLower people (lit "OM") (lit "rome ")).
  - reflexivity.
  - vm_compute. left. reflexivity.
Defined.

Lemma equals_and_not_split_witness :
  In [lit "Bob"; lit "31"; lit "Oslo"]
    (filterRowsAdvanced asciiLower parseDecimal people (lit "city")
       (lit "OSLO ") (lit "Equals"))
  <-> ~ In [lit "Bob"; lit "31"; lit "Oslo"]
          (filterRowsAdvanced asciiLower parseDecimal people (lit "city")
             (lit "OSLO ") (lit "!=")).
Proof.
  apply (@equals_and_not_split asciiLower parseDecimal people (lit "city")
           (lit "OSLO ") (lit "Equals") (lit "!=") 2).
  - reflexivity.
  - left. reflexivity.
  - right. left. reflexivity.
  - left. reflexivity.
Defined.

Lemma greater_and_le_split_witness :
  In [lit "Bob"; lit "31"; lit "Oslo"]
    (filterRowsAdvanced asciiLower parseDecimal people (lit "age")
       (lit "30") (lit ">"))
  <-> ~ In [lit "Bob"; lit "31"; lit "Oslo"]
          (filterRowsAdvanced asciiLower parseDecimal people (lit "age")
             (lit "30") (lit "<=")).
Proof.
  assert (Hnum : is_nan (parseDecimal
                           (trim (cellOrEmpty
                                    [lit "Bob"; lit "31"; lit "Oslo"] 1)))
                 || is_nan (parseDecimal (lit "30")) = false)
    by (vm_compute; reflexivity).
  pose proof (@greater_and_le_split asciiLower parseDecimal people
                (lit "age") (lit "30") (lit ">") (lit "<=") 1
                eq_refl (or_intror (or_introl eq_refl)) eq_refl
                [lit "Bob"; lit "31"; lit "Oslo"] (or_introl eq_refl))
    as H.
  rewrite Hnum in H. exact H.
Defined.

Lemma getUniqueValues_ascending_witness :
  StronglySorted (fun a b => ltString a b = true)
    (getUniqueValues asciiLower people (lit "city"))
  /\ forall v,
       In v (getUniqueValues asciiLower people (lit "city")) <->
       v <> []
       /\ exists row, In row (rows people)
                      /\ v = trim (cellOrEmpty row 2).
Proof.
  apply (@getUniqueValues_ascending asciiLower people (lit "city") 2).
  reflexivity.
Defined.

Lemma findColumnIndex_exact_first_witness :
  findColumnIndex asciiLower [lit "Age group"; lit " AGE "] (lit "age")
  = Some 1.
Proof.
  apply (@findColumnIndex_exact_first asciiLower
           [lit "Age group"; lit " AGE "] (lit "age") (lit " AGE ") 1).
  - reflexivity.
  - reflexivity.
  - intros k y Hk Hy. destruct k as [|k]; [|lia].
    injection Hy as <-. vm_compute. discriminate.
Defined.

Lemma findColumnIndex_blank_witness :
  findColumnIndex asciiLower [lit "Name"; lit ""] (lit "Salary") <> None.
Proof.
  apply findColumnIndex_blank. right. exists (lit "").
  split; [right; left; reflexivity|reflexivity].
Defined.

End TableFacts.

(* ================================================================== *)
(** * Properties of [generatePDFFromText] *)
(* ================================================================== *)

Module ReportFacts.

Import JS Text PdfSpec PdfFacts Report ReportSpec.

(** ** Wrapping at spaces *)

Lemma nonEmptyWords_app (a b : list jsstring) :
  nonEmptyWords (a ++ b) = nonEmptyWords a ++ nonEmptyWords b.
Proof. apply filter_app. Qed.

Lemma wrappedGroup_nonempty (group : list jsstring) :
  wrappedGroup group -> (0 <? length (join (lit " ") group)) = true.
Proof.
  intros [(word & rest & -> & Hword) _]. apply Nat.ltb_lt.
  destruct word as [|c word]; [congruence|].
  destruct rest; cbn [join app length]; lia.
Qed.

Lemma wrapStep_wrapping (contentLines done : list jsstring)
  (st : list jsstring * jsstring) (word : jsstring) :
  wrapping contentLines done st ->
  wrapping contentLines (done ++ [word]) (wrapStep st word).
Proof.
  destruct st as [cl cur].
  intros (groups & current & Hcl & Hcur & Hgroups & Hcurrent & Hwords).
  cbn [fst snd] in Hcl, Hcur. subst cl cur. unfold wrapStep.
  rewrite nonEmptyWords_app in Hwords.
  assert (Hsingle : forall c w, wrappedGroup [c :: w]).
  { intros c w. split; [|right; now eexists].
    eexists _, _. split; [reflexivity|discriminate]. }
  destruct Hcurrent as [->|Hcurrent].
  - (* no current line *)
    cbn [join length Nat.ltb Nat.leb app].
    change (nonEmptyWords []) with (@nil jsstring) in Hwords.
    rewrite app_nil_r in Hwords.
    destruct (Nat.leb_spec (length word) 80) as [Hfit|Hlong].
    + exists groups, (match word with [] => [] | _ => [word] end).
      cbn [fst snd]. split; [reflexivity|]. split; [now destruct word|].
      split; [exact Hgroups|]. split.
      * destruct word as [|c word]; [now left|]. right. apply Hsingle.
      * rewrite !nonEmptyWords_app, <- Hwords. f_equal. now destruct word.
    + destruct word as [|c word]; [cbn [length] in Hlong; lia|].
      exists groups, [c :: word].
      cbn [fst snd]. split; [reflexivity|]. split; [reflexivity|].
      split; [exact Hgroups|]. split; [right; apply Hsingle|].
      rewrite !nonEmptyWords_app, <- Hwords. reflexivity.
  - (* a current line *)
    pose proof (wrappedGroup_nonempty Hcurrent) as Hpos. rewrite Hpos.
    assert (Hne : current <> []).
    { destruct Hcurrent as [(w & r & -> & _) _]. discriminate. }
    rewrite <- (TextFacts.join_snoc (lit " ") word Hne).
    destruct (Nat.leb_spec (length (join (lit " ") (current ++ [word]))) 80)
      as [Hfit|Hlong].
    + exists groups, (current ++ [word]). cbn [fst snd].
      split; [reflexivity|]. split; [reflexivity|].
      split; [exact Hgroups|]. split.
      * right. split; [|now left].
        destruct Hcurrent as [(w & r & -> & Hw) _].
        exists w, (r ++ [word]). now split.
      * rewrite !nonEmptyWords_app, <- Hwords. now rewrite app_assoc.
    + exists (groups ++ [current]).
      exists (match word with [] => [] | _ => [word] end).
      cbn [fst snd]. rewrite flat_map_app. cbn [flat_map].
      rewrite app_nil_r, app_assoc.
      split; [reflexivity|]. split; [now destruct word|].
      split; [apply Forall_app; split; [exact Hgroups|now constructor]|].
      split.
      * destruct word as [|c word]; [now left|]. right. apply Hsingle.
      * rewrite concat_app. cbn [concat].
        rewrite app_nil_r, !nonEmptyWords_app, <- Hwords. f_equal.
        now destruct word.
Qed.

Lemma wrap_fold_wrapping (contentLines words : list jsstring) :
  forall done st,
    wrapping contentLines done st ->
    wrapping contentLines (done ++ words) (fold_left wrapStep words st).
Proof.
  induction words as [|word words IH]; intros done st H; cbn [fold_left].
  - now rewrite app_nil_r.
  - replace (done ++ word :: words) with ((done ++ [word]) ++ words)
      by now rewrite <- app_assoc.
    apply IH. now apply wrapStep_wrapping.
Qed.

Lemma removeSpecials_app (a b : jsstring) :
  removeSpecials (a ++ b) = removeSpecials a ++ removeSpecials b.
Proof. apply filter_app. Qed.

(** Removing the parentheses and backslashes of words joined by spaces
    removes them from each word. *)
Lemma removeSpecials_join (group : list jsstring) :
  removeSpecials (join (lit " ") group)
  = join (lit " ") (map removeSpecials group).
Proof.
  induction group as [|word group IH]; [reflexivity|].
  destruct group as [|next group]; [reflexivity|].
  change (map removeSpecials (word :: next :: group))
    with (removeSpecials word :: map removeSpecials (next :: group)).
  rewrite !TextFacts.join_cons_nonempty by discriminate.
  now rewrite !removeSpecials_app, IH.
Qed.

(** The wrap at spaces never cuts a word in two.  The words of the line
    that are not empty are divided, in their order, into groups of
    successive words, each group beginning with a word that is not empty;
    for each group one line of text is emitted, which is the words of the
    group, each without its parentheses and backslashes, joined by single
    spaces.  A group is longer than 80 code units, as it stands in the
    line, only when it is one single word. *)
Theorem wrapWords_keeps_words (contentLines : list jsstring)
  (line : jsstring) :
  exists groups,
    wrapWords contentLines line
    = contentLines
      ++ flat_map
           (fun group =>
              [lit "(" ++ join (lit " ") (map removeSpecials group)
               ++ lit ") Tj";
               lit "0 -11 Td"]) groups
    /\ Forall wrappedGroup groups
    /\ nonEmptyWords (concat groups) = nonEmptyWords (split 32 line).
Proof.
  unfold wrapWords.
  assert (Hstart : wrapping contentLines [] (contentLines, [])).
  { exists [], []. cbn [fst snd flat_map join concat app].
    rewrite app_nil_r. repeat split; auto. }
  apply (wrap_fold_wrapping (split 32 line)) in Hstart.
  cbn [app] in Hstart.
  destruct (fold_left wrapStep (split 32 line) (contentLines, []))
    as [cl cur].
  destruct Hstart as (groups & current & Hcl & Hcur & Hgroups & Hcurrent
                      & Hwords).
  cbn [fst snd] in Hcl, Hcur. subst cl cur.
  assert (Hshow : forall gs,
            flat_map (fun group => showLine (join (lit " ") group)) gs
            = flat_map
                (fun group =>
                   [lit "(" ++ join (lit " ") (map removeSpecials group)
                    ++ lit ") Tj";
                    lit "0 -11 Td"]) gs).
  { intros gs. apply flat_map_ext. intros group. unfold showLine.
    now rewrite removeSpecials_join. }
  destruct Hcurrent as [->|Hcurrent].
  - cbn [join length Nat.ltb Nat.leb]. exists groups.
    rewrite app_nil_r in Hwords. rewrite Hshow. now repeat split.
  - rewrite (wrappedGroup_nonempty Hcurrent). exists (groups ++ [current]).
    rewrite <- Hshow, flat_map_app, concat_app. cbn [flat_map concat].
    rewrite !app_nil_r, app_assoc. split; [reflexivity|].
    split; [apply Forall_app; split; [exact Hgroups|now constructor]|].
    exact Hwords.
Qed.

(** ** The lines of a page *)

Lemma totalPages_bounds (lines : list jsstring) :
  length lines <= linesPerPage * totalPages lines
  /\ linesPerPage * totalPages lines < length lines + linesPerPage.
Proof.
  unfold totalPages, linesPerPage.
  pose proof (Nat.div_mod_eq (length lines + (55 - 1)) 55) as Hdiv.
  pose proof (Nat.mod_upper_bound (length lines + (55 - 1)) 55) as Hmod.
  lia.
Qed.

(** Line [i] of the report is shown on a page exactly when it is not one
    of the lines 50 to 54: the first page takes the lines up to 50 and the
    second page starts at line 55. *)
Theorem lines_50_to_54_not_shown (lines : list jsstring) (i : nat) :
  i < length lines ->
  (exists pageNum,
     pageNum < totalPages lines /\ In i (pageLineIndices lines pageNum))
  <-> i < 50 \/ 55 <= i.
Proof.
  intros Hi. destruct (totalPages_bounds lines) as [Hlow Hhigh].
  unfold pageLineIndices, endLine, startLine, linesPerPage in *. split.
  - intros (pageNum & Hpage & Hin). apply in_seq in Hin.
    destruct pageNum as [|pageNum]; cbn [Nat.eqb] in Hin; lia.
  - intros [Hfirst|Hlater].
    + exists 0. split; [lia|]. apply in_seq. cbn [Nat.eqb]. lia.
    + pose proof (Nat.div_mod_eq i 55) as Hdiv.
      pose proof (Nat.mod_upper_bound i 55) as Hmod.
      exists (i / 55). split; [lia|]. apply in_seq.
      destruct (i / 55) as [|pageNum] eqn:E; [lia|].
      cbn [Nat.eqb]. lia.
Qed.

Lemma lines_50_to_54_not_shown_witness :
  (exists pageNum,
     pageNum < totalPages (repeat (lit "text") 60)
     /\ In 52 (pageLineIndices (repeat (lit "text") 60) pageNum))
  <-> 52 < 50 \/ 55 <= 52.
Proof.
  apply lines_50_to_54_not_shown. cbn [repeat length]. lia.
Defined.

(** ** Joined lines *)

Lemma join_app (sep : jsstring) (a b : list jsstring) :
  a <> [] -> b <> [] ->
  join sep (a ++ b) = join sep a ++ sep ++ join sep b.
Proof.
  intros Ha Hb. induction a as [|x a IH]; [congruence|].
  destruct a as [|y a].
  - cbn [app]. now apply TextFacts.join_cons_nonempty.
  - change ((x :: y :: a) ++ b) with (x :: (y :: a) ++ b).
    rewrite !TextFacts.join_cons_nonempty by discriminate.
    rewrite IH by discriminate. now rewrite <- !app_assoc.
Qed.

Lemma join_length (sep : jsstring) (l : list jsstring) :
  l <> [] ->
  length (join sep l) + length sep
  = list_sum (map (fun x => length x + length sep) l).
Proof.
  induction l as [|x l IH]; [congruence|]. intros _.
  destruct l as [|y l].
  - cbn [join map list_sum fold_right]. lia.
  - rewrite TextFacts.join_cons_nonempty by discriminate.
    cbn [map list_sum fold_right] in *. rewrite !length_app.
    specialize (IH ltac:(discriminate)). lia.
Qed.

Lemma in_join (sep x : jsstring) (l : list jsstring) :
  In x l -> exists a b, join sep l = a ++ x ++ b.
Proof.
  induction l as [|y l IH]; [intros []|].
  destruct l as [|z l].
  - intros [->|[]]. exists [], []. now rewrite app_nil_r.
  - rewrite TextFacts.join_cons_nonempty by discriminate.
    intros [->|H].
    + now exists [], (sep ++ join sep (z :: l)).
    + destruct (IH H) as (a & b & ->).
      exists (y ++ sep ++ a), b. now rewrite <- !app_assoc.
Qed.

(** ** [indexOf] *)

Lemma indexOfString_found (needle a b : jsstring) :
  indexOfString needle (a ++ needle ++ b) <> None.
Proof.
  induction a as [|c a IH].
  - cbn [app]. destruct (needle ++ b) eqn:E; cbn [indexOfString];
      rewrite <- ?E, PdfFacts.startsWith_prefix; discriminate.
  - cbn [app indexOfString].
    destruct (startsWith needle (c :: a ++ needle ++ b)); [discriminate|].
    destruct (indexOfString needle (a ++ needle ++ b)); [discriminate|].
    congruence.
Qed.

Lemma indexOfString_bound (needle hay : jsstring) (k : nat) :
  indexOfString needle hay = Some k -> k + length needle <= length hay.
Proof.
  revert k. induction hay as [|c hay IH]; intros k; cbn [indexOfString].
  - destruct (startsWith needle []) eqn:E; [|discriminate].
    intros [= <-]. apply TableFacts.startsWith_iff in E as [r E].
    apply (f_equal (@length N)) in E. rewrite length_app in E.
    cbn [length] in *. lia.
  - destruct (startsWith needle (c :: hay)) eqn:E.
    + intros [= <-]. apply TableFacts.startsWith_iff in E as [r E].
      apply (f_equal (@length N)) in E. rewrite length_app in E. lia.
    + destruct (indexOfString needle hay) as [j|]; [|discriminate].
      intros [= <-]. specialize (IH j eq_refl). cbn [length]. lia.
Qed.

Lemma startsWith_short (p a b : jsstring) :
  startsWith p (a ++ b) = true -> length p <= length a ->
  startsWith p a = true.
Proof.
  revert a. induction p as [|c p IH]; intros a H Hlen; [reflexivity|].
  destruct a as [|d a]; [cbn [length] in Hlen; lia|].
  cbn [app startsWith] in *. apply andb_true_iff in H as [-> H].
  apply IH; [exact H|cbn [length] in Hlen; lia].
Qed.

(** The first occurrence in a text is the first occurrence in every text
    that continues it. *)
Lemma indexOfString_app (needle a b : jsstring) (k : nat) :
  indexOfString needle a = Some k ->
  indexOfString needle (a ++ b) = Some k.
Proof.
  revert k. induction a as [|c a IH]; intros k; cbn [indexOfString app].
  - destruct (startsWith needle []) eqn:E; [|discriminate].
    intros [= <-]. destruct needle; [|discriminate].
    now destruct b.
  - destruct (startsWith needle (c :: a)) eqn:E.
    + intros [= <-].
      change (c :: a ++ b) with ((c :: a) ++ b).
      now rewrite (PdfFacts.startsWith_app _ _ b E).
    + destruct (indexOfString needle a) as [j|] eqn:Hj; [|discriminate].
      intros [= <-]. rewrite (IH j eq_refl).
      destruct (startsWith needle (c :: a ++ b)) eqn:E'; [|reflexivity].
      apply indexOfString_bound in Hj.
      change (c :: a ++ b) with ((c :: a) ++ b) in E'.
      apply startsWith_short in E'; [congruence|cbn [length]; lia].
Qed.

(** ** Object numbers *)

Lemma numberObjects_spec (pages : nat) :
  forall currentObj,
    numberObjects pages currentObj
    = (map (fun k => currentObj + 2 * k) (seq 0 pages),
       map (fun k => currentObj + 1 + 2 * k) (seq 0 pages),
       currentObj + 2 * pages).
Proof.
  induction pages as [|pages IH]; intros currentObj;
    cbn [numberObjects seq map].
  - repeat f_equal. lia.
  - rewrite IH, <- seq_shift, !map_map.
    f_equal; [f_equal|lia]; f_equal; try lia;
      apply map_ext; intros k; lia.
Qed.

Lemma revapp_nonnil (d d' : Decimal.uint) :
  d' <> Decimal.Nil -> Decimal.revapp d d' <> Decimal.Nil.
Proof.
  revert d'. induction d; intros d' H; cbn [Decimal.revapp];
    [exact H|apply IHd; discriminate..].
Qed.

Lemma to_little_uint_nonnil (k : nat) :
  forall acc, acc <> Decimal.Nil -> Nat.to_little_uint k acc <> Decimal.Nil.
Proof.
  induction k as [|k IH]; intros acc H; cbn [Nat.to_little_uint];
    [exact H|].
  apply IH. destruct acc; discriminate.
Qed.

(** A number has at least one digit. *)
Lemma toString_length (k : nat) : 1 <= length (toString k).
Proof.
  unfold toString, Nat.to_uint, Decimal.rev.
  pose proof (@to_little_uint_nonnil k Decimal.zero ltac:(discriminate))
    as H.
  destruct (Nat.to_little_uint k Decimal.zero) as [|d|d|d|d|d|d|d|d|d|d];
    [congruence|..]; cbn [Decimal.revapp];
    match goal with
    | |- context [Decimal.revapp d ?acc] =>
        pose proof (@revapp_nonnil d acc ltac:(discriminate)) as Hr;
        destruct (Decimal.revapp d acc); [congruence|..]
    end;
    cbn [NilEmpty.string_of_uint lit list_ascii_of_string map length]; lia.
Qed.

Lemma nth_map_seq (f : nat -> nat) (pages k : nat) :
  k < pages -> nth k (map f (seq 0 pages)) 0 = f k.
Proof.
  intros H. rewrite (nth_indep _ 0 (f 0)) by now rewrite length_map, length_seq.
  rewrite map_nth, seq_nth by exact H. reflexivity.
Qed.

Lemma entries_bound (l : list jsstring) :
  Forall (fun entry => 19 <= length entry) l ->
  20 * length l <= list_sum (map (fun entry => length entry + 1) l).
Proof.
  induction 1 as [|entry l H _ IH]; cbn [length map]; [cbn; lia|].
  change (list_sum (?x :: ?r)) with (x + list_sum r). lia.
Qed.

Section Builtins.

Variable toUpperCase : jsstring -> jsstring.
Variable timestamp : jsstring.

Lemma objectCount_eq (lines : list jsstring) :
  objectCount lines = 2 * totalPages lines + 4.
Proof. unfold objectCount. rewrite numberObjects_spec. lia. Qed.

(** ** The cross-reference table *)

(** Every object number below [currentObj] has its line ["i 0 obj"]. *)
Lemma object_declared (lines : list jsstring) (filename : jsstring)
  (i : nat) :
  1 <= i < objectCount lines ->
  In (toString i ++ lit " 0 obj")
    (objectLines toUpperCase timestamp lines filename).
Proof.
  rewrite objectCount_eq. intros Hi. unfold objectLines.
  rewrite numberObjects_spec. cbv beta iota zeta.
  apply in_or_app.
  destruct (Nat.eq_dec i 1) as [->|H1]; [left; right; left; reflexivity|].
  destruct (Nat.eq_dec i 2) as [->|H2];
    [left; do 4 right; left; reflexivity|].
  destruct (Nat.eq_dec i (3 + 2 * totalPages lines)) as [->|H3];
    [left; do 7 right; left; reflexivity|].
  right. apply in_flat_map.
  pose proof (Nat.div_mod_eq (i - 3) 2) as Hdiv.
  pose proof (Nat.mod_upper_bound (i - 3) 2) as Hmod.
  exists ((i - 3) / 2). split; [apply in_seq; lia|].
  unfold pageLines. cbv zeta.
  rewrite !nth_map_seq by lia.
  destruct ((i - 3) mod 2) as [|[|r]] eqn:E; [| |lia].
  - left. do 2 f_equal. lia.
  - do 3 right. left. do 2 f_equal. lia.
Qed.

Lemma object_found (lines : list jsstring) (filename : jsstring) (i : nat) :
  1 <= i < objectCount lines ->
  indexOfString (toString i ++ lit " 0 obj")
    (pdfContent toUpperCase timestamp lines filename) <> None.
Proof.
  intros Hi. unfold pdfContent.
  destruct (in_join nl _ _ (object_declared lines filename Hi))
    as (a & b & ->).
  apply indexOfString_found.
Qed.

Lemma xrefEntries_found (content : jsstring) (numbers : list nat) :
  (forall i, In i numbers ->
     indexOfString (toString i ++ lit " 0 obj") content <> None) ->
  let entries :=
    flat_map
      (fun i =>
         match indexOfString (toString i ++ lit " 0 obj") content with
         | Some position =>
             [padStart0 10 (toString position) ++ lit " 00000 n "]
         | None => []
         end) numbers in
  length entries = length numbers
  /\ Forall (fun entry => 19 <= length entry) entries.
Proof.
  induction numbers as [|i numbers IH]; intros Hfound; cbn [flat_map].
  - split; [reflexivity|constructor].
  - destruct IH as [IHlen IHall].
    { intros j Hj. apply Hfound. now right. }
    specialize (Hfound i (or_introl eq_refl)).
    destruct (indexOfString _ content) as [position|]; [|congruence].
    cbn [app length]. split; [now f_equal|].
    constructor; [|exact IHall].
    unfold padStart0. rewrite !length_app, repeat_length.
    change (length (lit " 00000 n ")) with 9. lia.
Qed.

Lemma entries_prefix (prefix rest : jsstring) (numbers : list nat) :
  (forall i, In i numbers ->
     indexOfString (toString i ++ lit " 0 obj") prefix <> None) ->
  flat_map
    (fun i =>
       match indexOfString (toString i ++ lit " 0 obj") (prefix ++ rest) with
       | Some position =>
           [padStart0 10 (toString position) ++ lit " 00000 n "]
       | None => []
       end) numbers
  = flat_map
      (fun i =>
         match indexOfString (toString i ++ lit " 0 obj") prefix with
         | Some position =>
             [padStart0 10 (toString position) ++ lit " 00000 n "]
         | None => []
         end) numbers.
Proof.
  induction numbers as [|i numbers IH]; intros Hfound; [reflexivity|].
  cbn [flat_map]. rewrite IH by (intros j Hj; apply Hfound; now right).
  specialize (Hfound i (or_introl eq_refl)).
  destruct (indexOfString _ prefix) as [position|] eqn:E; [|congruence].
  now rewrite (indexOfString_app _ _ rest E).
Qed.

Lemma objectLines_nonempty (lines : list jsstring) (filename : jsstring) :
  objectLines toUpperCase timestamp lines filename <> [].
Proof.
  unfold objectLines. rewrite numberObjects_spec. discriminate.
Qed.

(** The lines from ['xref'] to ['startxref']. *)
Lemma tableLines_join (lines : list jsstring) (filename : jsstring) :
  join nl (tableLines toUpperCase timestamp lines filename)
  = pdfContent toUpperCase timestamp lines filename ++ nl
    ++ join nl
         ([lit "xref"; lit "0 " ++ toString (objectCount lines)]
          ++ xrefEntries (pdfContent toUpperCase timestamp lines filename)
               (objectCount lines)
          ++ [lit "trailer";
              lit "<< /Size " ++ toString (objectCount lines)
              ++ lit " /Root 1 0 R >>";
              lit "startxref"]).
Proof.
  unfold tableLines. cbv zeta.
  rewrite join_app; [reflexivity|apply objectLines_nonempty|discriminate].
Qed.

End Builtins.

(** The first fourteen lines of a report of one page, which end with the
    line ["4 0 obj"], do not depend on the text. *)
Lemma one_page_lines (toUpperCase : jsstring -> jsstring)
  (timestamp : jsstring) (lines : list jsstring) (filename : jsstring) :
  totalPages lines = 1 ->
  objectLines toUpperCase timestamp lines filename
  = firstn 14 (objectLines (fun s => s) [] [[]] [])
    ++ skipn 14 (objectLines toUpperCase timestamp lines filename).
Proof.
  intros Hp. rewrite <- (firstn_skipn 14 (objectLines _ _ lines filename))
    at 1.
  f_equal. unfold objectLines. rewrite Hp.
  change (totalPages [[]]) with 1.
  cbn [numberObjects seq flat_map pageLines nth app firstn Nat.add].
  reflexivity.
Qed.

(** The table of a report of one page, from ['xref'] to ['startxref'],
    is 172 code units long. *)
Lemma one_page_table (toUpperCase : jsstring -> jsstring)
  (timestamp : jsstring) (lines : list jsstring) (filename : jsstring) :
  totalPages lines = 1 ->
  length
    (join nl
       ([lit "xref"; lit "0 " ++ toString (objectCount lines)]
        ++ xrefEntries (pdfContent toUpperCase timestamp lines filename)
             (objectCount lines)
        ++ [lit "trailer";
            lit "<< /Size " ++ toString (objectCount lines)
            ++ lit " /Root 1 0 R >>";
            lit "startxref"]))
  = 172.
Proof.
  intros Hp. rewrite objectCount_eq, Hp.
  unfold pdfContent. rewrite (one_page_lines _ _ _ _ Hp).
  rewrite (@join_app nl (firstn 14 (objectLines (fun s => s) [] [[]] []))).
  - unfold xrefEntries. rewrite entries_prefix.
    + vm_compute. reflexivity.
    + intros i Hi. cbn [Nat.mul Nat.add Nat.sub seq In] in Hi.
      destruct Hi as [<-|[<-|[<-|[<-|[<-|[]]]]]]; vm_compute; discriminate.
  - vm_compute. discriminate.
  - unfold objectLines. rewrite Hp.
    cbn [numberObjects seq flat_map pageLines nth app skipn Nat.add].
    discriminate.
Qed.

(** ** Reports of ASCII text *)

Ltac ascii_text :=
  repeat first
    [ reflexivity
    | assumption
    | apply ascii_app
    | apply ascii_toString ].

Lemma ascii_filter (p : N -> bool) (s : jsstring) :
  ascii s -> ascii (filter p s).
Proof.
  induction s as [|c s IH]; [reflexivity|].
  intros [Hc Hs]%ascii_inv. cbn [filter].
  destruct (p c); [apply ascii_cons; [exact Hc|]|]; now apply IH.
Qed.

Lemma ascii_rev (s : jsstring) : ascii s -> ascii (rev s).
Proof.
  induction s as [|c s IH]; [reflexivity|].
  intros [Hc Hs]%ascii_inv. cbn [rev].
  apply ascii_app; [now apply IH|]. now apply ascii_cons.
Qed.

Lemma ascii_trimStart (s : jsstring) : ascii s -> ascii (trimStart s).
Proof.
  induction s as [|c s IH]; [reflexivity|].
  intros H. cbn [trimStart]. destruct (isWhiteSpace c); [|exact H].
  apply IH. now apply ascii_inv in H.
Qed.

Lemma ascii_trim (s : jsstring) : ascii s -> ascii (trim s).
Proof.
  intros H. unfold trim, trimEnd.
  now apply ascii_rev, ascii_trimStart, ascii_rev, ascii_trimStart.
Qed.

Lemma showLine_ascii (currentLine : jsstring) :
  ascii currentLine -> Forall ascii (showLine currentLine).
Proof.
  intros H. unfold showLine. repeat constructor.
  apply ascii_app; [reflexivity|].
  apply ascii_app; [now apply ascii_filter|reflexivity].
Qed.

Lemma wrap_fold_ascii (words : list jsstring) :
  Forall ascii words ->
  forall st,
    Forall ascii (fst st) -> ascii (snd st) ->
    Forall ascii (fst (fold_left wrapStep words st))
    /\ ascii (snd (fold_left wrapStep words st)).
Proof.
  induction 1 as [|word words Hword _ IH]; intros [cl cur] Hcl Hcur;
    cbn [fold_left]; [now split|].
  cbn [fst snd] in Hcl, Hcur. apply IH; unfold wrapStep.
  - destruct (_ <=? 80); cbn [fst]; [exact Hcl|].
    destruct (0 <? length cur); [|exact Hcl].
    apply Forall_app. split; [exact Hcl|now apply showLine_ascii].
  - destruct (_ <=? 80); cbn [snd]; [|exact Hword].
    apply ascii_app; [exact Hcur|].
    apply ascii_app; [now destruct (0 <? length cur)|exact Hword].
Qed.

Lemma wrapWords_ascii (contentLines : list jsstring) (line : jsstring) :
  Forall ascii contentLines -> ascii line ->
  Forall ascii (wrapWords contentLines line).
Proof.
  intros Hcl Hline. unfold wrapWords.
  destruct (@wrap_fold_ascii (split 32 line) (@ascii_split 32 line Hline)
              (contentLines, []) Hcl eq_refl) as [H1 H2].
  destruct (fold_left wrapStep (split 32 line) (contentLines, []))
    as [cl cur]. cbn [fst snd] in H1, H2.
  destruct (0 <? length cur); [|exact H1].
  apply Forall_app. split; [exact H1|now apply showLine_ascii].
Qed.

Section Builtins.

Variable toUpperCase : jsstring -> jsstring.
Variable timestamp : jsstring.
Hypothesis timestamp_ascii : ascii timestamp.

Lemma renderLine_ascii (contentLines : list jsstring) (line : jsstring) :
  Forall ascii contentLines -> ascii line ->
  Forall ascii (renderLine toUpperCase contentLines line).
Proof.
  intros Hcl Hline. unfold renderLine.
  destruct (length (trim line) =? 0).
  { apply Forall_app. split; [exact Hcl|]. now repeat constructor. }
  destruct (_ && _); [|now apply wrapWords_ascii].
  apply Forall_app. split; [exact Hcl|].
  repeat constructor.
  apply ascii_app; [reflexivity|].
  apply ascii_app; [|reflexivity].
  now apply ascii_filter, ascii_substring, ascii_trim.
Qed.

Lemma streamContent_ascii (lines : list jsstring) (filename : jsstring)
  (pageNum : nat) :
  Forall ascii lines -> ascii filename ->
  ascii (streamContent toUpperCase timestamp lines filename pageNum).
Proof.
  intros Hlines Hfn. unfold streamContent. cbv zeta.
  apply ascii_join; [reflexivity|].
  apply Forall_app. split; [|repeat constructor; ascii_text].
  assert (Hfold : forall indices contentLines,
            Forall ascii contentLines ->
            Forall ascii
              (fold_left
                 (fun contentLines i =>
                    renderLine toUpperCase contentLines (nth i lines []))
                 indices contentLines)).
  { induction indices as [|i indices IH]; intros cl Hcl; cbn [fold_left];
      [exact Hcl|].
    apply IH. apply renderLine_ascii; [exact Hcl|].
    destruct (nth_in_or_default i lines []) as [Hin| ->]; [|reflexivity].
    now apply (proj1 (Forall_forall _ _) Hlines). }
  apply Hfold. destruct (pageNum =? 0); [|now repeat constructor].
  apply Forall_app. split; [now repeat constructor|].
  repeat constructor; ascii_text.
  - now apply ascii_substring, ascii_filter.
Qed.

Lemma objectLines_ascii (lines : list jsstring) (filename : jsstring) :
  Forall ascii lines -> ascii filename ->
  Forall ascii (objectLines toUpperCase timestamp lines filename).
Proof.
  intros Hlines Hfn. unfold objectLines. rewrite numberObjects_spec.
  apply Forall_app. split.
  - repeat constructor; ascii_text.
    apply ascii_join; [reflexivity|].
    apply Forall_forall. intros x (o & <- & _)%in_map_iff. ascii_text.
  - apply Forall_forall. intros x (pageNum & _ & Hx)%in_flat_map.
    revert x Hx. apply Forall_forall. unfold pageLines. cbv zeta.
    pose proof (@streamContent_ascii lines filename pageNum Hlines Hfn)
      as Hstream.
    repeat constructor; ascii_text.
Qed.

Lemma xrefEntries_ascii (content : jsstring) (currentObj : nat) :
  Forall ascii (xrefEntries content currentObj).
Proof.
  unfold xrefEntries. constructor; [reflexivity|].
  apply Forall_forall. intros x (i & _ & Hx)%in_flat_map.
  destruct (indexOfString _ content) as [position|]; [|destruct Hx].
  destruct Hx as [<-|[]]. unfold padStart0.
  apply ascii_app; [|reflexivity].
  apply ascii_app; [now apply ascii_repeat|apply ascii_toString].
Qed.

Lemma toStringZ_ascii (z : Z) : ascii (toStringZ z).
Proof. unfold toStringZ. destruct (z <? 0)%Z; ascii_text. Qed.

(** A report of ASCII text is encoded as it is: its bytes are its code
    units. *)
Lemma generatePDFFromText_ascii (content filename : jsstring) :
  ascii content -> ascii filename ->
  generatePDFFromText toUpperCase timestamp content filename
  = pdfString toUpperCase timestamp content filename.
Proof.
  intros Hc Hfn. unfold generatePDFFromText. apply encode_ascii.
  unfold pdfString. cbv zeta.
  apply ascii_join; [reflexivity|].
  apply Forall_app. split; [|repeat constructor; apply toStringZ_ascii].
  unfold tableLines. cbv zeta.
  apply Forall_app. split.
  { apply objectLines_ascii; [now apply ascii_split|exact Hfn]. }
  apply Forall_app. split; [repeat constructor; ascii_text|].
  apply Forall_app. split; [apply xrefEntries_ascii|].
  repeat constructor; ascii_text.
Qed.

End Builtins.

Section Builtins.

Variable toUpperCase : jsstring -> jsstring.
Variable timestamp : jsstring.

(** In the bytes of a report of ASCII text, the cross-reference table
    begins one byte after the last object and has an entry for every
    object number, but the number written after ['startxref'] is never its
    position: it is 28 less for a report of one page and at least 12 more
    for a longer one. *)
Theorem startxref_misses_table (content filename : jsstring) :
  ascii timestamp -> ascii content -> ascii filename ->
  let lines := split 10 content in
  let objects := pdfContent toUpperCase timestamp lines filename in
  (exists rest,
     generatePDFFromText toUpperCase timestamp content filename
     = objects ++ nl ++ lit "xref" ++ nl ++ rest)
  /\ length (xrefEntries objects (objectCount lines)) = objectCount lines
  /\ if totalPages lines =? 1
     then startxref toUpperCase timestamp lines filename
          = (Z.of_nat (length objects + 1) - 28)%Z
     else (Z.of_nat (length objects + 1) + 12
           <= startxref toUpperCase timestamp lines filename)%Z.
Proof.
  intros Hts Hcontent Hfn lines objects.
  rewrite (@generatePDFFromText_ascii toUpperCase timestamp Hts content
             filename Hcontent Hfn).
  assert (Hlines : 1 <= length lines).
  { pose proof (@PdfFacts.split_nonempty 10 content) as H. fold lines in H.
    destruct lines; [congruence|cbn [length]; lia]. }
  pose proof (totalPages_bounds lines) as [Hlow Hhigh].
  unfold linesPerPage in Hlow, Hhigh.
  pose proof (objectCount_eq lines) as Hcount.
  destruct (@xrefEntries_found objects (seq 1 (objectCount lines - 1)))
    as [Hlen Hall].
  { intros i Hi%in_seq. apply object_found. lia. }
  assert (Hentries : length (xrefEntries objects (objectCount lines))
                     = objectCount lines).
  { unfold xrefEntries. cbn [length].
    transitivity (S (length (seq 1 (objectCount lines - 1))));
      [f_equal; exact Hlen|rewrite length_seq; lia]. }
  split; [|split; [exact Hentries|]].
  - unfold pdfString. fold lines. cbv zeta.
    rewrite join_app;
      [|unfold tableLines; cbv zeta;
        intros H; apply app_eq_nil in H as [H _];
        now apply objectLines_nonempty in H
       |discriminate].
    rewrite tableLines_join. fold objects.
    rewrite TextFacts.join_cons_nonempty by discriminate.
    rewrite <- !app_assoc. eexists. reflexivity.
  - unfold startxref. rewrite tableLines_join. fold objects.
    rewrite !length_app. change (length nl) with 1.
    destruct (Nat.eqb_spec (totalPages lines) 1) as [Hp|Hp].
    + unfold objects. rewrite (one_page_table _ _ _ _ Hp). lia.
    + match goal with
      | |- context [join nl ?tail] =>
          pose proof (@join_length nl tail ltac:(discriminate)) as Hsum
      end.
      rewrite !map_app, !list_sum_app in Hsum.
      pose proof (entries_bound
                    (l := xrefEntries objects (objectCount lines))) as Hb.
      rewrite Hentries in Hb.
      assert (Hfirst : Forall (fun entry => 19 <= length entry)
                         (xrefEntries objects (objectCount lines))).
      { unfold xrefEntries. constructor; [|exact Hall].
        vm_compute. constructor. }
      specialize (Hb Hfirst).
      pose proof (toString_length (objectCount lines)) as Hd.
      cbn [map list_sum fold_right] in Hsum.
      rewrite !length_app in Hsum.
      change (length nl) with 1 in Hsum.
      change (length (lit "xref")) with 4 in Hsum.
      change (length (lit "0 ")) with 2 in Hsum.
      change (length (lit "trailer")) with 7 in Hsum.
      change (length (lit "<< /Size ")) with 9 in Hsum.
      change (length (lit " /Root 1 0 R >>")) with 15 in Hsum.
      change (length (lit "startxref")) with 9 in Hsum.
      match type of Hsum with
      | context [list_sum ?m] =>
          assert (Hb' : 20 * objectCount lines <= list_sum m) by exact Hb;
          generalize dependent (list_sum m)
      end.
      intros total Hsum Hb'. lia.
Qed.

End Builtins.

Lemma startxref_misses_table_witness :
  let lines := split 10 sampleReport in
  let objects := pdfContent asciiUpper sampleTimestamp lines sampleFile in
  (exists rest,
     generatePDFFromText asciiUpper sampleTimestamp sampleReport sampleFile
     = objects ++ nl ++ lit "xref" ++ nl ++ rest)
  /\ length (xrefEntries objects (objectCount lines)) = objectCount lines
  /\ startxref asciiUpper sampleTimestamp lines sampleFile
     = (Z.of_nat (length objects + 1) - 28)%Z.
Proof.
  intros lines objects.
  destruct (@startxref_misses_table asciiUpper sampleTimestamp sampleReport
              sampleFile eq_refl eq_refl eq_refl) as (H1 & H2 & H3).
  split; [exact H1|]. split; [exact H2|exact H3].
Defined.

End ReportFacts.

(* ================================================================== *)
(** * Instances of the lemmas on the web report and the profile *)
(* ================================================================== *)

Module Examples.

Import JS Pdf Profiler PdfSpec ProfilerSpec.

Lemma wrapLine_short_wellEscaped_witness :
  forallb wellEscaped (wrapLine (lit "mean (sd) of a\b")) = true.
Proof.
  apply PdfFacts.wrapLine_short_wellEscaped. vm_compute. lia.
Defined.

Lemma duplicates_reorder_witness :
  duplicates ageCity
  = duplicates {| headers := headers ageCity;
                  rows := rev (rows ageCity);
                  rowCount := 3 |}.
Proof.
  apply ProfilerFacts.duplicates_reorder;
    [apply Permutation_rev|reflexivity].
Defined.

Lemma repeated_row_counted_witness : (0 < duplicates ageCity)%Z.
Proof.
  apply ProfilerFacts.repeated_row_counted; [reflexivity|].
  intros H. apply NoDup_cons_iff in H as [H _]. apply H.
  right. left. reflexivity.
Defined.


End Examples.

(* ================================================================== *)
(** * More on the profile: categories and sections *)
(* ================================================================== *)

Module InsightsFacts.

Import JS Profiler ProfilerSpec InsightsSpec.

(** ** The frequency table *)

Lemma countValue_keys (val : jsstring) (frequency : list (jsstring * nat)) :
  forall key,
    In key (map fst (countValue val frequency))
    <-> In key (map fst frequency) \/ key = val.
Proof.
  induction frequency as [|[k c] rest IH]; intros key; cbn [countValue].
  - cbn [map fst In]. split; [intros [<-|[]]; now right|].
    intros [[]| ->]. now left.
  - destruct (eqb k val) eqn:E; cbn [map fst In].
    + apply ProfilerFacts.eqb_eq in E. subst k. split; [tauto|].
      intros [H| ->]; [exact H|now left].
    + rewrite IH. tauto.
Qed.

Lemma countValue_NoDup (val : jsstring)
  (frequency : list (jsstring * nat)) :
  NoDup (map fst frequency) -> NoDup (map fst (countValue val frequency)).
Proof.
  induction frequency as [|[k c] rest IH]; intros Hnd; cbn [countValue].
  - repeat constructor. intros [].
  - cbn [map fst] in Hnd. apply NoDup_cons_iff in Hnd as [Hk Hnd].
    destruct (eqb k val) eqn:E; cbn [map fst].
    + now constructor.
    + constructor; [|now apply IH].
      rewrite countValue_keys. intros [H| ->]; [contradiction|].
      rewrite (proj2 (ProfilerFacts.eqb_eq val val) eq_refl) in E.
      discriminate.
Qed.

Lemma countValue_In (val : jsstring) (frequency : list (jsstring * nat)) :
  NoDup (map fst frequency) ->
  forall key count,
    In (key, count) (countValue val frequency)
    <-> (key <> val /\ In (key, count) frequency)
        \/ (key = val
            /\ ((exists c, In (val, c) frequency /\ count = S c)
                \/ (~ In val (map fst frequency) /\ count = 1))).
Proof.
  induction frequency as [|[k c] rest IH]; intros Hnd key count;
    cbn [countValue].
  - cbn [In map]. split.
    + intros [[= <- <-]|[]]. right. split; [reflexivity|]. right. tauto.
    + intros [[_ []]|[-> [(c & [] & _)|[_ ->]]]]. now left.
  - cbn [map fst] in Hnd. apply NoDup_cons_iff in Hnd as [Hk Hnd].
    destruct (eqb k val) eqn:E.
    + apply ProfilerFacts.eqb_eq in E. subst k. cbn [In map fst]. split.
      * intros [[= <- <-]|H].
        -- right. split; [reflexivity|]. left. exists c. split; [now left|reflexivity].
        -- left. split; [|now right]. intros ->. apply Hk.
           apply in_map_iff. now exists (val, count).
      * intros [[Hne [[= H1 H2]|H]]|[-> [(c' & [[= <-]|H] & ->)|[H _]]]].
        -- congruence.
        -- now right.
        -- now left.
        -- exfalso. apply Hk. apply in_map_iff. now exists (val, c').
        -- exfalso. apply H. now left.
    + assert (Hne : k <> val).
      { intros ->.
        rewrite (proj2 (ProfilerFacts.eqb_eq val val) eq_refl) in E.
        discriminate. }
      cbn [In map fst]. rewrite (IH Hnd). split.
      * intros [[= <- <-]|[[H1 H2]|[-> [(c' & H & ->)|[H ->]]]]].
        -- left. split; [exact Hne|now left].
        -- left. split; [exact H1|now right].
        -- right. split; [reflexivity|]. left. exists c'.
           split; [now right|reflexivity].
        -- right. split; [reflexivity|]. right.
           split; [|reflexivity]. intros [H'|H']; [congruence|contradiction].
      * intros [[H1 [[= <- <-]|H2]]|[-> [(c' & [[= H _]|H] & ->)|[H ->]]]].
        -- now left.
        -- right. left. now split.
        -- congruence.
        -- right. right. split; [reflexivity|]. left. now exists c'.
        -- right. right. split; [reflexivity|]. right. split; [|reflexivity].
           intros H'. apply H. now right.
Qed.

Lemma occurrences_snoc (values : list jsstring) (val key : jsstring) :
  occurrences (values ++ [val]) key
  = occurrences values key + (if jsstring_eq_dec val key then 1 else 0).
Proof.
  unfold occurrences. rewrite count_occ_app. cbn [count_occ].
  now destruct (jsstring_eq_dec val key).
Qed.

Lemma countValue_counts (values : list jsstring) (val : jsstring)
  (frequency : list (jsstring * nat)) :
  counts values frequency ->
  counts (values ++ [val]) (countValue val frequency).
Proof.
  intros [Hnd Hin]. split; [now apply countValue_NoDup|].
  intros key count. rewrite (@countValue_In val frequency Hnd), occurrences_snoc.
  rewrite in_app_iff. cbn [In]. split.
  - intros [[Hne H]|[-> [(c & H & ->)|[H ->]]]].
    + apply Hin in H as [H ->]. split; [now left|].
      destruct (jsstring_eq_dec val key); [congruence|lia].
    + apply Hin in H as [H ->]. split; [now left|].
      destruct (jsstring_eq_dec val val); [lia|congruence].
    + split; [right; now left|].
      destruct (jsstring_eq_dec val val); [|congruence].
      assert (Hz : occurrences values val = 0).
      { apply count_occ_not_In. intros Hv. apply H.
        apply in_map_iff. exists (val, occurrences values val).
        split; [reflexivity|]. now apply Hin. }
      lia.
  - intros [Hkey ->]. destruct (jsstring_eq_dec val key) as [->|Hne].
    + right. split; [reflexivity|].
      destruct (in_dec jsstring_eq_dec key values) as [Hv|Hv].
      * left. exists (occurrences values key). split; [now apply Hin|lia].
      * right. split.
        -- intros ([k c] & Hk & H)%in_map_iff. cbn [fst] in Hk. subst k.
           now apply Hin in H as [H _].
        -- unfold occurrences.
           rewrite (proj1 (count_occ_not_In jsstring_eq_dec values key) Hv).
           reflexivity.
    + left. split; [congruence|]. apply Hin. split; [|lia].
      destruct Hkey as [H|[H|[]]]; [exact H|congruence].
Qed.

Lemma frequency_counts (values : list jsstring) :
  forall done frequency,
    counts done frequency ->
    counts (done ++ values)
      (fold_left (fun f val => countValue val f) values frequency).
Proof.
  induction values as [|val values IH]; intros done frequency H;
    cbn [fold_left].
  - now rewrite app_nil_r.
  - replace (done ++ val :: values) with ((done ++ [val]) ++ values)
      by now rewrite <- app_assoc.
    apply IH. now apply countValue_counts.
Qed.

(** ** The most frequent categories *)

Lemma sorted_app (A : Type) (R : A -> A -> Prop) (l1 l2 : list A) :
  StronglySorted R (l1 ++ l2) ->
  StronglySorted R l1 /\ forall a b, In a l1 -> In b l2 -> R a b.
Proof.
  induction l1 as [|x l1 IH]; cbn [app]; intros H.
  - split; [constructor|intros a b []].
  - apply StronglySorted_inv in H as [Hs Hall].
    destruct (IH Hs) as [Hs1 Hcross]. split.
    + constructor; [exact Hs1|].
      apply Forall_forall. intros y Hy.
      apply (proj1 (Forall_forall _ _) Hall). apply in_or_app. now left.
    + intros a b [<-|Ha] Hb; [|now apply Hcross].
      apply (proj1 (Forall_forall _ _) Hall). apply in_or_app. now right.
Qed.

(** The categories a categorical variable is reported with are its most
    frequent values with their numbers of occurrences: five of them, or
    all when the column has fewer values; each value once; in descending
    order of frequency; and no other value of the column occurs more often
    than any of them. *)
Theorem topValues_most_frequent (values : list jsstring) :
  let top := topValues (categoricalSummary values) in
  length top = Nat.min 5 (cardinality (categoricalSummary values))
  /\ NoDup (map fst top)
  /\ (forall val count,
        In (val, count) top ->
        In val values /\ count = occurrences values val)
  /\ StronglySorted (fun a b => snd b <= snd a) top
  /\ forall val,
       In val values -> ~ In val (map fst top) ->
       forall entry, In entry top -> occurrences values val <= snd entry.
Proof.
  unfold categoricalSummary. cbn [topValues cardinality].
  unfold slice. cbn [skipn Nat.sub].
  set (frequency := fold_left (fun f val => countValue val f) values []).
  assert (Hc : counts values frequency).
  { apply (@frequency_counts values [] []). split; [constructor|].
    intros val count. split; [intros []|intros [[] _]]. }
  destruct Hc as [Hnd Hin].
  set (after := fun a b : jsstring * nat => snd a <? snd b).
  pose proof (ProfilerFacts.sortWith_perm after frequency) as Hperm.
  assert (Hsorted : StronglySorted (fun a b => after a b = false)
                      (sortWith after frequency)).
  { apply Sorted_StronglySorted.
    - intros a b c. unfold after. rewrite !Nat.ltb_ge. lia.
    - apply ProfilerFacts.sortWith_sorted. intros a b. unfold after.
      rewrite Nat.ltb_lt, Nat.ltb_ge. lia. }
  rewrite <- (firstn_skipn 5 (sortWith after frequency)) in Hperm, Hsorted.
  apply sorted_app in Hsorted as [Htop Hcross].
  set (top := firstn 5 (sortWith after frequency)) in *.
  set (rest := skipn 5 (sortWith after frequency)) in *.
  assert (Hkeys : NoDup (map fst (top ++ rest))).
  { eapply Permutation_NoDup; [|exact Hnd].
    apply Permutation_map. now symmetry. }
  split.
  { unfold top. rewrite length_firstn. f_equal.
    rewrite <- (firstn_skipn 5 (sortWith after frequency)) at 1.
    fold top rest. rewrite (Permutation_length Hperm).
    rewrite <- (length_map fst). unfold setSize.
    apply Permutation_length, NoDup_Permutation;
      [exact Hnd|apply NoDup_nodup|].
    intros val. rewrite nodup_In. split.
    - intros ([k c] & <- & H)%in_map_iff. now apply Hin in H.
    - intros H. apply in_map_iff. exists (val, occurrences values val).
      split; [reflexivity|]. now apply Hin. }
  split.
  { rewrite map_app in Hkeys. now apply NoDup_app_remove_r in Hkeys. }
  split.
  { intros val count H. apply Hin. apply (Permutation_in _ Hperm).
    apply in_or_app. now left. }
  split.
  { clear -Htop. induction Htop as [|a l Hs IH Hall]; constructor;
      [exact IH|].
    eapply Forall_impl; [|exact Hall]. intros b. cbn beta.
    unfold after. now rewrite Nat.ltb_ge. }
  intros val Hval Hnot entry Hentry.
  assert (H : In (val, occurrences values val) (top ++ rest)).
  { apply (Permutation_in _ (Permutation_sym Hperm)). now apply Hin. }
  apply in_app_or in H as [H|H].
  - exfalso. apply Hnot. apply in_map_iff. now exists (val, occurrences values val).
  - specialize (Hcross _ _ Hentry H). unfold after in Hcross.
    apply Nat.ltb_ge in Hcross. exact Hcross.
Qed.

(** ** One section for every column *)

Section Sections.

Variable parseFloat : jsstring -> float.
Variable Math_pow : float -> float -> float.
Variable data : TableData.




End Sections.

End InsightsFacts.

(* ================================================================== *)
(** * More on the web report: the lines of the pages *)
(* ================================================================== *)

Module PagesFacts.

Import JS Pdf PdfSpec.

Lemma pagesFrom_groups (ts fn : jsstring) (w : list jsstring) :
  forall fuel i, length w - i <= fuel ->
    exists groups,
      pagesFrom ts fn fuel i w
      = match groups with
        | [] => []
        | first :: later =>
            pageContent ts fn (i =? 0) first
            :: map (pageContent ts fn false) later
        end
      /\ concat groups = skipn i w
      /\ Forall (fun pageLines =>
                   1 <= length pageLines <= linesPerPageWithHeader) groups.
Proof.
  induction fuel as [|fuel IH]; intros i Hi; cbn [pagesFrom].
  - exists []. rewrite skipn_all2 by lia. now repeat split.
  - destruct (Nat.ltb_spec i (length w)) as [Hlt|Hge].
    + destruct (IH (i + linesPerPageWithHeader)) as (groups & Hp & Hc & Hl).
      { unfold linesPerPageWithHeader, maxLinesPerPage, usableHeight.
        cbn. lia. }
      exists (slice i (i + linesPerPageWithHeader) w :: groups).
      split; [|split].
      * f_equal. rewrite Hp. destruct groups as [|g groups]; [reflexivity|].
        replace (i + linesPerPageWithHeader =? 0) with false; [reflexivity|].
        symmetry. apply Nat.eqb_neq.
        change linesPerPageWithHeader with 42. lia.
      * cbn [concat]. rewrite Hc. unfold slice.
        replace (i + linesPerPageWithHeader - i)
          with linesPerPageWithHeader by lia.
        rewrite Nat.add_comm, <- skipn_skipn. apply firstn_skipn.
      * constructor; [|exact Hl]. unfold slice.
        rewrite length_firstn, length_skipn.
        change linesPerPageWithHeader with 42. lia.
    + exists []. rewrite skipn_all2 by lia. now repeat split.
Qed.

(** The pages of the web report show every wrapped line once and in
    order: the wrapped lines are divided into successive groups of 1 to
    [linesPerPageWithHeader] lines, the first page is made of the first
    group with the title and the timestamp, and every later page of the
    next group. *)
Theorem pages_show_every_line (timestamp insights filename : jsstring) :
  exists first later,
    pages timestamp insights filename
    = pageContent timestamp filename true first
      :: map (pageContent timestamp filename false) later
    /\ concat (first :: later) = wrappedLines insights
    /\ Forall (fun pageLines =>
                 1 <= length pageLines <= linesPerPageWithHeader)
         (first :: later).
Proof.
  unfold pages. cbv zeta.
  destruct (@pagesFrom_groups timestamp filename (wrappedLines insights)
              (length (wrappedLines insights)) 0 ltac:(lia))
    as (groups & Hp & Hc & Hl).
  destruct groups as [|first later].
  - cbn [concat skipn] in Hc.
    pose proof (PdfFacts.wrappedLines_nonempty insights) as Hw.
    rewrite <- Hc in Hw. cbn [length] in Hw. lia.
  - exists first, later. now repeat split.
Qed.

End PagesFacts.

